(** * Yolov5-in-Deepstream-5.0: the output decoders and the suppression engine

    A shallow embedding of [nvdsparsebbox_Yolo.cpp] (and of the twin
    [iou]/[nms] of [common.hpp]).  The C++ type [float] is IEEE-754 binary32;
    it is modelled by [spec_float] of the Standard Library with 24 bits of
    precision and [emax = 128], each operation rounding to nearest even, so
    that rounding, overflow, underflow and NaN are those of single-precision
    arithmetic.  [std::sort] is code of the C++ library: the engine and
    [SortLayers] are written over the sort they are given, and the theorems
    hold for every sort that does what the standard promises.  The messages the decoders write
    to [std::cerr] (the warning on the number of classes among them) are not
    part of the model. *)

From Stdlib Require Import ZArith List Bool Lia Arith.
From Stdlib Require Import QArith Lqa.
From Stdlib Require Import Floats.SpecFloat.
From Stdlib Require Import Permutation Sorting.Sorted.
Import ListNotations.

Close Scope Q_scope.
Local Open Scope nat_scope.

(* ================================================================== *)
(** * binary32 arithmetic *)

Module F32.

Definition prec : Z := 24.
Definition emax : Z := 128.

Definition float := spec_float.

Definition add : float -> float -> float := SFadd prec emax.
Definition sub : float -> float -> float := SFsub prec emax.
Definition mul : float -> float -> float := SFmul prec emax.
Definition div : float -> float -> float := SFdiv prec emax.

(** The C++ comparisons: every comparison with a NaN is false. *)
Definition ltb : float -> float -> bool := SFltb.
Definition leb : float -> float -> bool := SFleb.
Definition gtb (x y : float) : bool := SFltb y x.

Definition is_nan (x : float) : bool :=
  match x with S754_nan => true | _ => false end.

(** A value that a binary32 variable can hold. *)
Definition representable (x : float) : bool := valid_binary prec emax x.

(** Conversion of an integer ([int], [unsigned int], an integer literal)
    to [float]: round to nearest even. *)
Definition of_Z (z : Z) : float := binary_normalize prec emax z 0 false.

(** [m * 2^e], rounded. *)
Definition of_scaled (m e : Z) : float := binary_normalize prec emax m e false.

(** The float nearest to the fraction [n / d]: the value of a decimal
    literal once it is stored in a [float]. *)
Definition dec (n d : Z) : float := div (of_Z n) (of_Z d).

Definition zero : float := S754_zero false.
Definition two : float := of_Z 2.
Definition half : float := of_scaled 1 (-1).

(** [std::max(a, b)] is [(a < b) ? b : a]; [std::min(a, b)] is
    [(b < a) ? b : a]. *)
Definition std_max (a b : float) : float := if ltb a b then b else a.
Definition std_min (a b : float) : float := if ltb b a then b else a.

(** The integer part of a finite float, toward zero. *)
Definition trunc (x : float) : option Z :=
  match x with
  | S754_zero _ => Some 0%Z
  | S754_finite s m e =>
      let a := match e with
               | Zneg p => Z.shiftr (Zpos m) (Zpos p)
               | _ => Z.shiftl (Zpos m) e
               end in
      Some (if s then Z.opp a else a)
  | _ => None
  end.

(** [static_cast<unsigned int>(x)]: the integer part when it fits 32 bits.
    Outside that range (and for NaN) the conversion is undefined in C++;
    the model returns 0 there and no theorem depends on it. *)
Definition to_uint (x : float) : Z :=
  match trunc x with
  | Some z => if ((0 <=? z) && (z <? 2 ^ 32))%Z then z else 0%Z
  | None => 0%Z
  end.

End F32.

Definition float : Type := F32.float.

(* ================================================================== *)
(** * Boxes and [iou] *)

(** [float bbox[4]]: centre x, centre y, width, height. *)
Record bbox4 (F : Type) : Type := mkBox { b0 : F; b1 : F; b2 : F; b3 : F }.

Arguments mkBox {F} _ _ _ _.
Arguments b0 {F} _.
Arguments b1 {F} _.
Arguments b2 {F} _.
Arguments b3 {F} _.

(** [iou] is written once over the arithmetic it uses, and instantiated with
    binary32 (what the code computes) and with exact rationals (what the
    formula means without rounding). *)
Section IouGeneric.

Variable F : Type.
Variables (fadd fsub fmul fdiv : F -> F -> F).
Variable fgtb : F -> F -> bool.
Variables (fmax fmin : F -> F -> F).
Variables (fzero ftwo : F).

Record interBox_t : Type :=
  mkInter { ib_left : F; ib_right : F; ib_top : F; ib_bottom : F }.

Definition interBox (lbox rbox : bbox4 F) : interBox_t :=
  {| ib_left   := fmax (fsub (b0 lbox) (fdiv (b2 lbox) ftwo))
                       (fsub (b0 rbox) (fdiv (b2 rbox) ftwo));
     ib_right  := fmin (fadd (b0 lbox) (fdiv (b2 lbox) ftwo))
                       (fadd (b0 rbox) (fdiv (b2 rbox) ftwo));
     ib_top    := fmax (fsub (b1 lbox) (fdiv (b3 lbox) ftwo))
                       (fsub (b1 rbox) (fdiv (b3 rbox) ftwo));
     ib_bottom := fmin (fadd (b1 lbox) (fdiv (b3 lbox) ftwo))
                       (fadd (b1 rbox) (fdiv (b3 rbox) ftwo)) |}.

(** [interBox[2] > interBox[3] || interBox[0] > interBox[1]] *)
Definition inverted (i : interBox_t) : bool :=
  fgtb (ib_top i) (ib_bottom i) || fgtb (ib_left i) (ib_right i).

Definition interBoxS (i : interBox_t) : F :=
  fmul (fsub (ib_right i) (ib_left i)) (fsub (ib_bottom i) (ib_top i)).

(** The denominator [lbox[2]*lbox[3] + rbox[2]*rbox[3] - interBoxS]. *)
Definition unionS (lbox rbox : bbox4 F) : F :=
  fsub (fadd (fmul (b2 lbox) (b3 lbox)) (fmul (b2 rbox) (b3 rbox)))
       (interBoxS (interBox lbox rbox)).

Definition iou_gen (lbox rbox : bbox4 F) : F :=
  let i := interBox lbox rbox in
  if inverted i then fzero
  else fdiv (interBoxS i) (unionS lbox rbox).

End IouGeneric.

Arguments interBox {F} _ _ _ _ _ _ _ _.
Arguments inverted {F} _ _.
Arguments interBoxS {F} _ _ _.
Arguments unionS {F} _ _ _ _ _ _ _ _ _.
Arguments iou_gen {F} _ _ _ _ _ _ _ _ _ _ _.
Arguments ib_left {F} _.
Arguments ib_right {F} _.
Arguments ib_top {F} _.
Arguments ib_bottom {F} _.

(** [iou] as compiled: binary32. *)
Definition iou : bbox4 float -> bbox4 float -> float :=
  iou_gen F32.add F32.sub F32.mul F32.div F32.gtb F32.std_max F32.std_min
          F32.zero F32.two.

(** [iou] in exact arithmetic. *)
Definition Qgtb (x y : Q) : bool := negb (Qle_bool x y).
Definition Qstd_max (a b : Q) : Q := if Qgtb b a then b else a.
Definition Qstd_min (a b : Q) : Q := if Qgtb a b then b else a.

Definition iouQ : bbox4 Q -> bbox4 Q -> Q :=
  iou_gen Qplus Qminus Qmult Qdiv Qgtb Qstd_max Qstd_min 0%Q 2%Q.

(* ================================================================== *)
(** * The suppression engine [nms] *)

(** [struct Detection { float bbox[4]; float conf; float class_id; }] *)
Record Detection : Type :=
  mkDet { bbox : bbox4 float; conf : float; class_id : float }.

(** [sizeof(Detection) / sizeof(float)] *)
Definition det_size : nat := 6.

(** [output[k]] on the caller's buffer.  A read past the end of the buffer is
    undefined in C++; the model reads [0.0f] there. *)
Definition buf_get (output : list float) (k : nat) : float :=
  nth k output F32.zero.

(** [memcpy(&det, &output[1 + det_size * i], det_size * sizeof(float))] *)
Definition read_det (output : list float) (i : nat) : Detection :=
  let o := 1 + det_size * i in
  {| bbox := mkBox (buf_get output o) (buf_get output (o + 1))
                   (buf_get output (o + 2)) (buf_get output (o + 3));
     conf := buf_get output (o + 4);
     class_id := buf_get output (o + 5) |}.

(** [bool cmp(a, b) { return a.conf > b.conf; }] *)
Definition cmp (a b : Detection) : bool := F32.gtb (conf a) (conf b).

(** ** [std::map<float, std::vector<Detection>>]

    The entries in ascending key order, which is the order of iteration.  Two
    keys are the same key when neither is less than the other. *)
Definition det_map : Type := list (float * list Detection).

(** [m.count(k)] *)
Fixpoint map_count (k : float) (m : det_map) : nat :=
  match m with
  | [] => 0
  | (k', _) :: m' =>
      if F32.ltb k' k then map_count k m'
      else if F32.ltb k k' then 0 else 1
  end.

(** [m.emplace(k, v)]: no effect when the key is present. *)
Fixpoint map_emplace (k : float) (v : list Detection) (m : det_map) : det_map :=
  match m with
  | [] => [(k, v)]
  | (k', v') :: m' =>
      if F32.ltb k' k then (k', v') :: map_emplace k v m'
      else if F32.ltb k k' then (k, v) :: m else m
  end.

(** [m[k].push_back(d)]: [operator[]] inserts an empty vector for a new key. *)
Fixpoint map_push_back (k : float) (d : Detection) (m : det_map) : det_map :=
  match m with
  | [] => [(k, [d])]
  | (k', v') :: m' =>
      if F32.ltb k' k then (k', v') :: map_push_back k d m'
      else if F32.ltb k k' then (k, [d]) :: m
      else (k', v' ++ [d]) :: m'
  end.

(** ** [std::sort(dets.begin(), dets.end(), cmp)]

    [std::sort] is not code of the repository.  [nms] below takes the sort
    as [std_sort]; what the standard promises of it is [conforming], further
    down: the result is a rearrangement of the elements, in descending
    confidence order when no confidence is a NaN, the order of elements of
    equal confidence being left open.  With a NaN confidence among different
    elements [cmp] is no strict weak ordering and the standard promises
    nothing: of such a group the model keeps only that the result is a
    rearrangement, [std::sort] moving the elements and never making or
    dropping one. *)
Definition sort_t : Type := list Detection -> list Detection.

(** One sort that conforms, for the concrete runs of [nms] in this file:
    the insertion sort that keeps elements of equal confidence in source
    order. *)
Fixpoint sort_insert (x : Detection) (l : list Detection) : list Detection :=
  match l with
  | [] => [x]
  | y :: l' => if cmp x y then x :: l else y :: sort_insert x l'
  end.

Definition insertion_sort : sort_t :=
  fun dets => fold_left (fun acc x => sort_insert x acc) dets [].

(** ** The loops of [nms] *)

(** The condition of the first loop, [i < output[0] && i < cap], where [cap]
    is 1000 in [nvdsparsebbox_Yolo.cpp] and [Yolo::MAX_OUTPUT_BBOX_COUNT] in
    [common.hpp]. *)
Definition collect_cond (cap : nat) (output : list float) (i : nat) : bool :=
  F32.ltb (F32.of_Z (Z.of_nat i)) (buf_get output 0) && (i <? cap).

(** The first loop, from index [i] on:
    [for (; i < output[0] && i < cap; i++)]. *)
Fixpoint nms_collect (fuel cap i : nat) (output : list float)
    (conf_thresh : float) (m : det_map) : det_map :=
  match fuel with
  | O => m
  | S fuel' =>
      if collect_cond cap output i then
        if F32.leb (buf_get output (1 + det_size * i + 4)) conf_thresh
        then nms_collect fuel' cap (S i) output conf_thresh m
        else
          let det := read_det output i in
          let m1 := if map_count (class_id det) m =? 0
                    then map_emplace (class_id det) [] m else m in
          nms_collect fuel' cap (S i) output conf_thresh
                      (map_push_back (class_id det) det m1)
      else m
  end.

Definition det0 : Detection :=
  mkDet (mkBox F32.zero F32.zero F32.zero F32.zero) F32.zero F32.zero.

(** [dets.erase(dets.begin() + n)] *)
Definition erase (n : nat) (dets : list Detection) : list Detection :=
  firstn n dets ++ skipn (S n) dets.

(** The innermost loop, from index [n] on:
    [for (; n < dets.size(); ++n) if (iou(item.bbox, dets[n].bbox) > nms_thresh)
       { dets.erase(dets.begin() + n); --n; }] *)
Fixpoint nms_inner (fuel : nat) (item : Detection) (nms_thresh : float)
    (n : nat) (dets : list Detection) : list Detection :=
  match fuel with
  | O => dets
  | S fuel' =>
      if n <? length dets then
        if F32.gtb (iou (bbox item) (bbox (nth n dets det0))) nms_thresh
        then nms_inner fuel' item nms_thresh n (erase n dets)
        else nms_inner fuel' item nms_thresh (S n) dets
      else dets
  end.

(** The loop over [m]:
    [for (; m < dets.size(); ++m) { item = dets[m]; res.push_back(item); ... }] *)
Fixpoint nms_outer (fuel : nat) (nms_thresh : float) (m : nat)
    (dets res : list Detection) : list Detection :=
  match fuel with
  | O => res
  | S fuel' =>
      if m <? length dets then
        let item := nth m dets det0 in
        nms_outer fuel' nms_thresh (S m)
                  (nms_inner (length dets) item nms_thresh (S m) dets)
                  (res ++ [item])
      else res
  end.

(** One class group: sort, then suppress. *)
Definition nms_group (std_sort : sort_t) (nms_thresh : float)
    (res : list Detection) (entry : float * list Detection)
  : list Detection :=
  let dets := std_sort (snd entry) in
  nms_outer (length dets) nms_thresh 0 dets res.

(** [void nms(std::vector<Detection>& res, float *output, float conf_thresh,
              float nms_thresh)]: the new value of [res].  [cap] is the bound
    of the first loop: the literal 1000 in [nvdsparsebbox_Yolo.cpp], the
    constant [Yolo::MAX_OUTPUT_BBOX_COUNT] of [yololayer.h] in [common.hpp].
    The first loop runs at most [cap] rounds, so [cap] is fuel enough. *)
Definition nms (std_sort : sort_t) (cap : nat) (res : list Detection)
    (output : list float) (conf_thresh nms_thresh : float) : list Detection :=
  let m := nms_collect cap cap 0 output conf_thresh [] in
  fold_left (nms_group std_sort nms_thresh) m res.

Definition MAX_OUTPUT_BBOX_COUNT : nat := 1000.

(** ** The algorithm in the words of the specification *)

(** The number of candidates the first loop visits. *)
Fixpoint n_visited (fuel cap i : nat) (output : list float) : nat :=
  match fuel with
  | O => 0
  | S fuel' =>
      if collect_cond cap output i
      then S (n_visited fuel' cap (S i) output) else 0
  end.

Definition candidates (cap : nat) (output : list float) : list Detection :=
  map (read_det output) (seq 0 (n_visited cap cap 0 output)).

(** Step 1: a candidate survives unless its confidence is at or below the
    threshold. *)
Definition above (conf_thresh : float) (d : Detection) : bool :=
  negb (F32.leb (conf d) conf_thresh).

Definition survivors (cap : nat) (output : list float) (conf_thresh : float)
  : list Detection :=
  filter (above conf_thresh) (candidates cap output).

(** Step 2: the group of class [k]. *)
Definition same_key (k k' : float) : bool :=
  negb (F32.ltb k k') && negb (F32.ltb k' k).

Definition in_class (k : float) (d : Detection) : bool :=
  same_key k (class_id d).

Fixpoint key_insert (k : float) (ks : list float) : list float :=
  match ks with
  | [] => [k]
  | k' :: ks' =>
      if F32.ltb k' k then k' :: key_insert k ks'
      else if F32.ltb k k' then k :: ks else ks
  end.

(** The class ids that occur, in ascending order, one per class. *)
Definition class_keys (l : list Detection) : list float :=
  fold_left (fun ks d => key_insert (class_id d) ks) l [].

(** Step 4: emit the head, drop what it suppresses, repeat. *)
Definition suppressed_by (nms_thresh : float) (item d : Detection) : bool :=
  F32.gtb (iou (bbox item) (bbox d)) nms_thresh.

Fixpoint greedy_fuel (fuel : nat) (nms_thresh : float) (dets : list Detection)
  : list Detection :=
  match fuel, dets with
  | S fuel', item :: rest =>
      item :: greedy_fuel fuel' nms_thresh
                (filter (fun d => negb (suppressed_by nms_thresh item d)) rest)
  | _, _ => []
  end.

Definition greedy (nms_thresh : float) (dets : list Detection)
  : list Detection :=
  greedy_fuel (length dets) nms_thresh dets.

(** Steps 1 to 5 together. *)
Definition nms_spec (std_sort : sort_t) (cap : nat) (output : list float)
    (conf_thresh nms_thresh : float) : list Detection :=
  let s := survivors cap output conf_thresh in
  flat_map (fun k => greedy nms_thresh (std_sort (filter (in_class k) s)))
           (class_keys s).

(** The map the first loop builds holds the survivors, pushed one by one. *)
Definition push_det (m : det_map) (x : Detection) : det_map :=
  map_push_back (class_id x) x m.

Definition group_all (l : list Detection) : det_map :=
  fold_left push_det l [].

(** Keys in strictly ascending order, none of them a NaN. *)
Definition ascending (ks : list float) : Prop :=
  StronglySorted (fun a b => F32.ltb a b = true) ks.

Definition no_nan (ks : list float) : Prop :=
  Forall (fun k => F32.is_nan k = false) ks.

(** A detection whose class has a key among [ks]. *)
Definition covers (ks : list float) (x : Detection) : Prop :=
  exists k, In k ks /\ in_class k x = true.

(** Inputs on which [std::map] and [std::sort] are defined: a NaN key or a
    NaN confidence breaks the strict weak ordering both require. *)
Definition ordered_input (l : list Detection) : Prop :=
  Forall (fun x => F32.is_nan (class_id x) = false
                   /\ F32.is_nan (conf x) = false) l.

(** In descending confidence order: no element has a confidence above that
    of an element before it. *)
Definition descending (l : list Detection) : Prop :=
  StronglySorted (fun a b => cmp b a = false) l.

(** What the standard promises of [std::sort] with [cmp]: a rearrangement,
    in order when [cmp] is a strict weak ordering of the elements. *)
Definition conforming (std_sort : sort_t) : Prop :=
  (forall l, Permutation (std_sort l) l)
  /\ (forall l, Forall (fun x => F32.is_nan (conf x) = false) l ->
                descending (std_sort l)).

(** No two different elements have the same confidence, nor a confidence
    that [cmp] cannot order (a NaN). *)
Definition tie_free (l : list Detection) : Prop :=
  forall x y, In x l -> In y l -> cmp x y = false -> cmp y x = false -> x = y.

(** The conversion of [int] to [float] keeps the order of the counts [nms]
    can meet, 0 to 1000: each is below the next. *)
Definition count_table_ok : bool :=
  forallb (fun i => F32.ltb (F32.of_Z (Z.of_nat i)) (F32.of_Z (Z.of_nat (S i))))
          (seq 0 MAX_OUTPUT_BBOX_COUNT).

(** The buffer layout [nms] reads: the count, then six floats a detection. *)
Definition encode_det (d : Detection) : list float :=
  [b0 (bbox d); b1 (bbox d); b2 (bbox d); b3 (bbox d); conf d; class_id d].

Definition encode (dets : list Detection) : list float :=
  F32.of_Z (Z.of_nat (length dets)) :: flat_map encode_det dets.

(** ** A sample buffer

    Four detections of class 0 with the confidences 0.875, 0.75, 0.625 and
    0.5: [nms_A] overlaps [nms_B] a little (IoU 900/12700), [nms_C] and
    [nms_D] lie inside [nms_B] (IoU 0.16 each) and are disjoint from each
    other and from [nms_A]. *)

Definition sample_det (x y w h : Z) (c : float) : Detection :=
  mkDet (mkBox (F32.of_Z x) (F32.of_Z y) (F32.of_Z w) (F32.of_Z h)) c F32.zero.

Definition nms_A : Detection := sample_det 100 0 60 60 (F32.of_scaled 7 (-3)).
Definition nms_B : Detection := sample_det 50 50 100 100 (F32.of_scaled 6 (-3)).
Definition nms_C : Detection := sample_det 25 25 40 40 (F32.of_scaled 5 (-3)).
Definition nms_D : Detection := sample_det 75 75 40 40 (F32.of_scaled 4 (-3)).

Definition sample_buffer : list float := encode [nms_C; nms_A; nms_D; nms_B].

(** The thresholds 1/16, 1/8, 1/4 and 3/4. *)
Definition t_16th : float := F32.of_scaled 1 (-4).
Definition t_8th : float := F32.of_scaled 1 (-3).
Definition t_quarter : float := F32.of_scaled 1 (-2).
Definition t_3quarters : float := F32.of_scaled 3 (-2).

(* ================================================================== *)
(** * The decoder entry points *)

(** [NvDsInferParseObjectInfo]; [nvdsinfer.h] has [detectionConfidence] as
    "the object detection confidence level; must in the range [0.0,1.0]". *)
Record NvDsInferParseObjectInfo : Type :=
  mkObj { classId : Z;
          left : float; top : float; width : float; height : float;
          detectionConfidence : float }.

(** [NvDsInferNetworkInfo]: three [unsigned int]. *)
Record NvDsInferNetworkInfo : Type :=
  mkNet { net_width : Z; net_height : Z; net_channels : Z }.

(** [NvDsInferDims] *)
Record NvDsInferDims : Type := mkDims { numDims : Z; d : list Z }.

(** What [void *buffer] points to: the decoders cast it to [float*] or to
    [int*]. *)
Inductive buffer_t : Type :=
| FloatBuffer (l : list float)
| IntBuffer (l : list Z).

(** [NvDsInferLayerInfo], the fields the decoders read. *)
Record NvDsInferLayerInfo : Type :=
  mkLayer { inferDims : NvDsInferDims; buffer : buffer_t }.

(** The cast of [layer.buffer] to a pointer to [float] (to [int] below); a
    buffer of the other type reads as zeros in the model. *)
Definition as_floats (b : buffer_t) : list float :=
  match b with FloatBuffer l => l | IntBuffer _ => [] end.

Definition as_ints (b : buffer_t) : list Z :=
  match b with IntBuffer l => l | FloatBuffer _ => [] end.

Definition layer0 : NvDsInferLayerInfo := mkLayer (mkDims 0 []) (FloatBuffer []).

(** [layer.inferDims.d[k]] *)
Definition dim (layer : NvDsInferLayerInfo) (k : nat) : Z :=
  nth k (d (inferDims layer)) 0%Z.

(** What a call does: it returns a flag and leaves a value in [objectList],
    or an [assert] stops the program, or it divides an [unsigned int] by
    zero, which is undefined in C++ and stops the program on the usual
    targets. *)
Inductive outcome : Type :=
| Returned (ok : bool) (objectList : list NvDsInferParseObjectInfo)
| AssertionFailed
| DivisionByZero.

Definition NUM_CLASSES_YOLO : Z := 80.
(** [#define NMS_THRESH 0.5] and [#define CONF_THRESH 0.4], converted to the
    [float] parameters of [nms]. *)
Definition NMS_THRESH : float := F32.half.
Definition CONF_THRESH : float := F32.dec 4 10.

(** ** [NvDsInferParseYoloV5] and [NvDsInferParseYoloV4] *)

(** The body of [for (auto& r : res)]. *)
Definition oinfo_of (r : Detection) : NvDsInferParseObjectInfo :=
  let bb := bbox r in
  {| classId := F32.to_uint (class_id r);
     left := F32.of_Z (F32.to_uint
               (F32.std_max F32.zero (F32.sub (b0 bb) (F32.mul (b2 bb) F32.half))));
     top := F32.of_Z (F32.to_uint
               (F32.std_max F32.zero (F32.sub (b1 bb) (F32.mul (b3 bb) F32.half))));
     width := F32.of_Z (F32.to_uint (b2 bb));
     height := F32.of_Z (F32.to_uint (b3 bb));
     detectionConfidence := conf r |}.

Definition NvDsInferParseYoloV5 (std_sort : sort_t)
    (outputLayersInfo : list NvDsInferLayerInfo)
    (networkInfo : NvDsInferNetworkInfo) (numClassesConfigured : Z)
    (objectList : list NvDsInferParseObjectInfo) : outcome :=
  let res := nms std_sort MAX_OUTPUT_BBOX_COUNT []
                 (as_floats (buffer (nth 0 outputLayersInfo layer0)))
                 CONF_THRESH NMS_THRESH in
  Returned true (fold_left (fun ol r => ol ++ [oinfo_of r]) res objectList).

(** [NvDsInferParseYoloV4] has the same text. *)
Definition NvDsInferParseYoloV4 := NvDsInferParseYoloV5.

(** ** The grid-anchor decoders *)

(** Modelled from the spec: [clamp] of [trt_utils.h], which is not under
    [src/]; the specification has the box edges clamped into
    [[0, networkWidth]] and [[0, networkHeight]], that is
    [min(max(val, minVal), maxVal)] on [float]. *)
Definition clamp (val minVal maxVal : float) : float :=
  F32.std_min maxVal (F32.std_max minVal val).

(** Wrap-around of 32-bit [unsigned int] and [int]. *)
Definition u32 (z : Z) : Z := (z mod 2 ^ 32)%Z.
Definition i32 (z : Z) : Z := ((z + 2 ^ 31) mod 2 ^ 32 - 2 ^ 31)%Z.

(** Modelled from the spec: the macro [DIVUP] of [trt_utils.h], which is not
    under [src/]; the specification has [stride = ceil(networkWidth /
    gridWidth)].  The decoders apply it to two [unsigned int]: the rounded-up
    quotient is [(n + d - 1) / d] in 32-bit unsigned arithmetic, where the
    sum wraps around, and there is no quotient ([None]) when [d] is zero. *)
Definition DIVUP (n d : Z) : option Z :=
  if (u32 d =? 0)%Z then None
  else Some (u32 (u32 n + u32 d - 1) / u32 d)%Z.

(** [convertBBox]; [classId] and [detectionConfidence] are set by the
    caller. *)
Definition convertBBox (bx by_ bw bh : float) (stride : Z) (netW netH : Z)
  : NvDsInferParseObjectInfo :=
  let xCenter := F32.mul bx (F32.of_Z stride) in
  let yCenter := F32.mul by_ (F32.of_Z stride) in
  let x0 := F32.sub xCenter (F32.div bw F32.two) in
  let y0 := F32.sub yCenter (F32.div bh F32.two) in
  let x1 := F32.add x0 bw in
  let y1 := F32.add y0 bh in
  let x0 := clamp x0 F32.zero (F32.of_Z netW) in
  let y0 := clamp y0 F32.zero (F32.of_Z netH) in
  let x1 := clamp x1 F32.zero (F32.of_Z netW) in
  let y1 := clamp y1 F32.zero (F32.of_Z netH) in
  {| classId := 0;
     left := x0;
     width := clamp (F32.sub x1 x0) F32.zero (F32.of_Z netW);
     top := y0;
     height := clamp (F32.sub y1 y0) F32.zero (F32.of_Z netH);
     detectionConfidence := F32.zero |}.

Definition one : float := F32.of_Z 1.

(** [addBBoxProposal]: the new value of [binfo]. *)
Definition addBBoxProposal (bx by_ bw bh : float) (stride : Z) (netW netH : Z)
    (maxIndex : Z) (maxProb : float) (binfo : list NvDsInferParseObjectInfo)
  : list NvDsInferParseObjectInfo :=
  let bbi := convertBBox bx by_ bw bh (i32 stride) netW netH in
  if F32.ltb (width bbi) one || F32.ltb (height bbi) one then binfo
  else binfo ++ [ {| classId := u32 maxIndex;
                     left := left bbi; top := top bbi;
                     width := width bbi; height := height bbi;
                     detectionConfidence := maxProb |} ].

(** [for (uint i = 0; i < n; ++i)] visits [0 .. n-1]. *)
Definition upto (n : Z) : list Z := map Z.of_nat (seq 0 (Z.to_nat n)).

Section GridDecode.

Variable detections : list float.
Variables (gridSizeW gridSizeH stride numBBoxes numOutputClasses : Z).
Variables (netW netH : Z).

(** [detections[bbindex + numGridCells * (b * (5 + numOutputClasses) + c)]],
    the index computed in [unsigned int]. *)
Definition cell (y x b c : Z) : float :=
  let numGridCells := i32 (gridSizeH * gridSizeW) in
  let bbindex := i32 (y * gridSizeW + x) in
  buf_get detections
    (Z.to_nat (u32 (bbindex + numGridCells * (b * (5 + numOutputClasses) + c)))).

(** The loop over the classes: the running [(maxProb, maxIndex)]. *)
Definition best_class (y x b : Z) : float * Z :=
  fold_left (fun acc i =>
               let prob := cell y x b (5 + i) in
               if F32.gtb prob (fst acc) then (prob, i) else acc)
            (upto numOutputClasses) (F32.zero, (-1)%Z).

(** One round of the innermost loop of the decoders, the box width and
    height being computed by [size_of pw raw]. *)
Definition decode_cell (size_of : float -> float -> float)
    (pw ph : float) (y x b : Z) (binfo : list NvDsInferParseObjectInfo)
  : list NvDsInferParseObjectInfo :=
  let bx := F32.add (F32.of_Z x) (cell y x b 0) in
  let by_ := F32.add (F32.of_Z y) (cell y x b 1) in
  let bw := size_of pw (cell y x b 2) in
  let bh := size_of ph (cell y x b 3) in
  let objectness := cell y x b 4 in
  let '(maxProb, maxIndex) := best_class y x b in
  let maxProb := F32.mul objectness maxProb in
  addBBoxProposal bx by_ bw bh stride netW netH maxIndex maxProb binfo.

(** The three nested loops. *)
Definition decode_grid
    (round : Z -> Z -> Z -> list NvDsInferParseObjectInfo ->
             list NvDsInferParseObjectInfo)
  : list NvDsInferParseObjectInfo :=
  fold_left (fun binfo y =>
    fold_left (fun binfo x =>
      fold_left (fun binfo b => round y x b binfo) (upto numBBoxes) binfo)
      (upto gridSizeW) binfo)
    (upto gridSizeH) [].

(** [anchors[k]] *)
Definition anchor (anchors : list float) (k : Z) : float :=
  buf_get anchors (Z.to_nat k).

(** [decodeYoloV3Tensor]: [bw = pw * detections[...]]. *)
Definition decodeYoloV3Tensor (mask : list Z) (anchors : list float)
  : list NvDsInferParseObjectInfo :=
  decode_grid (fun y x b =>
    let mb := nth (Z.to_nat b) mask 0%Z in
    decode_cell F32.mul (anchor anchors (mb * 2)) (anchor anchors (mb * 2 + 1))
                y x b).

(** [decodeYoloV2Tensor]: [bw = pw * exp(detections[...])], the product
    with the exponential being [scale_exp]. *)
Definition decodeYoloV2Tensor (scale_exp : float -> float -> float)
    (anchors : list float) : list NvDsInferParseObjectInfo :=
  decode_grid (fun y x b =>
    decode_cell scale_exp (anchor anchors (b * 2)) (anchor anchors (b * 2 + 1))
                y x b).

End GridDecode.

(** [SortLayers]: the layers, sorted with [std::sort] by [inferDims.d[1]],
    ascending.  As in [nms], [std::sort] is taken as a parameter; what the
    standard promises of it here is [conforming_layers], further down: the
    result is a rearrangement of the layers in ascending order of
    [inferDims.d[1]], the order of layers of equal [inferDims.d[1]] being
    left open. *)
Definition layer_sort_t : Type :=
  list NvDsInferLayerInfo -> list NvDsInferLayerInfo.

Definition SortLayers (std_sort : layer_sort_t)
    (outputLayersInfo : list NvDsInferLayerInfo) : list NvDsInferLayerInfo :=
  std_sort outputLayersInfo.

(** One sort that conforms, for the concrete runs of the decoders in this
    file: the insertion sort that keeps layers of equal [inferDims.d[1]] in
    source order. *)
Fixpoint layer_insert (x : NvDsInferLayerInfo) (l : list NvDsInferLayerInfo)
  : list NvDsInferLayerInfo :=
  match l with
  | [] => [x]
  | y :: l' => if (dim x 1 <? dim y 1)%Z then x :: l else y :: layer_insert x l'
  end.

Definition insertion_sort_layers : layer_sort_t :=
  fun outputLayersInfo =>
    fold_left (fun acc x => layer_insert x acc) outputLayersInfo [].

(** [assert(stride == DIVUP(networkInfo.height, gridSizeH))]: [None] when
    the program goes on.  [NDEBUG] tells whether the [assert]s are compiled
    out, in which case their argument is not evaluated. *)
Definition stride_assert (NDEBUG : bool) (stride netH gridSizeH : Z)
  : option outcome :=
  if NDEBUG then None
  else match DIVUP netH gridSizeH with
       | None => Some DivisionByZero
       | Some s => if (stride =? s)%Z then None else Some AssertionFailed
       end.

(** The loop of [NvDsInferParseYoloV3] over the layers and their masks, and
    the assignment [objectList = objects] that follows it. *)
Fixpoint v3_layers (NDEBUG : bool) (networkInfo : NvDsInferNetworkInfo)
    (anchors : list float) (layers : list NvDsInferLayerInfo)
    (masks : list (list Z)) (objects : list NvDsInferParseObjectInfo)
  : outcome :=
  match layers, masks with
  | layer :: layers', mask :: masks' =>
      if negb NDEBUG && negb (numDims (inferDims layer) =? 3)%Z
      then AssertionFailed
      else
        let gridSizeH := dim layer 1 in
        let gridSizeW := dim layer 2 in
        match DIVUP (net_width networkInfo) gridSizeW with
        | None => DivisionByZero
        | Some stride =>
            match stride_assert NDEBUG stride (net_height networkInfo)
                                gridSizeH with
            | Some stopped => stopped
            | None =>
                let outObjs :=
                  decodeYoloV3Tensor (as_floats (buffer layer)) gridSizeW
                    gridSizeH stride 3 NUM_CLASSES_YOLO
                    (net_width networkInfo) (net_height networkInfo)
                    mask anchors in
                v3_layers NDEBUG networkInfo anchors layers' masks'
                          (objects ++ outObjs)
            end
        end
  | _, _ => Returned true objects
  end.

Definition NvDsInferParseYoloV3 (std_sort : layer_sort_t) (NDEBUG : bool)
    (outputLayersInfo : list NvDsInferLayerInfo)
    (networkInfo : NvDsInferNetworkInfo) (numClassesConfigured : Z)
    (objectList : list NvDsInferParseObjectInfo)
    (anchors : list float) (masks : list (list Z)) : outcome :=
  let sortedLayers := SortLayers std_sort outputLayersInfo in
  if negb (length sortedLayers =? length masks) then Returned false objectList
  else v3_layers NDEBUG networkInfo anchors sortedLayers masks [].

Definition kANCHORS_V3 : list float :=
  map F32.of_Z [10; 13; 16; 30; 33; 23; 30; 61; 62;
                45; 59; 119; 116; 90; 156; 198; 373; 326]%Z.
Definition kMASKS_V3 : list (list Z) := [[6; 7; 8]; [3; 4; 5]; [0; 1; 2]]%Z.

Definition NvDsInferParseCustomYoloV3 (std_sort : layer_sort_t)
    (NDEBUG : bool) outputLayersInfo networkInfo numClassesConfigured
    objectList : outcome :=
  NvDsInferParseYoloV3 std_sort NDEBUG outputLayersInfo networkInfo
                       numClassesConfigured objectList kANCHORS_V3 kMASKS_V3.

Definition kANCHORS_V3Tiny : list float :=
  map F32.of_Z [10; 14; 23; 27; 37; 58; 81; 82; 135; 169; 344; 319]%Z.
Definition kMASKS_V3Tiny : list (list Z) := [[3; 4; 5]; [1; 2; 3]]%Z.

Definition NvDsInferParseCustomYoloV3Tiny (std_sort : layer_sort_t)
    (NDEBUG : bool) outputLayersInfo networkInfo numClassesConfigured
    objectList : outcome :=
  NvDsInferParseYoloV3 std_sort NDEBUG outputLayersInfo networkInfo
                       numClassesConfigured objectList
                       kANCHORS_V3Tiny kMASKS_V3Tiny.

(** The anchors of [NvDsInferParseYoloV2], [double] literals stored as
    [float]. *)
Definition anchors_V2 : list float :=
  [F32.dec 57273 100000; F32.dec 677385 1000000; F32.dec 187446 100000;
   F32.dec 206253 100000; F32.dec 333843 100000; F32.dec 547434 100000;
   F32.dec 788282 100000; F32.dec 352778 100000; F32.dec 977052 100000;
   F32.dec 916828 100000].

Definition NvDsInferParseYoloV2 (scale_exp : float -> float -> float)
    (NDEBUG : bool) (outputLayersInfo : list NvDsInferLayerInfo)
    (networkInfo : NvDsInferNetworkInfo) (numClassesConfigured : Z)
    (objectList : list NvDsInferParseObjectInfo) : outcome :=
  match outputLayersInfo with
  | [] => Returned false objectList
  | layer :: _ =>
      if negb NDEBUG && negb (numDims (inferDims layer) =? 3)%Z
      then AssertionFailed
      else
        let gridSizeH := dim layer 1 in
        let gridSizeW := dim layer 2 in
        match DIVUP (net_width networkInfo) gridSizeW with
        | None => DivisionByZero
        | Some stride =>
            match stride_assert NDEBUG stride (net_height networkInfo)
                                gridSizeH with
            | Some stopped => stopped
            | None =>
                let anchors :=
                  map (fun a => F32.mul a (F32.of_Z stride)) anchors_V2 in
                Returned true
                  (decodeYoloV2Tensor (as_floats (buffer layer)) gridSizeW
                     gridSizeH stride 5 NUM_CLASSES_YOLO
                     (net_width networkInfo) (net_height networkInfo)
                     scale_exp anchors)
            end
        end
  end.

(** ** [NvDsInferParseCustomYoloTLT] *)

Definition topK : nat := 200.

(** The [double] literal [1.001], and the promotion of a [float] to [double]
    (exact) that precedes the comparison [conf[0] > 1.001]. *)
Definition D_1_001 : spec_float := S754_finite false 4508103226997866 (-52).

Definition to_double (x : float) : spec_float :=
  match x with
  | S754_finite s m e => binary_round 53 1024 s m e
  | _ => x
  end.

(** The entry [i] of the three buffers: [loc[0..3]], [conf[0]], [cls_id[0]]. *)
Record tlt_entry : Type :=
  mkEntry { loc0 : float; loc1 : float; loc2 : float; loc3 : float;
            score : float; cls : float }.

Definition tlt_read (boxes scores clss : list float) (i : nat) : tlt_entry :=
  {| loc0 := buf_get boxes (i * 4); loc1 := buf_get boxes (i * 4 + 1);
     loc2 := buf_get boxes (i * 4 + 2); loc3 := buf_get boxes (i * 4 + 3);
     score := buf_get scores i; cls := buf_get clss i |}.

(** The five [continue] tests, in order: true when the entry is skipped. *)
Definition tlt_rejected (networkInfo : NvDsInferNetworkInfo) (e : tlt_entry)
  : bool :=
  let w := F32.of_Z (net_width networkInfo) in
  let h := F32.of_Z (net_height networkInfo) in
  SFltb D_1_001 (to_double (score e))
  || (F32.ltb (loc0 e) F32.zero || F32.ltb (loc1 e) F32.zero
      || F32.ltb (loc2 e) F32.zero || F32.ltb (loc3 e) F32.zero)
  || (F32.gtb (loc0 e) w || F32.gtb (loc2 e) w
      || F32.gtb (loc1 e) h || F32.gtb (loc3 e) w)
  || (F32.ltb (loc2 e) (loc0 e) || F32.ltb (loc3 e) (loc1 e))
  || (F32.gtb (F32.sub (loc3 e) (loc1 e)) h
      || F32.gtb (F32.sub (loc2 e) (loc0 e)) w).

Definition curObj (e : tlt_entry) : NvDsInferParseObjectInfo :=
  {| classId := F32.to_uint (cls e);
     left := loc0 e; top := loc1 e;
     width := F32.sub (loc2 e) (loc0 e);
     height := F32.sub (loc3 e) (loc1 e);
     detectionConfidence := score e |}.

(** The loop from index [i] on:
    [for (; (i < keepCount[0]) && (objectList.size() <= topK); ++i)]. *)
Fixpoint tlt_loop (fuel : nat) (networkInfo : NvDsInferNetworkInfo)
    (keepCount0 : Z) (boxes scores clss : list float) (i : nat)
    (objectList : list NvDsInferParseObjectInfo)
  : list NvDsInferParseObjectInfo :=
  match fuel with
  | O => objectList
  | S fuel' =>
      if (Z.of_nat i <? keepCount0)%Z && (length objectList <=? topK) then
        let e := tlt_read boxes scores clss i in
        tlt_loop fuel' networkInfo keepCount0 boxes scores clss (S i)
                 (if tlt_rejected networkInfo e then objectList
                  else objectList ++ [curObj e])
      else objectList
  end.

(** [i] grows by one a round until it reaches [keepCount[0]], so
    [keepCount[0]] rounds of fuel are enough. *)
Definition NvDsInferParseCustomYoloTLT
    (outputLayersInfo : list NvDsInferLayerInfo)
    (networkInfo : NvDsInferNetworkInfo) (numClassesConfigured : Z)
    (objectList : list NvDsInferParseObjectInfo) : outcome :=
  if negb (length outputLayersInfo =? 4) then Returned false objectList
  else
    let keepCount := as_ints (buffer (nth 0 outputLayersInfo layer0)) in
    let boxes := as_floats (buffer (nth 1 outputLayersInfo layer0)) in
    let scores := as_floats (buffer (nth 2 outputLayersInfo layer0)) in
    let clss := as_floats (buffer (nth 3 outputLayersInfo layer0)) in
    let keepCount0 := nth 0 keepCount 0%Z in
    Returned true
      (tlt_loop (Z.to_nat keepCount0) networkInfo keepCount0 boxes scores clss
                0 objectList).

(** ** What the decoders promise of a detection *)

(** The grid-anchor decoders: a box inside the network resolution, at least
    one pixel wide and high. *)
Definition box_ok (netW netH : Z) (o : NvDsInferParseObjectInfo) : Prop :=
  F32.leb F32.zero (left o) = true /\ F32.leb (left o) (F32.of_Z netW) = true
  /\ F32.leb F32.zero (top o) = true /\ F32.leb (top o) (F32.of_Z netH) = true
  /\ F32.leb one (width o) = true /\ F32.leb (width o) (F32.of_Z netW) = true
  /\ F32.leb one (height o) = true /\ F32.leb (height o) (F32.of_Z netH) = true.

(** [NvDsInferParseCustomYoloTLT]: the tests an emitted entry has passed,
    read on the detection. *)
Definition tlt_ok (networkInfo : NvDsInferNetworkInfo)
    (o : NvDsInferParseObjectInfo) : Prop :=
  SFltb D_1_001 (to_double (detectionConfidence o)) = false
  /\ F32.ltb (left o) F32.zero = false /\ F32.ltb (top o) F32.zero = false
  /\ F32.gtb (left o) (F32.of_Z (net_width networkInfo)) = false
  /\ F32.gtb (top o) (F32.of_Z (net_height networkInfo)) = false
  /\ F32.gtb (width o) (F32.of_Z (net_width networkInfo)) = false
  /\ F32.gtb (height o) (F32.of_Z (net_height networkInfo)) = false.

(** [NvDsInferParseYoloV5]: a confidence not at or below [CONF_THRESH], and
    box fields converted from [unsigned int]. *)
Definition v5_ok (o : NvDsInferParseObjectInfo) : Prop :=
  F32.leb (detectionConfidence o) CONF_THRESH = false
  /\ F32.leb F32.zero (left o) = true /\ F32.leb F32.zero (top o) = true
  /\ F32.leb F32.zero (width o) = true /\ F32.leb F32.zero (height o) = true.

(** The entries [NvDsInferParseCustomYoloTLT] emits when it visits the
    entries of index [i] to [i + n - 1]. *)
Definition tlt_emitted (networkInfo : NvDsInferNetworkInfo)
    (boxes scores clss : list float) (i n : nat)
  : list NvDsInferParseObjectInfo :=
  map curObj
      (filter (fun e => negb (tlt_rejected networkInfo e))
              (map (tlt_read boxes scores clss) (seq i n))).

(** The stride a layer is decoded with: the one by the width. *)
Definition width_stride (networkInfo : NvDsInferNetworkInfo)
    (layer : NvDsInferLayerInfo) : Z :=
  (u32 (u32 (net_width networkInfo) + u32 (dim layer 2) - 1)
   / u32 (dim layer 2))%Z.

Definition height_stride (networkInfo : NvDsInferNetworkInfo)
    (layer : NvDsInferLayerInfo) : Z :=
  (u32 (u32 (net_height networkInfo) + u32 (dim layer 1) - 1)
   / u32 (dim layer 1))%Z.

(** A layer whose grid is neither zero wide nor zero high, so that both
    strides exist. *)
Definition grid_nonzero (layer : NvDsInferLayerInfo) : Prop :=
  u32 (dim layer 1) <> 0%Z /\ u32 (dim layer 2) <> 0%Z.

(** The layer of [NvDsInferParseYoloV3] whose two strides disagree. *)
Definition stride_disagrees (networkInfo : NvDsInferNetworkInfo)
    (layer : NvDsInferLayerInfo) : Prop :=
  width_stride networkInfo layer <> height_stride networkInfo layer.

(** What [NvDsInferParseYoloV3] leaves in [objectList] when it decodes: the
    detections of each layer, decoded with its mask and with the stride by
    the width, the layers in sorted order. *)
Definition v3_objects (networkInfo : NvDsInferNetworkInfo)
    (anchors : list float) (layers : list NvDsInferLayerInfo)
    (masks : list (list Z)) : list NvDsInferParseObjectInfo :=
  flat_map (fun lm : NvDsInferLayerInfo * list Z =>
              decodeYoloV3Tensor (as_floats (buffer (fst lm)))
                (dim (fst lm) 2) (dim (fst lm) 1)
                (width_stride networkInfo (fst lm)) 3 NUM_CLASSES_YOLO
                (net_width networkInfo) (net_height networkInfo)
                (snd lm) anchors)
           (combine layers masks).

(** What [NvDsInferParseYoloV2] leaves in [objectList] when it decodes: the
    detections of its first layer, decoded with the stride by the width and
    the anchors scaled by it. *)
Definition v2_objects (scale_exp : float -> float -> float)
    (networkInfo : NvDsInferNetworkInfo) (layer : NvDsInferLayerInfo)
  : list NvDsInferParseObjectInfo :=
  let stride := width_stride networkInfo layer in
  decodeYoloV2Tensor (as_floats (buffer layer)) (dim layer 2) (dim layer 1)
    stride 5 NUM_CLASSES_YOLO (net_width networkInfo) (net_height networkInfo)
    scale_exp (map (fun a => F32.mul a (F32.of_Z stride)) anchors_V2).

(** A layer that the grid-anchor entry points decode: its grid is not zero
    wide and, where the assertions are compiled in, it has three dimensions,
    its grid is not zero high and its two strides agree. *)
Definition layer_accepted (NDEBUG : bool) (networkInfo : NvDsInferNetworkInfo)
    (layer : NvDsInferLayerInfo) : Prop :=
  u32 (dim layer 2) <> 0%Z
  /\ (NDEBUG = false ->
      numDims (inferDims layer) = 3%Z /\ u32 (dim layer 1) <> 0%Z
      /\ width_stride networkInfo layer = height_stride networkInfo layer).

(** ** Sample inputs of the decoders *)

Definition float_layer (dims : list Z) (l : list float) : NvDsInferLayerInfo :=
  mkLayer (mkDims (Z.of_nat (length dims)) dims) (FloatBuffer l).

(** Four buffers for [NvDsInferParseCustomYoloTLT]. *)
Definition tlt_layers (keepCount : Z) (boxes scores clss : list float)
  : list NvDsInferLayerInfo :=
  [mkLayer (mkDims 1 [1%Z]) (IntBuffer [keepCount]);
   float_layer [] boxes; float_layer [] scores; float_layer [] clss].

(** A layer of 3 x 85 channels over a 1 x 1 grid whose first anchor has the
    offsets 0.5, the size factors 1, the given objectness and the given
    score for class 0; every other value is 0. *)
Definition one_cell_layer (objectness prob : float) : NvDsInferLayerInfo :=
  float_layer [255; 1; 1]%Z
    ([F32.half; F32.half; one; one; objectness; prob]
     ++ repeat F32.zero 249).

(** A layer of 3 x 85 channels over an [h] x [w] grid, all zeros. *)
Definition empty_layer (h w : Z) : NvDsInferLayerInfo :=
  float_layer [255; h; w]%Z (repeat F32.zero (Z.to_nat (255 * h * w))).


(** The class ids of the detections a call leaves in [objectList]. *)
Definition class_ids (r : outcome) : list Z :=
  match r with
  | Returned _ l => map classId l
  | AssertionFailed => []
  | DivisionByZero => []
  end.

(** One entry with the box (10, 20, 30, 60) and the score 0.7, for a
    network of width 100 and height 50. *)
Definition tlt_tall_entry : tlt_entry :=
  mkEntry (F32.of_Z 10) (F32.of_Z 20) (F32.of_Z 30) (F32.of_Z 60)
          (F32.dec 7 10) (F32.of_Z 3).
Definition tlt_tall : list NvDsInferLayerInfo :=
  tlt_layers 1 (map F32.of_Z [10; 20; 30; 60]%Z) [F32.dec 7 10] [F32.of_Z 3].
Definition net_100x50 : NvDsInferNetworkInfo := mkNet 100 50 3.
Definition net_32x32 : NvDsInferNetworkInfo := mkNet 32 32 3.

(** Three layers for [NvDsInferParseCustomYoloV3] on a 32 x 32 network,
    with grids 1, 2 and 4 high; the grid of the second is 4 wide, so its
    strides are 8 by the width and 16 by the height. *)
Definition v3_skewed : list NvDsInferLayerInfo :=
  [one_cell_layer one F32.half; empty_layer 2 4; empty_layer 4 4].

(** The same with the grids 1 x 1, 2 x 2 and 4 x 4, whose strides agree, and
    the objectness -1. *)
Definition v3_negative : list NvDsInferLayerInfo :=
  [one_cell_layer (F32.of_Z (-1)) F32.half; empty_layer 2 2; empty_layer 4 4].

(** A buffer for [NvDsInferParseYoloV5] with one box half a pixel wide and
    high, of confidence 0.9. *)
Definition v5_thin : list NvDsInferLayerInfo :=
  [float_layer []
     (encode [mkDet (mkBox (F32.of_Z 10) (F32.of_Z 10) F32.half F32.half)
                    (F32.dec 9 10) F32.zero])].

(** A unit box centred at x = 2^24, where the spacing of [float] is 2. *)
Definition far_box : bbox4 float :=
  mkBox (F32.of_scaled 1 24) F32.zero one one.

(** Two overlapping 4 x 4 boxes, in exact arithmetic. *)
Definition qbox_A : bbox4 Q := mkBox 10%Q 10%Q 4%Q 4%Q.
Definition qbox_B : bbox4 Q := mkBox 11%Q 10%Q 4%Q 4%Q.

(** A box at ordinary pixel coordinates: centre (300.3, 200.7), 50.7 wide
    and 80.3 high. *)
Definition pixel_box : bbox4 float :=
  mkBox (F32.dec 3003 10) (F32.dec 2007 10) (F32.dec 507 10) (F32.dec 803 10).

(** Scenario D of the specification: [keepCount = 2], a first entry of
    confidence 1.5 and a second of confidence 0.7, both with the box
    (10, 20, 30, 40). *)
Definition tlt_scenario_D : list NvDsInferLayerInfo :=
  tlt_layers 2 (map F32.of_Z [10; 20; 30; 40; 10; 20; 30; 40]%Z)
             [F32.dec 15 10; F32.dec 7 10] [F32.of_Z 3; F32.of_Z 4].

(* ================================================================== *)
(** * Vocabulary of the further properties *)

(** Two values that [std::max] and [std::min] treat alike in either argument
    order: one is below the other, or they are the same value.  A NaN beside
    a number, and the two zeros beside each other, are not. *)
Definition agree (x y : float) : Prop :=
  F32.ltb x y = true \/ F32.ltb y x = true \/ x = y.

(** The edges of a box, as [iou] computes them. *)
Definition edge_left (a : bbox4 float) : float :=
  F32.sub (b0 a) (F32.div (b2 a) F32.two).
Definition edge_right (a : bbox4 float) : float :=
  F32.add (b0 a) (F32.div (b2 a) F32.two).
Definition edge_top (a : bbox4 float) : float :=
  F32.sub (b1 a) (F32.div (b3 a) F32.two).
Definition edge_bottom (a : bbox4 float) : float :=
  F32.add (b1 a) (F32.div (b3 a) F32.two).

(** The four pairs of edges that [iou] compares. *)
Definition edges_agree (l r : bbox4 float) : Prop :=
  agree (edge_left l) (edge_left r) /\ agree (edge_right l) (edge_right r)
  /\ agree (edge_top l) (edge_top r) /\ agree (edge_bottom l) (edge_bottom r).

(** No edge of the box is a NaN. *)
Definition edges_not_nan (a : bbox4 float) : bool :=
  negb (F32.is_nan (edge_left a)) && negb (F32.is_nan (edge_right a))
  && negb (F32.is_nan (edge_top a)) && negb (F32.is_nan (edge_bottom a)).

(** Two boxes apart: one ends before the other begins, along x or along y. *)
Definition apart (l r : bbox4 float) : Prop :=
  F32.ltb (edge_right l) (edge_left r) = true
  \/ F32.ltb (edge_right r) (edge_left l) = true
  \/ F32.ltb (edge_bottom l) (edge_top r) = true
  \/ F32.ltb (edge_bottom r) (edge_top l) = true.

(** The order of the detections [nms] emits: [a] comes before [b] only if
    the class of [b] is not below that of [a], and within one class only if
    the confidence of [b] is not above that of [a]. *)
Definition class_then_confidence (a b : Detection) : Prop :=
  F32.ltb (class_id b) (class_id a) = false
  /\ (in_class (class_id a) b = true -> cmp b a = false).

(** [b], of the class of [a], is not suppressed by [a]. *)
Definition unsuppressed (nms_thresh : float) (a b : Detection) : Prop :=
  in_class (class_id a) b = true -> suppressed_by nms_thresh a b = false.

(** No two different detections of one class have the same confidence, nor
    a confidence that [cmp] cannot order (a NaN). *)
Definition distinct_confidences (l : list Detection) : Prop :=
  forall x y, In x l -> In y l -> in_class (class_id x) y = true ->
    cmp x y = false -> cmp y x = false -> x = y.

(** The four sample detections in another buffer order. *)
Definition sample_buffer' : list float := encode [nms_A; nms_B; nms_C; nms_D].

(** No class score of the cell is above zero. *)
Definition no_class_score (detections : list float) (gw gh nc y x b : Z)
  : bool :=
  forallb (fun i => negb (F32.gtb (cell detections gw gh nc y x b (5 + i))
                                  F32.zero))
          (upto nc).

(** Layers in ascending order of [inferDims.d[1]]. *)
Definition layers_sorted (l : list NvDsInferLayerInfo) : Prop :=
  StronglySorted (fun a b => (dim a 1 <= dim b 1)%Z) l.

(** What the standard promises of [std::sort] in [SortLayers]: a
    rearrangement in ascending order of [inferDims.d[1]]. *)
Definition conforming_layers (std_sort : layer_sort_t) : Prop :=
  forall l, Permutation (std_sort l) l /\ layers_sorted (std_sort l).

(** Layers that differ in [inferDims.d[1]]. *)
Definition distinct_heights (l : list NvDsInferLayerInfo) : Prop :=
  forall a b, In a l -> In b l -> dim a 1 = dim b 1 -> a = b.

(** Three empty layers with the grids 4 x 4, 1 x 1 and 2 x 2. *)
Definition v3_pyramid : list NvDsInferLayerInfo :=
  [empty_layer 4 4; empty_layer 1 1; empty_layer 2 2].

(** ** The entry points with C linkage that only forward their arguments *)

Definition NvDsInferParseCustomYoloV5 := NvDsInferParseYoloV5.
Definition NvDsInferParseCustomYoloV4 := NvDsInferParseYoloV4.
Definition NvDsInferParseCustomYoloV2 := NvDsInferParseYoloV2.
Definition NvDsInferParseCustomYoloV2Tiny := NvDsInferParseYoloV2.

(** The index at which the grid-anchor decoders read the value [c] of the
    anchor [b] of the cell [(y, x)]: the index expression of [cell]. *)
Definition cell_index (gridSizeW gridSizeH numOutputClasses y x b c : Z) : Z :=
  let numGridCells := i32 (gridSizeH * gridSizeW) in
  let bbindex := i32 (y * gridSizeW + x) in
  u32 (bbindex + numGridCells * (b * (5 + numOutputClasses) + c)).

(* ================================================================== *)
(** * [read_files_in_dir] of [common.hpp] *)

From Stdlib Require String.

(** The two names [strcmp] compares an entry with. *)
Module DirNames.
Import String.
Definition dot : string := ".".
Definition dotdot : string := "..".
End DirNames.

(** The directory as [opendir] and [readdir] present it: [None] when
    [opendir] returns a null pointer, and otherwise the names [d_name] that
    the successive calls of [readdir] return. *)
Definition directory : Type := option (list String.string).

(** [strcmp(d_name, ".") != 0 && strcmp(d_name, "..") != 0] *)
Definition listed (d_name : String.string) : bool :=
  negb (String.eqb d_name DirNames.dot)
  && negb (String.eqb d_name DirNames.dotdot).

(** The [while] loop: the new value of [file_names]. *)
Fixpoint read_entries (entries : list String.string)
    (file_names : list String.string) : list String.string :=
  match entries with
  | [] => file_names
  | d_name :: rest =>
      if listed d_name then read_entries rest (file_names ++ [d_name])
      else read_entries rest file_names
  end.

(** [int read_files_in_dir(const char *p_dir_name,
    std::vector<std::string> &file_names)]: the value returned and the new
    value of [file_names]. *)
Definition read_files_in_dir (p_dir : directory)
    (file_names : list String.string) : Z * list String.string :=
  match p_dir with
  | None => ((-1)%Z, file_names)
  | Some entries => (0%Z, read_entries entries file_names)
  end.

(* ================================================================== *)
(** * Sorts that conform, and more sample buffers *)

(** Strictly descending: every element has a confidence above that of every
    element after it. *)
Fixpoint strictb (l : list Detection) : bool :=
  match l with
  | [] => true
  | x :: r => forallb (cmp x) r && strictb r
  end.

(** A group with one descending order only: the insertion sort puts it in
    strictly descending order. *)
Definition determined (g : list Detection) : bool :=
  strictb (insertion_sort g).

(** A buffer all of whose groups are [determined]. *)
Definition sort_determined (cap : nat) (output : list float)
    (conf_thresh : float) : bool :=
  forallb determined (map snd (group_all (survivors cap output conf_thresh))).

(** A sort that conforms and leaves a group with a NaN confidence as it
    is. *)
Definition cautious_sort : sort_t :=
  fun dets =>
    if forallb (fun x => negb (F32.is_nan (conf x))) dets
    then insertion_sort dets else dets.

(** A sort that conforms and breaks ties by the size of the group: elements
    of equal confidence come out in source order when their number is odd
    and in reverse source order when it is even. *)
Definition parity_sort : sort_t :=
  fun dets =>
    if Nat.even (length dets) then insertion_sort (rev dets)
    else insertion_sort dets.

(** The box of [nms_B] with the confidence 0.875 and the class 0, the same
    box with the confidence 0.75 and a NaN class id, and the box of [nms_A]
    with the confidence 0.5 and the class 1. *)
Definition hi_B : Detection :=
  mkDet (bbox nms_B) (F32.of_scaled 7 (-3)) F32.zero.
Definition nan_B : Detection :=
  mkDet (bbox nms_B) (F32.of_scaled 6 (-3)) S754_nan.

Definition nan_class_buffer : list float := encode [hi_B; nan_B].

(** The box of [nms_C] with a NaN confidence, between [nms_D] and [nms_A]:
    three boxes of class 0 that do not overlap. *)
Definition nan_conf_C : Detection := mkDet (bbox nms_C) S754_nan F32.zero.
Definition nan_conf_buffer : list float := encode [nms_D; nan_conf_C; nms_A].

(** Three detections of class 0 with the same confidence 0.875: [tie_q] has
    the box of [nms_B], and [tie_p] and [tie_r], inside it, those of [nms_C]
    and [nms_D]; a fourth, [tie_w], of confidence 0.5, lies inside the box
    of [tie_q] too. *)
Definition tie_p : Detection := mkDet (bbox nms_C) (F32.of_scaled 7 (-3)) F32.zero.
Definition tie_q : Detection := mkDet (bbox nms_B) (F32.of_scaled 7 (-3)) F32.zero.
Definition tie_r : Detection := mkDet (bbox nms_D) (F32.of_scaled 7 (-3)) F32.zero.
Definition tie_w : Detection := sample_det 25 75 40 40 (F32.of_scaled 4 (-3)).
Definition tie_buffer : list float := encode [tie_w; tie_r; tie_p; tie_q].


(** A buffer for [NvDsInferParseYoloV5] with one box of 4 x 4 pixels centred
    at (1000, 1000), of confidence 0.9. *)
Definition v5_far : list NvDsInferLayerInfo :=
  [float_layer []
     (encode [mkDet (mkBox (F32.of_Z 1000) (F32.of_Z 1000)
                           (F32.of_Z 4) (F32.of_Z 4))
                    (F32.dec 9 10) F32.zero])].

(** One entry for [NvDsInferParseCustomYoloTLT] whose right and bottom edges
    are its left and top edges: the box (10, 20, 10, 20), of score 0.7. *)
Definition tlt_flat : list NvDsInferLayerInfo :=
  tlt_layers 1 (map F32.of_Z [10; 20; 10; 20]%Z) [F32.dec 7 10] [F32.of_Z 3].

(** Three layers with the grids 1 x 1, 2 x 2 and 4 x 4, the first with the
    objectness 1 and the score 0.5 for class 0. *)
Definition v3_single : list NvDsInferLayerInfo :=
  [one_cell_layer one F32.half; empty_layer 2 2; empty_layer 4 4].

(** Layers that the insertion sort puts in strictly ascending order of
    [inferDims.d[1]]: every conforming sort orders them alike. *)
Fixpoint strict_heights (l : list NvDsInferLayerInfo) : bool :=
  match l with
  | [] => true
  | x :: r => forallb (fun y => (dim x 1 <? dim y 1)%Z) r && strict_heights r
  end.

Definition layers_determined (l : list NvDsInferLayerInfo) : bool :=
  strict_heights (insertion_sort_layers l).

(** A list of 150 detections, as a caller may pass it. *)
Definition earlier_objects : list NvDsInferParseObjectInfo :=
  repeat (curObj tlt_tall_entry) 150.
(* ================================================================== *)
(** * The order of binary32 values *)

Ltac cmp_cases :=
  repeat match goal with
  | |- context [Pos.compare_cont Eq ?a ?b] =>
      change (Pos.compare_cont Eq a b) with (Pos.compare a b)
  | H : context [Pos.compare_cont Eq ?a ?b] |- _ =>
      change (Pos.compare_cont Eq a b) with (Pos.compare a b) in H
  end;
  repeat match goal with
  | H : context [Z.compare ?a ?b] |- _ =>
      destruct (Z.compare_spec a b); try subst a
  | |- context [Z.compare ?a ?b] =>
      destruct (Z.compare_spec a b); try subst a
  | H : context [Pos.compare ?a ?b] |- _ =>
      destruct (Pos.compare_spec a b); try subst a
  | |- context [Pos.compare ?a ?b] =>
      destruct (Pos.compare_spec a b); try subst a
  end; simpl in *; try congruence; try lia.

Ltac float_cases x := destruct x as [[]|[]| |[] ? ?].

Lemma SFcompare_antisym (x y : float) :
  SFcompare y x = option_map CompOpp (SFcompare x y).
Proof.
  float_cases x; float_cases y; simpl; try reflexivity; cmp_cases.
Qed.

Lemma SFcompare_trans_lt (x y z : float) :
  SFcompare x y = Some Lt -> SFcompare y z = Some Lt -> SFcompare x z = Some Lt.
Proof.
  float_cases x; float_cases y; float_cases z; simpl; try congruence;
    intros H1 H2; cmp_cases.
Qed.

Lemma SFcompare_eq_l (x y z : float) :
  SFcompare x y = Some Eq -> SFcompare x z = SFcompare y z.
Proof.
  float_cases x; float_cases y; float_cases z; simpl; try congruence;
    intros H1; cmp_cases.
Qed.

Lemma SFcompare_eq_r (x y z : float) :
  SFcompare x y = Some Eq -> SFcompare z x = SFcompare z y.
Proof.
  intros H. rewrite (SFcompare_antisym x z), (SFcompare_antisym y z).
  now rewrite (SFcompare_eq_l _ _ z H).
Qed.

Lemma SFcompare_refl (x : float) :
  F32.is_nan x = false -> SFcompare x x = Some Eq.
Proof.
  float_cases x; simpl; try congruence; intros _; cmp_cases.
Qed.

Lemma SFcompare_total (x y : float) :
  F32.is_nan x = false -> F32.is_nan y = false ->
  exists c, SFcompare x y = Some c.
Proof.
  float_cases x; float_cases y; simpl; try congruence; intros _ _; eauto.
Qed.

Lemma SFcompare_None (x y : float) :
  SFcompare x y = None -> F32.is_nan x = true \/ F32.is_nan y = true.
Proof.
  float_cases x; float_cases y; simpl; try congruence; auto.
Qed.

Lemma ltb_irrefl (x : float) : F32.ltb x x = false.
Proof.
  unfold F32.ltb, SFltb. float_cases x; simpl; try reflexivity; cmp_cases.
Qed.

Lemma ltb_asym (x y : float) : F32.ltb x y = true -> F32.ltb y x = false.
Proof.
  unfold F32.ltb, SFltb. rewrite (SFcompare_antisym x y).
  destruct (SFcompare x y) as [[]|]; simpl; congruence.
Qed.

Lemma ltb_trans (x y z : float) :
  F32.ltb x y = true -> F32.ltb y z = true -> F32.ltb x z = true.
Proof.
  unfold F32.ltb, SFltb. intros H1 H2.
  destruct (SFcompare x y) as [[]|] eqn:E1; try discriminate.
  destruct (SFcompare y z) as [[]|] eqn:E2; try discriminate.
  now rewrite (SFcompare_trans_lt _ _ _ E1 E2).
Qed.

Lemma leb_trans (x y z : float) :
  F32.leb x y = true -> F32.leb y z = true -> F32.leb x z = true.
Proof.
  unfold F32.leb, SFleb. intros H1 H2.
  destruct (SFcompare x y) as [[]|] eqn:E1; try discriminate.
  - now rewrite (SFcompare_eq_l _ _ z E1).
  - destruct (SFcompare y z) as [[]|] eqn:E2; try discriminate.
    + now rewrite <- (SFcompare_eq_r _ _ x E2), E1.
    + now rewrite (SFcompare_trans_lt _ _ _ E1 E2).
Qed.

Lemma ltb_leb (x y : float) : F32.ltb x y = true -> F32.leb x y = true.
Proof.
  unfold F32.ltb, F32.leb, SFltb, SFleb.
  destruct (SFcompare x y) as [[]|]; congruence.
Qed.

Lemma leb_not_gtb (x y : float) : F32.leb x y = true -> F32.gtb x y = false.
Proof.
  unfold F32.gtb, F32.leb, SFltb, SFleb. rewrite (SFcompare_antisym x y).
  destruct (SFcompare x y) as [[]|]; simpl; congruence.
Qed.

Lemma not_gtb_leb (x y : float) :
  F32.is_nan x = false -> F32.is_nan y = false ->
  F32.gtb x y = false -> F32.leb x y = true.
Proof.
  intros Hx Hy. unfold F32.gtb, F32.leb, SFltb, SFleb.
  rewrite (SFcompare_antisym x y).
  destruct (SFcompare_total x y Hx Hy) as [c ->]. destruct c; simpl; congruence.
Qed.

Lemma leb_refl (x : float) : F32.is_nan x = false -> F32.leb x x = true.
Proof.
  intros H. unfold F32.leb, SFleb. now rewrite SFcompare_refl.
Qed.

Lemma leb_is_nan_l (x y : float) : F32.leb x y = true -> F32.is_nan x = false.
Proof. float_cases x; simpl; try reflexivity; discriminate. Qed.

Lemma leb_is_nan_r (x y : float) : F32.leb x y = true -> F32.is_nan y = false.
Proof. float_cases x; float_cases y; simpl; try reflexivity; discriminate. Qed.

Lemma ltb_is_nan_l (x y : float) : F32.ltb x y = true -> F32.is_nan x = false.
Proof. intros H. apply ltb_leb in H. eapply leb_is_nan_l; eauto. Qed.

Lemma ltb_is_nan_r (x y : float) : F32.ltb x y = true -> F32.is_nan y = false.
Proof. intros H. apply ltb_leb in H. eapply leb_is_nan_r; eauto. Qed.

(** ** Keys of the map: the same key, or one before the other *)

Lemma same_key_compare (k k' : float) :
  F32.is_nan k = false -> F32.is_nan k' = false ->
  same_key k k' = true <-> SFcompare k k' = Some Eq.
Proof.
  intros Hk Hk'. unfold same_key, F32.ltb, SFltb.
  rewrite (SFcompare_antisym k k').
  destruct (SFcompare_total k k' Hk Hk') as [c ->].
  destruct c; simpl; split; congruence.
Qed.

Lemma same_key_refl (k : float) : same_key k k = true.
Proof. unfold same_key. now rewrite ltb_irrefl. Qed.

Lemma same_key_sym (k k' : float) : same_key k k' = same_key k' k.
Proof. unfold same_key. apply andb_comm. Qed.

Lemma same_key_ltb_l (k k' x : float) :
  F32.is_nan k = false -> F32.is_nan k' = false ->
  same_key k k' = true -> F32.ltb k x = F32.ltb k' x.
Proof.
  intros Hk Hk' H. apply same_key_compare in H; auto.
  unfold F32.ltb, SFltb. now rewrite (SFcompare_eq_l _ _ x H).
Qed.

Lemma same_key_ltb_r (k k' x : float) :
  F32.is_nan k = false -> F32.is_nan k' = false ->
  same_key k k' = true -> F32.ltb x k = F32.ltb x k'.
Proof.
  intros Hk Hk' H. apply same_key_compare in H; auto.
  unfold F32.ltb, SFltb. now rewrite (SFcompare_eq_r _ _ x H).
Qed.

Lemma same_key_trans (k k' x : float) :
  F32.is_nan k = false -> F32.is_nan k' = false ->
  same_key k k' = true -> same_key k x = same_key k' x.
Proof.
  intros Hk Hk' H. unfold same_key.
  now rewrite (same_key_ltb_l _ _ x Hk Hk' H), (same_key_ltb_r _ _ x Hk Hk' H).
Qed.

Lemma ltb_not_same_key (k k' : float) :
  F32.ltb k k' = true -> same_key k k' = false.
Proof. intros H. unfold same_key. now rewrite H. Qed.

Lemma ltb_not_same_key' (k k' : float) :
  F32.ltb k k' = true -> same_key k' k = false.
Proof. intros H. rewrite same_key_sym. now apply ltb_not_same_key. Qed.

(* ================================================================== *)
(** * The loops of [nms] and the steps of the specification *)

Lemma erase_middle (pre : list Detection) (x : Detection) (r : list Detection) :
  erase (length pre) (pre ++ x :: r) = pre ++ r.
Proof.
  unfold erase. induction pre as [|a pre IH]; simpl.
  - reflexivity.
  - f_equal. exact IH.
Qed.

Lemma snoc_length (pre : list Detection) (x : Detection) :
  S (length pre) = length (pre ++ [x]).
Proof. rewrite length_app. simpl. lia. Qed.

Lemma middle_snoc (pre : list Detection) (x : Detection) (r : list Detection) :
  pre ++ x :: r = (pre ++ [x]) ++ r.
Proof. now rewrite <- app_assoc. Qed.

(** The innermost loop removes, from index [n] on, what [item] suppresses;
    as many rounds of fuel as there are elements left are enough. *)
Lemma nms_inner_spec (fuel : nat) (item : Detection) (t : float) :
  forall pre rest, length rest <= fuel ->
    nms_inner fuel item t (length pre) (pre ++ rest)
    = pre ++ filter (fun d => negb (suppressed_by t item d)) rest.
Proof.
  induction fuel as [|fuel IH]; intros pre rest Hf.
  - destruct rest; simpl in *; [reflexivity | lia].
  - destruct rest as [|x r]; simpl nms_inner.
    + rewrite app_nil_r, Nat.ltb_irrefl. simpl. now rewrite app_nil_r.
    + replace (length pre <? length (pre ++ x :: r)) with true
        by (symmetry; apply Nat.ltb_lt; rewrite length_app; simpl; lia).
      rewrite nth_middle. simpl filter. unfold suppressed_by at 1.
      simpl in Hf.
      destruct (F32.gtb (iou (bbox item) (bbox x)) t); simpl negb; cbv iota.
      * rewrite erase_middle. apply IH. lia.
      * rewrite (snoc_length pre x), (middle_snoc pre x r), IH by lia.
        now rewrite <- app_assoc.
Qed.

Lemma filter_length_le {A : Type} (f : A -> bool) (l : list A) :
  length (filter f l) <= length l.
Proof.
  induction l as [|a l IH]; simpl; [lia|]. destruct (f a); simpl; lia.
Qed.

Lemma greedy_fuel_irrelevant (t : float) :
  forall f1 f2 l, length l <= f1 -> length l <= f2 ->
    greedy_fuel f1 t l = greedy_fuel f2 t l.
Proof.
  induction f1 as [|f1 IH]; intros f2 l H1 H2.
  - destruct l; simpl in *; [now destruct f2 | lia].
  - destruct l as [|x r]; [now destruct f2|].
    destruct f2 as [|f2]; simpl in *; [lia|].
    f_equal. apply IH.
    + etransitivity; [apply filter_length_le | lia].
    + etransitivity; [apply filter_length_le | lia].
Qed.

Lemma greedy_nil (t : float) : greedy t [] = [].
Proof. reflexivity. Qed.

Lemma greedy_cons (t : float) (x : Detection) (r : list Detection) :
  greedy t (x :: r)
  = x :: greedy t (filter (fun d => negb (suppressed_by t x d)) r).
Proof.
  unfold greedy. simpl. f_equal. apply greedy_fuel_irrelevant.
  - apply filter_length_le.
  - apply Nat.le_refl.
Qed.

(** The loop over [m] emits what the greedy walk of the specification emits. *)
Lemma nms_outer_spec (fuel : nat) (t : float) :
  forall pre rest res, length rest <= fuel ->
    nms_outer fuel t (length pre) (pre ++ rest) res = res ++ greedy t rest.
Proof.
  induction fuel as [|fuel IH]; intros pre rest res Hf.
  - destruct rest; simpl in *; [now rewrite app_nil_r | lia].
  - destruct rest as [|x r]; simpl nms_outer.
    + rewrite app_nil_r, Nat.ltb_irrefl. simpl. now rewrite app_nil_r.
    + replace (length pre <? length (pre ++ x :: r)) with true
        by (symmetry; apply Nat.ltb_lt; rewrite length_app; simpl; lia).
      rewrite nth_middle. simpl in Hf.
      rewrite (snoc_length pre x).
      rewrite (middle_snoc pre x r).
      rewrite nms_inner_spec
        by (rewrite length_app; simpl; lia).
      rewrite IH.
      * rewrite greedy_cons, <- app_assoc. reflexivity.
      * etransitivity; [apply filter_length_le | lia].
Qed.

(** [m.count(k) == 0] guards an [emplace] that [m[k]] would do anyway. *)
Lemma map_push_back_emplace (k : float) (x : Detection) (m : det_map) :
  map_push_back k x (if map_count k m =? 0 then map_emplace k [] m else m)
  = map_push_back k x m.
Proof.
  induction m as [|[k' v'] m IH]; simpl.
  - now rewrite ltb_irrefl.
  - destruct (F32.ltb k' k) eqn:E1.
    + destruct (map_count k m =? 0); simpl; rewrite E1; [|reflexivity].
      f_equal. exact IH.
    + destruct (F32.ltb k k') eqn:E2; simpl.
      * now rewrite ltb_irrefl.
      * now rewrite E1, E2.
Qed.

(** The first loop stops by itself once [i] reaches [cap]: fuel beyond
    [cap - i] changes nothing. *)
Lemma nms_collect_fuel (cap : nat) (output : list float) (ct : float)
    (extra : nat) :
  forall fuel i m,
    cap <= i + fuel ->
    nms_collect (fuel + extra) cap i output ct m
    = nms_collect fuel cap i output ct m.
Proof.
  induction fuel as [|fuel IH]; intros i m H.
  - cbn [plus nms_collect]. destruct extra; [reflexivity|].
    cbn [nms_collect]. unfold collect_cond.
    replace (i <? cap) with false by (symmetry; apply Nat.ltb_ge; lia).
    now rewrite andb_false_r.
  - cbn [plus nms_collect].
    destruct (collect_cond cap output i); [|reflexivity].
    match goal with
    | |- context [F32.leb ?a ct] => destruct (F32.leb a ct)
    end; apply IH; lia.
Qed.

Lemma nms_collect_spec (cap : nat) (output : list float) (ct : float) :
  forall fuel i m,
    nms_collect fuel cap i output ct m
    = fold_left push_det
        (filter (above ct)
           (map (read_det output) (seq i (n_visited fuel cap i output)))) m.
Proof.
  induction fuel as [|fuel IH]; intros i m; cbn [nms_collect n_visited];
    [reflexivity|].
  destruct (collect_cond cap output i); [|reflexivity].
  cbn [seq map filter].
  change (above ct (read_det output i))
    with (negb (F32.leb (buf_get output (1 + det_size * i + 4)) ct)).
  destruct (F32.leb (buf_get output (1 + det_size * i + 4)) ct);
    cbn [negb fold_left].
  - apply IH.
  - rewrite IH. unfold push_det at 3. now rewrite map_push_back_emplace.
Qed.

(** ** Grouping by class id *)

Lemma In_key_insert (k x : float) (ks : list float) :
  In x (key_insert k ks) -> x = k \/ In x ks.
Proof.
  induction ks as [|k' ks IH]; simpl.
  - intros [H|[]]; auto.
  - destruct (F32.ltb k' k).
    + simpl. intros [H|H]; auto. destruct (IH H); auto.
    + destruct (F32.ltb k k'); simpl; intros [H|H]; auto.
Qed.

Lemma key_insert_incl (k x : float) (ks : list float) :
  In x ks -> In x (key_insert k ks).
Proof.
  induction ks as [|k' ks IH]; simpl; [tauto|].
  destruct (F32.ltb k' k); [|destruct (F32.ltb k k')]; simpl; tauto.
Qed.

Lemma key_insert_cover (k : float) (ks : list float) :
  exists k', In k' (key_insert k ks) /\ same_key k' k = true.
Proof.
  induction ks as [|k0 ks IH]; simpl.
  - exists k. split; [now left | apply same_key_refl].
  - destruct (F32.ltb k0 k) eqn:E1.
    + destruct IH as (k' & Hin & Hs). exists k'. split; [now right | exact Hs].
    + destruct (F32.ltb k k0) eqn:E2.
      * exists k. split; [now left | apply same_key_refl].
      * exists k0. split; [now left|]. unfold same_key. now rewrite E1, E2.
Qed.

Lemma key_insert_no_nan (k : float) (ks : list float) :
  F32.is_nan k = false -> no_nan ks -> no_nan (key_insert k ks).
Proof.
  intros Hk H. apply Forall_forall. intros x Hx.
  destruct (In_key_insert _ _ _ Hx) as [->|Hin]; [exact Hk|].
  now apply (proj1 (Forall_forall _ _) H).
Qed.

Lemma key_insert_ascending (k : float) (ks : list float) :
  ascending ks -> ascending (key_insert k ks).
Proof.
  unfold ascending. induction ks as [|k' ks IH]; simpl; intros H.
  - repeat constructor.
  - inversion H as [|? ? Hs Hf]; subst.
    destruct (F32.ltb k' k) eqn:E1.
    + constructor; [now apply IH|].
      apply Forall_forall. intros x Hx.
      destruct (In_key_insert _ _ _ Hx) as [->|Hin]; [exact E1|].
      now apply (proj1 (Forall_forall _ _) Hf).
    + destruct (F32.ltb k k') eqn:E2; [|exact H].
      constructor; [exact H|]. constructor; [exact E2|].
      apply Forall_forall. intros x Hx.
      apply ltb_trans with k'; [exact E2|].
      now apply (proj1 (Forall_forall _ _) Hf).
Qed.

Lemma class_keys_snoc (l : list Detection) (x : Detection) :
  class_keys (l ++ [x]) = key_insert (class_id x) (class_keys l).
Proof. unfold class_keys. now rewrite fold_left_app. Qed.

Lemma group_all_snoc (l : list Detection) (x : Detection) :
  group_all (l ++ [x]) = push_det (group_all l) x.
Proof. unfold group_all. now rewrite fold_left_app. Qed.

Lemma class_keys_ascending (l : list Detection) : ascending (class_keys l).
Proof.
  induction l as [|x l IH] using rev_ind.
  - constructor.
  - rewrite class_keys_snoc. now apply key_insert_ascending.
Qed.

Lemma class_keys_no_nan (l : list Detection) :
  Forall (fun x => F32.is_nan (class_id x) = false) l -> no_nan (class_keys l).
Proof.
  induction l as [|x l IH] using rev_ind; intros H.
  - constructor.
  - rewrite class_keys_snoc. apply Forall_app in H. destruct H as [Hl Hx].
    inversion Hx; subst. apply key_insert_no_nan; auto.
Qed.

(** Every key is the class id of an element, and every element with a
    proper class id has its key. *)
Lemma class_keys_sound (l : list Detection) (k : float) :
  In k (class_keys l) -> exists x, In x l /\ class_id x = k.
Proof.
  induction l as [|x l IH] using rev_ind; [intros []|].
  rewrite class_keys_snoc. intros H.
  destruct (In_key_insert _ _ _ H) as [->|Hin].
  - exists x. split; [apply in_or_app; right; now left | reflexivity].
  - destruct (IH Hin) as (y & Hy & <-). exists y.
    split; [apply in_or_app; now left | reflexivity].
Qed.

Lemma class_keys_complete (l : list Detection) (x : Detection) :
  In x l -> exists k, In k (class_keys l) /\ in_class k x = true.
Proof.
  induction l as [|y l IH] using rev_ind; [intros []|].
  rewrite class_keys_snoc. intros H. apply in_app_or in H.
  destruct H as [H|[->|[]]].
  - destruct (IH H) as (k & Hk & Hs). exists k.
    split; [now apply key_insert_incl | exact Hs].
  - apply key_insert_cover.
Qed.

Lemma filter_snoc {A : Type} (f : A -> bool) (l : list A) (x : A) :
  filter f (l ++ [x]) = filter f l ++ (if f x then [x] else []).
Proof. rewrite filter_app. reflexivity. Qed.

Lemma filter_none {A : Type} (f : A -> bool) (l : list A) :
  (forall x, In x l -> f x = false) -> filter f l = [].
Proof.
  induction l as [|a l IH]; simpl; intros H; [reflexivity|].
  rewrite (H a) by now left. apply IH. intros x Hx. apply H. now right.
Qed.

Lemma filter_in_class_snoc (k : float) (l : list Detection) (x : Detection) :
  filter (in_class k) (l ++ [x])
  = filter (in_class k) l ++ (if same_key k (class_id x) then [x] else []).
Proof. rewrite filter_snoc. reflexivity. Qed.

Lemma same_key_join (a b y : float) :
  F32.is_nan a = false -> F32.is_nan y = false ->
  same_key a y = true -> same_key b y = true -> same_key a b = true.
Proof.
  intros Ha Hy H1 H2.
  rewrite (same_key_trans a y b Ha Hy H1). now rewrite same_key_sym.
Qed.

(** Pushing one more detection into the map of the groups of [l] gives the
    map of the groups of [l ++ [x]]. *)
Lemma map_push_back_groups (x : Detection) (l : list Detection) :
  F32.is_nan (class_id x) = false ->
  Forall (fun y => F32.is_nan (class_id y) = false) l ->
  forall ks, ascending ks -> no_nan ks ->
    (forall y, In y l -> in_class (class_id x) y = true ->
               exists k, In k ks /\ in_class k y = true) ->
    map_push_back (class_id x) x
                  (map (fun k => (k, filter (in_class k) l)) ks)
    = map (fun k => (k, filter (in_class k) (l ++ [x])))
          (key_insert (class_id x) ks).
Proof.
  intros Hx Hl. set (c := class_id x) in *.
  assert (Hy : forall y, In y l -> F32.is_nan (class_id y) = false)
    by (apply Forall_forall; exact Hl).
  induction ks as [|k' ks IH]; intros Hasc Hnn Hcov.
  - simpl. f_equal. f_equal. rewrite filter_in_class_snoc. fold c.
    rewrite same_key_refl.
    rewrite filter_none; [reflexivity|].
    intros y Hin. destruct (in_class c y) eqn:E; [|reflexivity].
    destruct (Hcov y Hin E) as (k & [] & _).
  - inversion Hasc as [|? ? Hs Hf]; subst.
    inversion Hnn as [|? ? Hk' Hnn']; subst.
    assert (Hlt : forall k, In k ks -> F32.ltb k' k = true)
      by (apply Forall_forall; exact Hf).
    assert (Hnk : forall k, In k ks -> F32.is_nan k = false)
      by (apply Forall_forall; exact Hnn').
    simpl. destruct (F32.ltb k' c) eqn:E1.
    + simpl. f_equal.
      * f_equal. rewrite filter_in_class_snoc. fold c.
        rewrite (ltb_not_same_key _ _ E1). now rewrite app_nil_r.
      * apply IH; auto. intros y Hin Hc.
        destruct (Hcov y Hin Hc) as (k & [<-|Hk] & Hs'); [|eauto].
        exfalso. unfold in_class in Hc, Hs'.
        pose proof (same_key_join k' c (class_id y) Hk' (Hy y Hin) Hs' Hc) as J.
        rewrite (ltb_not_same_key _ _ E1) in J. discriminate.
    + destruct (F32.ltb c k') eqn:E2.
      * simpl. f_equal.
        { f_equal. rewrite filter_in_class_snoc. fold c.
          rewrite same_key_refl. rewrite filter_none; [reflexivity|].
          intros y Hin. destruct (in_class c y) eqn:E; [|reflexivity].
          exfalso. destruct (Hcov y Hin E) as (k & Hk & Hs').
          unfold in_class in E, Hs'.
          assert (Hck : F32.ltb c k = true).
          { destruct Hk as [<-|Hk]; [exact E2|].
            apply ltb_trans with k'; auto. }
          pose proof (same_key_join c k (class_id y) Hx (Hy y Hin) E Hs') as J.
          rewrite (ltb_not_same_key _ _ Hck) in J. discriminate. }
        { f_equal.
          - f_equal. rewrite filter_in_class_snoc. fold c.
            rewrite (ltb_not_same_key' _ _ E2). now rewrite app_nil_r.
          - apply map_ext_in. intros k Hk. f_equal.
            rewrite filter_in_class_snoc. fold c.
            rewrite (ltb_not_same_key' c k), app_nil_r; [reflexivity|].
            apply ltb_trans with k'; auto. }
      * simpl. f_equal.
        { f_equal. rewrite filter_in_class_snoc. fold c.
          unfold same_key. now rewrite E1, E2. }
        { apply map_ext_in. intros k Hk. f_equal.
          rewrite filter_in_class_snoc. fold c.
          assert (Hs' : same_key k' c = true)
            by (unfold same_key; now rewrite E1, E2).
          rewrite (ltb_not_same_key' c k), app_nil_r; [reflexivity|].
          rewrite <- (same_key_ltb_l k' c k Hk' Hx Hs'). auto. }
Qed.

Lemma group_all_spec (l : list Detection) :
  Forall (fun x => F32.is_nan (class_id x) = false) l ->
  group_all l = map (fun k => (k, filter (in_class k) l)) (class_keys l).
Proof.
  induction l as [|x l IH] using rev_ind; intros H; [reflexivity|].
  apply Forall_app in H. destruct H as [Hl Hx]. inversion Hx; subst.
  rewrite group_all_snoc, class_keys_snoc, IH by exact Hl.
  apply map_push_back_groups; auto.
  - apply class_keys_ascending.
  - now apply class_keys_no_nan.
  - intros y Hy _. now apply class_keys_complete.
Qed.

Lemma flat_map_map {A B C : Type} (f : B -> list C) (g : A -> B) (l : list A) :
  flat_map f (map g l) = flat_map (fun a => f (g a)) l.
Proof.
  induction l as [|a l IH]; simpl; [reflexivity|]. now rewrite IH.
Qed.

(** ** [cmp], and the insertion sort *)

Lemma cmp_asym (x y : Detection) : cmp x y = true -> cmp y x = false.
Proof. unfold cmp, F32.gtb. apply ltb_asym. Qed.

Lemma cmp_trans (x y z : Detection) :
  cmp x y = true -> cmp y z = true -> cmp x z = true.
Proof. unfold cmp, F32.gtb. intros H1 H2. eapply ltb_trans; eauto. Qed.

Lemma cmp_false_trans (x y z : Detection) :
  cmp z y = false -> cmp x y = true -> cmp z x = false.
Proof.
  intros H1 H2. destruct (cmp z x) eqn:E; [|reflexivity].
  now rewrite (cmp_trans _ _ _ E H2) in H1.
Qed.

Lemma insertion_sort_snoc (l : list Detection) (x : Detection) :
  insertion_sort (l ++ [x]) = sort_insert x (insertion_sort l).
Proof. unfold insertion_sort. now rewrite fold_left_app. Qed.

Lemma sort_insert_perm (x : Detection) (l : list Detection) :
  Permutation (sort_insert x l) (x :: l).
Proof.
  induction l as [|y l IH]; simpl; [reflexivity|].
  destruct (cmp x y); [reflexivity|].
  rewrite IH. apply perm_swap.
Qed.

Lemma insertion_sort_perm (l : list Detection) : Permutation (insertion_sort l) l.
Proof.
  induction l as [|x l IH] using rev_ind; [reflexivity|].
  rewrite insertion_sort_snoc, sort_insert_perm, IH.
  apply Permutation_cons_append.
Qed.

Lemma In_sort_insert (x y : Detection) (l : list Detection) :
  In y (sort_insert x l) <-> y = x \/ In y l.
Proof.
  split; intros H.
  - apply (Permutation_in _ (sort_insert_perm x l)) in H.
    destruct H; auto.
  - apply (Permutation_in _ (Permutation_sym (sort_insert_perm x l))).
    destruct H; [left | right]; auto.
Qed.

Lemma sort_insert_descending (x : Detection) (l : list Detection) :
  descending l -> descending (sort_insert x l).
Proof.
  unfold descending. induction l as [|y l IH]; simpl; intros H.
  - repeat constructor.
  - inversion H as [|? ? Hs Hf]; subst.
    destruct (cmp x y) eqn:E.
    + constructor; [exact H|]. constructor; [now apply cmp_asym|].
      apply Forall_forall. intros z Hz.
      apply cmp_false_trans with y; [|exact E].
      now apply (proj1 (Forall_forall _ _) Hf).
    + constructor; [now apply IH|].
      apply Forall_forall. intros z Hz. apply In_sort_insert in Hz.
      destruct Hz as [->|Hz]; [exact E|].
      now apply (proj1 (Forall_forall _ _) Hf).
Qed.

Lemma insertion_sort_descending (l : list Detection) : descending (insertion_sort l).
Proof.
  induction l as [|x l IH] using rev_ind; [constructor|].
  rewrite insertion_sort_snoc. now apply sort_insert_descending.
Qed.

Lemma StronglySorted_filter {A : Type} (R : A -> A -> Prop) (f : A -> bool)
    (l : list A) :
  StronglySorted R l -> StronglySorted R (filter f l).
Proof.
  induction 1 as [|a l Hs IH Hf]; simpl; [constructor|].
  destruct (f a); [|exact IH]. constructor; [exact IH|].
  apply Forall_forall. intros x Hx. apply filter_In in Hx.
  now apply (proj1 (Forall_forall _ _) Hf).
Qed.

(** Below the threshold once, below it from there on. *)
Lemma descending_above (t : float) (y z : Detection) :
  F32.is_nan (conf y) = false -> F32.is_nan (conf z) = false ->
  cmp z y = false -> above t y = false -> above t z = false.
Proof.
  unfold cmp, above. intros Hy Hz Hc Ha.
  apply negb_false_iff in Ha. apply negb_false_iff.
  apply leb_trans with (conf y); [|exact Ha].
  now apply not_gtb_leb.
Qed.

Lemma Forall_perm {A : Type} (P : A -> Prop) (l l' : list A) :
  Permutation l l' -> Forall P l' -> Forall P l.
Proof.
  intros Hp H. apply Forall_forall. intros x Hx.
  apply (proj1 (Forall_forall _ _) H). now apply (Permutation_in _ Hp).
Qed.


(** ** The greedy walk *)

Lemma length_induction {A : Type} (P : list A -> Prop) :
  (forall l, (forall l', length l' < length l -> P l') -> P l) ->
  forall l, P l.
Proof.
  intros H l. remember (length l) as n eqn:E. revert l E.
  induction n as [n IH] using lt_wf_ind. intros l ->.
  apply H. intros l' Hl'. now apply (IH (length l')).
Qed.

Lemma filter_shorter {A : Type} (f : A -> bool) (x : A) (r : list A) :
  length (filter f r) < length (x :: r).
Proof. simpl. pose proof (filter_length_le f r). lia. Qed.

Lemma greedy_In (t : float) (l : list Detection) (x : Detection) :
  In x (greedy t l) -> In x l.
Proof.
  revert x. induction l as [[|y r] IH] using length_induction; intros x.
  - intros [].
  - rewrite greedy_cons. intros [<-|H]; [now left|]. right.
    apply IH in H; [|apply filter_shorter].
    now apply filter_In in H.
Qed.

Lemma greedy_sorted (R : Detection -> Detection -> Prop) (t : float)
    (l : list Detection) :
  StronglySorted R l -> StronglySorted R (greedy t l).
Proof.
  induction l as [[|y r] IH] using length_induction; intros H.
  - constructor.
  - rewrite greedy_cons. inversion H as [|? ? Hs Hf]; subst.
    constructor.
    + apply IH; [apply filter_shorter | now apply StronglySorted_filter].
    + apply Forall_forall. intros x Hx. apply greedy_In in Hx.
      apply filter_In in Hx. now apply (proj1 (Forall_forall _ _) Hf).
Qed.

Lemma filter_all {A : Type} (f : A -> bool) (l : list A) :
  (forall x, In x l -> f x = true) -> filter f l = l.
Proof.
  induction l as [|a l IH]; simpl; intros H; [reflexivity|].
  rewrite (H a) by now left. f_equal. apply IH. intros x Hx. apply H. now right.
Qed.


Lemma filter_comm {A : Type} (f g : A -> bool) (l : list A) :
  filter f (filter g l) = filter g (filter f l).
Proof.
  induction l as [|a l IH]; simpl; [reflexivity|].
  destruct (f a) eqn:Ef, (g a) eqn:Eg; simpl; rewrite ?Ef, ?Eg, IH; reflexivity.
Qed.

(** When [p] fails from some element on, the walk of the elements that
    satisfy [p] emits the elements satisfying [p] that the whole walk emits. *)
Lemma greedy_filter (t : float) (p : Detection -> bool) (l : list Detection) :
  StronglySorted (fun y z => p y = false -> p z = false) l ->
  greedy t (filter p l) = filter p (greedy t l).
Proof.
  induction l as [[|y r] IH] using length_induction; intros H.
  - reflexivity.
  - inversion H as [|? ? Hs Hf]; subst.
    rewrite greedy_cons. simpl. destruct (p y) eqn:Ey.
    + rewrite greedy_cons. f_equal. rewrite filter_comm.
      apply IH; [apply filter_shorter | now apply StronglySorted_filter].
    + assert (Hr : forall z, In z r -> p z = false).
      { intros z Hz. now apply (proj1 (Forall_forall _ _) Hf). }
      rewrite (filter_none p r Hr). rewrite filter_none; [reflexivity|].
      intros z Hz. apply greedy_In in Hz. apply filter_In in Hz.
      apply Hr. tauto.
Qed.

Lemma descending_prefix_closed (t : float) (l : list Detection) :
  Forall (fun y => F32.is_nan (conf y) = false) l ->
  descending l ->
  StronglySorted (fun y z => above t y = false -> above t z = false) l.
Proof.
  unfold descending. intros Hn Hd. induction Hd as [|a l Hs IH Hf].
  - constructor.
  - inversion Hn as [|? ? Ha Hn']; subst. constructor; [now apply IH|].
    apply Forall_forall. intros z Hz.
    apply descending_above; auto.
    + now apply (proj1 (Forall_forall _ _) Hn').
    + now apply (proj1 (Forall_forall _ _) Hf).
Qed.

(** ** The keys of the groups do not matter, only the classes present *)

Lemma in_class_same_key (k k' : float) (x : Detection) :
  F32.is_nan k = false -> F32.is_nan (class_id x) = false ->
  in_class k x = true -> in_class k' x = true -> same_key k k' = true.
Proof. unfold in_class. apply same_key_join. Qed.

Lemma groups_keys_irrelevant {B : Type} (F : list Detection -> list B)
    (l : list Detection) :
  F [] = [] ->
  Forall (fun x => F32.is_nan (class_id x) = false) l ->
  forall n ks1 ks2, length ks1 + length ks2 <= n ->
    ascending ks1 -> no_nan ks1 -> ascending ks2 -> no_nan ks2 ->
    (forall x, In x l -> (covers ks1 x <-> covers ks2 x)) ->
    flat_map (fun k => F (filter (in_class k) l)) ks1
    = flat_map (fun k => F (filter (in_class k) l)) ks2.
Proof.
  intros HF Hl.
  assert (Hnl : forall x, In x l -> F32.is_nan (class_id x) = false)
    by (apply Forall_forall; exact Hl).
  induction n as [|n IH]; intros ks1 ks2 Hlen A1 N1 A2 N2 Hcov.
  - destruct ks1, ks2; simpl in Hlen; try lia. reflexivity.
  - (* an empty group at the head of either list is dropped *)
    destruct ks1 as [|k1 ks1].
    + destruct ks2 as [|k2 ks2]; [reflexivity|].
      simpl. rewrite filter_none, HF.
      * inversion A2; inversion N2; subst.
        apply (IH [] ks2); auto; [simpl in *; lia|].
        intros x Hx. split; intros (k & Hk & Hs); [destruct Hk|].
        apply (Hcov x Hx). exists k. split; [now right | exact Hs].
      * intros x Hx. destruct (in_class k2 x) eqn:E; [|reflexivity].
        assert (C : covers [] x).
        { apply (Hcov x Hx). exists k2. split; [now left | exact E]. }
        destruct C as (k & [] & _).
    + destruct (filter (in_class k1) l) as [|e1 r1] eqn:E1.
      { simpl. rewrite E1, HF. simpl.
        inversion A1; inversion N1; subst.
        apply (IH ks1 ks2); auto; [simpl in *; lia|].
        intros x Hx. rewrite <- (Hcov x Hx). split.
        - intros (k & Hk & Hs). exists k. split; [now right | exact Hs].
        - intros (k & [<-|Hk] & Hs); [|exists k; tauto].
          exfalso. assert (In x (filter (in_class k1) l))
            by (apply filter_In; tauto).
          rewrite E1 in H. destruct H. }
      destruct ks2 as [|k2 ks2].
      { exfalso. assert (He : In e1 (filter (in_class k1) l))
          by (rewrite E1; now left).
        apply filter_In in He. destruct He as [He Hs].
        assert (C : covers [] e1).
        { apply (Hcov e1 He). exists k1. split; [now left | exact Hs]. }
        destruct C as (k & [] & _). }
      destruct (filter (in_class k2) l) as [|e2 r2] eqn:E2.
      { simpl. rewrite E2, HF. simpl.
        inversion A2; inversion N2; subst.
        apply (IH (k1 :: ks1) ks2); auto; [simpl in *; lia|].
        intros x Hx. rewrite (Hcov x Hx). split.
        - intros (k & [<-|Hk] & Hs); [|exists k; tauto].
          exfalso. assert (In x (filter (in_class k2) l))
            by (apply filter_In; tauto).
          rewrite E2 in H. destruct H.
        - intros (k & Hk & Hs). exists k. split; [now right | exact Hs]. }
      (* both heads have an element: they are the same key *)
      assert (He1 : In e1 l /\ in_class k1 e1 = true).
      { apply filter_In. rewrite E1. now left. }
      assert (He2 : In e2 l /\ in_class k2 e2 = true).
      { apply filter_In. rewrite E2. now left. }
      destruct He1 as [He1 Hs1]. destruct He2 as [He2 Hs2].
      inversion A1 as [|? ? A1' F1]; inversion N1 as [|? ? Hk1 N1']; subst.
      inversion A2 as [|? ? A2' F2]; inversion N2 as [|? ? Hk2 N2']; subst.
      assert (L1 : forall k, In k ks1 -> F32.ltb k1 k = true)
        by (apply Forall_forall; exact F1).
      assert (L2 : forall k, In k ks2 -> F32.ltb k2 k = true)
        by (apply Forall_forall; exact F2).
      assert (M1 : forall k, In k ks1 -> F32.is_nan k = false)
        by (apply Forall_forall; exact N1').
      assert (M2 : forall k, In k ks2 -> F32.is_nan k = false)
        by (apply Forall_forall; exact N2').
      assert (Hsame : same_key k1 k2 = true).
      { unfold same_key.
        destruct (F32.ltb k1 k2) eqn:Ea; [exfalso|].
        - assert (C : covers (k2 :: ks2) e1).
          { apply (Hcov e1 He1). exists k1. split; [now left | exact Hs1]. }
          destruct C as (k & Hk & Hs).
          assert (Hlt : F32.ltb k1 k = true).
          { destruct Hk as [<-|Hk]; [exact Ea|].
            apply ltb_trans with k2; auto. }
          pose proof (in_class_same_key k1 k e1 Hk1 (Hnl e1 He1) Hs1 Hs) as J.
          rewrite (ltb_not_same_key _ _ Hlt) in J. discriminate.
        - destruct (F32.ltb k2 k1) eqn:Eb; [exfalso|reflexivity].
          assert (C : covers (k1 :: ks1) e2).
          { apply (Hcov e2 He2). exists k2. split; [now left | exact Hs2]. }
          destruct C as (k & Hk & Hs).
          assert (Hlt : F32.ltb k2 k = true).
          { destruct Hk as [<-|Hk]; [exact Eb|].
            apply ltb_trans with k1; auto. }
          pose proof (in_class_same_key k2 k e2 Hk2 (Hnl e2 He2) Hs2 Hs) as J.
          rewrite (ltb_not_same_key _ _ Hlt) in J. discriminate. }
      simpl. f_equal.
      * f_equal. apply filter_ext. intros x. unfold in_class.
        apply same_key_trans; auto.
      * apply (IH ks1 ks2); auto; [simpl in *; lia|].
        intros x Hx. split; intros (k & Hk & Hs).
        -- assert (C : covers (k2 :: ks2) x).
           { apply (Hcov x Hx). exists k. split; [now right | exact Hs]. }
           destruct C as (k' & [<-|Hk'] & Hs'); [exfalso|exists k'; tauto].
           pose proof (in_class_same_key k2 k x Hk2 (Hnl x Hx) Hs' Hs) as J.
           rewrite <- (same_key_trans k1 k2 k Hk1 Hk2 Hsame) in J.
           rewrite (ltb_not_same_key _ _ (L1 k Hk)) in J. discriminate.
        -- assert (C : covers (k1 :: ks1) x).
           { apply (Hcov x Hx). exists k. split; [now right | exact Hs]. }
           destruct C as (k' & [<-|Hk'] & Hs'); [exfalso|exists k'; tauto].
           pose proof (in_class_same_key k1 k x Hk1 (Hnl x Hx) Hs' Hs) as J.
           rewrite (same_key_trans k1 k2 k Hk1 Hk2 Hsame) in J.
           rewrite (ltb_not_same_key _ _ (L2 k Hk)) in J. discriminate.
Qed.

(** ** Raising the confidence threshold *)

Lemma above_mono (t1 t2 : float) (x : Detection) :
  F32.leb t1 t2 = true -> above t2 x = true -> above t1 x = true.
Proof.
  unfold above. intros Ht H. apply negb_true_iff in H. apply negb_true_iff.
  destruct (F32.leb (conf x) t1) eqn:E; [|reflexivity].
  now rewrite (leb_trans _ _ _ E Ht) in H.
Qed.

Lemma filter_filter_impl {A : Type} (f g : A -> bool) (l : list A) :
  (forall x, f x = true -> g x = true) ->
  filter f (filter g l) = filter f l.
Proof.
  intros H. induction l as [|a l IH]; simpl; [reflexivity|].
  destruct (g a) eqn:Eg; simpl.
  - now rewrite IH.
  - destruct (f a) eqn:Ef; [|exact IH]. now rewrite (H a Ef) in Eg.
Qed.

Lemma filter_flat_map {A B : Type} (p : B -> bool) (f : A -> list B)
    (l : list A) :
  filter p (flat_map f l) = flat_map (fun a => filter p (f a)) l.
Proof.
  induction l as [|a l IH]; simpl; [reflexivity|].
  now rewrite filter_app, IH.
Qed.

Lemma flat_map_ext_in {A B : Type} (f g : A -> list B) (l : list A) :
  (forall a, In a l -> f a = g a) -> flat_map f l = flat_map g l.
Proof.
  induction l as [|a l IH]; simpl; intros H; [reflexivity|].
  rewrite (H a) by now left. f_equal. apply IH. intros b Hb. apply H. now right.
Qed.

Lemma Forall_filter {A : Type} (P : A -> Prop) (f : A -> bool) (l : list A) :
  Forall P l -> Forall P (filter f l).
Proof.
  intros H. apply Forall_forall. intros x Hx. apply filter_In in Hx.
  now apply (proj1 (Forall_forall _ _) H).
Qed.

Lemma ordered_input_class (l : list Detection) :
  ordered_input l -> Forall (fun x => F32.is_nan (class_id x) = false) l.
Proof. apply Forall_impl. tauto. Qed.

Lemma ordered_input_conf (l : list Detection) :
  ordered_input l -> Forall (fun x => F32.is_nan (conf x) = false) l.
Proof. apply Forall_impl. tauto. Qed.

Lemma covers_class_keys (l : list Detection) (x : Detection) :
  In x l -> covers (class_keys l) x.
Proof. apply class_keys_complete. Qed.

(** ** Running [nms] on its own output *)

Lemma nth_flat_encode (l : list Detection) :
  forall i j, j < 6 ->
    nth (6 * i + j) (flat_map encode_det l) F32.zero
    = nth j (encode_det (nth i l det0)) F32.zero.
Proof.
  induction l as [|x l IH]; intros i j Hj.
  - replace (nth (6 * i + j) (flat_map encode_det []) F32.zero) with F32.zero
      by (cbn [flat_map]; now destruct (6 * i + j)).
    replace (nth i [] det0) with det0 by now destruct i.
    do 6 (destruct j as [|j]; [reflexivity|]). lia.
  - destruct i as [|i].
    + simpl. do 6 (destruct j as [|j]; [reflexivity|]). lia.
    + replace (6 * S i + j) with (6 + (6 * i + j)) by lia.
      cbn [flat_map nth encode_det app plus]. apply IH. exact Hj.
Qed.
(** ** The buffer [nms] reads, and sizes *)

Lemma count_table_checked : count_table_ok = true.
Proof. vm_compute. reflexivity. Qed.

Lemma of_nat_step (i : nat) :
  i < MAX_OUTPUT_BBOX_COUNT ->
  F32.ltb (F32.of_Z (Z.of_nat i)) (F32.of_Z (Z.of_nat (S i))) = true.
Proof.
  intros Hi. pose proof count_table_checked as H.
  unfold count_table_ok in H. rewrite forallb_forall in H.
  apply H. apply in_seq. lia.
Qed.

Lemma of_nat_lt (i n : nat) :
  i < n -> n <= MAX_OUTPUT_BBOX_COUNT ->
  F32.ltb (F32.of_Z (Z.of_nat i)) (F32.of_Z (Z.of_nat n)) = true.
Proof.
  induction n as [|n IH]; intros Hi Hn; [lia|].
  destruct (Nat.eq_dec i n) as [->|Hne].
  - apply of_nat_step. lia.
  - apply ltb_trans with (F32.of_Z (Z.of_nat n)).
    + apply IH; lia.
    + apply of_nat_step. lia.
Qed.

Lemma of_nat_ltb (i n : nat) :
  i <= MAX_OUTPUT_BBOX_COUNT -> n <= MAX_OUTPUT_BBOX_COUNT ->
  F32.ltb (F32.of_Z (Z.of_nat i)) (F32.of_Z (Z.of_nat n)) = (i <? n).
Proof.
  intros Hi Hn. destruct (i <? n) eqn:E.
  - apply Nat.ltb_lt in E. now apply of_nat_lt.
  - apply Nat.ltb_ge in E. destruct (Nat.eq_dec n i) as [->|Hne].
    + apply ltb_irrefl.
    + apply ltb_asym. apply of_nat_lt; lia.
Qed.

Lemma collect_cond_encode (R : list Detection) (i : nat) :
  length R <= MAX_OUTPUT_BBOX_COUNT -> i <= MAX_OUTPUT_BBOX_COUNT ->
  collect_cond MAX_OUTPUT_BBOX_COUNT (encode R) i = (i <? length R).
Proof.
  intros HR Hi. unfold collect_cond, encode, buf_get. cbn [nth].
  rewrite of_nat_ltb by assumption.
  destruct (i <? length R) eqn:E; [|reflexivity].
  apply Nat.ltb_lt in E. simpl. apply Nat.ltb_lt. lia.
Qed.

Lemma n_visited_encode (R : list Detection) :
  length R <= MAX_OUTPUT_BBOX_COUNT ->
  forall fuel i, i <= length R -> length R <= i + fuel ->
    n_visited fuel MAX_OUTPUT_BBOX_COUNT i (encode R) = length R - i.
Proof.
  intros HR. induction fuel as [|fuel IH]; intros i Hi Hf;
    cbn [n_visited]; [lia|].
  rewrite collect_cond_encode by lia.
  destruct (i <? length R) eqn:E.
  - apply Nat.ltb_lt in E. rewrite IH by lia. lia.
  - apply Nat.ltb_ge in E. lia.
Qed.

Lemma buf_get_encode (R : list Detection) (i j : nat) :
  j < 6 ->
  buf_get (encode R) (1 + det_size * i + j)
  = nth j (encode_det (nth i R det0)) F32.zero.
Proof.
  intros Hj. unfold buf_get, encode.
  replace (1 + det_size * i + j) with (S (6 * i + j))
    by (unfold det_size; lia).
  cbn [nth]. now apply nth_flat_encode.
Qed.

Lemma read_det_encode (R : list Detection) (i : nat) :
  read_det (encode R) i = nth i R det0.
Proof.
  unfold read_det. cbv zeta.
  replace (buf_get (encode R) (1 + det_size * i))
    with (buf_get (encode R) (1 + det_size * i + 0))
    by (f_equal; lia).
  rewrite !buf_get_encode by lia.
  destruct (nth i R det0) as [[x0 x1 x2 x3] c k]. reflexivity.
Qed.

Lemma map_nth_seq (d0 : Detection) (l : list Detection) :
  forall pre,
    map (fun i => nth i (pre ++ l) d0) (seq (length pre) (length l)) = l.
Proof.
  induction l as [|x l IH]; intros pre; [reflexivity|].
  cbn [length seq map]. rewrite nth_middle. f_equal.
  rewrite (snoc_length pre x), (middle_snoc pre x l). apply IH.
Qed.

Lemma candidates_encode (R : list Detection) :
  length R <= MAX_OUTPUT_BBOX_COUNT ->
  candidates MAX_OUTPUT_BBOX_COUNT (encode R) = R.
Proof.
  intros HR. unfold candidates.
  rewrite (n_visited_encode R HR) by lia.
  rewrite Nat.sub_0_r.
  rewrite (map_ext _ (fun i => nth i R det0)) by apply read_det_encode.
  apply (map_nth_seq det0 R []).
Qed.

Lemma n_visited_le (cap : nat) (output : list float) :
  forall fuel i, n_visited fuel cap i output <= fuel.
Proof.
  induction fuel as [|fuel IH]; intros i; cbn [n_visited]; [lia|].
  destruct (collect_cond cap output i); [|lia]. specialize (IH (S i)). lia.
Qed.

Lemma candidates_length (cap : nat) (output : list float) :
  length (candidates cap output) <= cap.
Proof.
  unfold candidates. rewrite length_map, length_seq. apply n_visited_le.
Qed.

Lemma greedy_length (t : float) (l : list Detection) :
  length (greedy t l) <= length l.
Proof.
  induction l as [[|y r] IH] using length_induction; [simpl; lia|].
  rewrite greedy_cons. simpl.
  specialize (IH _ (filter_shorter
                      (fun x => negb (suppressed_by t y x)) y r)).
  pose proof (filter_length_le (fun x => negb (suppressed_by t y x)) r). lia.
Qed.

Lemma map_push_back_size (k : float) (x : Detection) (m : det_map) :
  length (concat (map snd (map_push_back k x m)))
  = S (length (concat (map snd m))).
Proof.
  induction m as [|[k' v'] m IH]; simpl; [reflexivity|].
  destruct (F32.ltb k' k); [|destruct (F32.ltb k k')]; simpl;
    rewrite ?length_app, ?IH; simpl; lia.
Qed.

Lemma group_all_size (l : list Detection) :
  length (concat (map snd (group_all l))) = length l.
Proof.
  induction l as [|x l IH] using rev_ind; [reflexivity|].
  rewrite group_all_snoc. unfold push_det.
  rewrite map_push_back_size, IH, length_app. simpl. lia.
Qed.

Lemma flat_map_length_le {A B : Type} (f : list A -> list B)
    (gs : list (list A)) :
  (forall g, length (f g) <= length g) ->
  length (flat_map f gs) <= length (concat gs).
Proof.
  intros H. induction gs as [|g gs IH]; simpl; [lia|].
  rewrite !length_app. specialize (H g). lia.
Qed.

Lemma survivors_length (cap : nat) (output : list float) (ct : float) :
  length (survivors cap output ct) <= cap.
Proof.
  unfold survivors.
  etransitivity; [apply filter_length_le | apply candidates_length].
Qed.

(** The block of class [k] is what the class filter finds in the
    concatenation of the blocks. *)
Lemma filter_block (H : float -> list Detection) :
  forall ks, ascending ks -> no_nan ks ->
    (forall k x, In k ks -> In x (H k) ->
                 in_class k x = true /\ F32.is_nan (class_id x) = false) ->
    forall k, In k ks -> filter (in_class k) (flat_map H ks) = H k.
Proof.
  induction ks as [|k0 ks IH]; intros Ha Hn Hb k Hk; [destruct Hk|].
  inversion Ha as [|? ? Ha' Hf]; inversion Hn as [|? ? Hk0 Hn']; subst.
  assert (L : forall k', In k' ks -> F32.ltb k0 k' = true)
    by (apply Forall_forall; exact Hf).
  assert (M : forall k', In k' ks -> F32.is_nan k' = false)
    by (apply Forall_forall; exact Hn').
  simpl. rewrite filter_app. destruct Hk as [<-|Hk].
  - rewrite filter_all, filter_none; [now rewrite app_nil_r| |].
    + intros x Hx. apply in_flat_map in Hx. destruct Hx as (k' & Hk' & Hx).
      destruct (Hb k' x (or_intror Hk') Hx) as [Hc Hnx].
      destruct (in_class k0 x) eqn:E; [|reflexivity].
      pose proof (in_class_same_key k0 k' x Hk0 Hnx E Hc) as J.
      rewrite (ltb_not_same_key _ _ (L k' Hk')) in J. discriminate.
    + intros x Hx. now apply (Hb k0 x (or_introl eq_refl)).
  - rewrite filter_none, IH; auto.
    + intros k' x Hk' Hx. apply Hb; [now right | exact Hx].
    + intros x Hx. destruct (Hb k0 x (or_introl eq_refl) Hx) as [Hc Hnx].
      destruct (in_class k x) eqn:E; [|reflexivity].
      pose proof (in_class_same_key k0 k x Hk0 Hnx Hc E) as J.
      rewrite (ltb_not_same_key _ _ (L k Hk)) in J. discriminate.
Qed.

Lemma above_survivors (cap : nat) (output : list float) (ct : float)
    (x : Detection) :
  In x (survivors cap output ct) -> above ct x = true.
Proof. unfold survivors. intros H. now apply filter_In in H. Qed.

Lemma survivors_In (cap : nat) (output : list float) (ct : float)
    (x : Detection) :
  In x (survivors cap output ct) -> In x (candidates cap output).
Proof. unfold survivors. intros H. now apply filter_In in H. Qed.

Lemma encode_length (R : list Detection) :
  length (encode R) = 1 + det_size * length R.
Proof.
  unfold encode, det_size. cbn [length]. f_equal.
  induction R as [|x R IH]; [reflexivity|].
  cbn [flat_map encode_det app length]. rewrite IH. lia.
Qed.

Lemma n_visited_no_count (cap : nat) (output : list float) :
  F32.ltb F32.zero (buf_get output 0) = false ->
  n_visited cap cap 0 output = 0.
Proof.
  intros H. destruct cap as [|cap]; [reflexivity|].
  cbn [n_visited]. unfold collect_cond.
  change (F32.of_Z (Z.of_nat 0)) with F32.zero. rewrite H. reflexivity.
Qed.
(** ** Rearrangements, sorted lists and the greedy walk *)

Lemma map_push_back_In (k : float) (x y : Detection) (m : det_map) :
  In y (concat (map snd (map_push_back k x m))) ->
  y = x \/ In y (concat (map snd m)).
Proof.
  induction m as [|[k' v'] m IH]; cbn [map_push_back].
  - simpl. intros [<-|[]]. now left.
  - destruct (F32.ltb k' k); [|destruct (F32.ltb k k')];
      cbn [map snd concat]; rewrite ?in_app_iff.
    + intros [H|H]; auto. destruct (IH H); auto.
    + simpl. intros [[<-|[]]|[H|H]]; auto.
    + simpl. intros [[H|[<-|[]]]|H]; auto.
Qed.

Lemma group_all_In (l : list Detection) (y : Detection) :
  In y (concat (map snd (group_all l))) -> In y l.
Proof.
  induction l as [|x l IH] using rev_ind; [intros []|].
  rewrite group_all_snoc. unfold push_det. intros H.
  apply map_push_back_In in H. apply in_or_app.
  destruct H as [->|H]; [right; now left | left; auto].
Qed.

Lemma filter_split_perm {A : Type} (f : A -> bool) (l : list A) :
  Permutation (filter f l ++ filter (fun x => negb (f x)) l) l.
Proof.
  induction l as [|a l IH]; simpl; [constructor|].
  destruct (f a); simpl.
  - constructor. exact IH.
  - apply Permutation_sym, Permutation_cons_app, Permutation_sym, IH.
Qed.

Lemma greedy_sub (t : float) :
  forall l, exists dropped, Permutation (greedy t l ++ dropped) l.
Proof.
  apply (length_induction (fun l => exists dropped,
                             Permutation (greedy t l ++ dropped) l)).
  intros [|x r] IH.
  - exists []. rewrite greedy_nil. constructor.
  - rewrite greedy_cons.
    destruct (IH (filter (fun d => negb (suppressed_by t x d)) r)
                 (filter_shorter _ x r)) as [dr Hd].
    exists (dr ++ filter (fun d => negb (negb (suppressed_by t x d))) r).
    simpl. constructor. rewrite app_assoc.
    eapply perm_trans; [apply Permutation_app_tail, Hd|].
    apply (filter_split_perm (fun d => negb (suppressed_by t x d))).
Qed.

Lemma map_push_back_perm (k : float) (x : Detection) (m : det_map) :
  Permutation (concat (map snd (map_push_back k x m)))
              (x :: concat (map snd m)).
Proof.
  induction m as [|[k' v'] m IH]; simpl.
  - constructor. constructor.
  - destruct (F32.ltb k' k); simpl.
    + eapply perm_trans; [apply Permutation_app_head, IH|].
      apply Permutation_sym, Permutation_middle.
    + destruct (F32.ltb k k'); simpl.
      * apply Permutation_refl.
      * rewrite <- app_assoc. simpl.
        apply Permutation_sym, Permutation_middle.
Qed.

Lemma fold_push_det_perm (l : list Detection) :
  forall m, Permutation (concat (map snd (fold_left push_det l m)))
                        (concat (map snd m) ++ l).
Proof.
  induction l as [|a l IH]; intros m; simpl.
  - rewrite app_nil_r. apply Permutation_refl.
  - eapply perm_trans; [apply IH|].
    eapply perm_trans;
      [apply Permutation_app_tail, map_push_back_perm|].
    simpl. apply Permutation_middle.
Qed.

Lemma group_all_perm (l : list Detection) :
  Permutation (concat (map snd (group_all l))) l.
Proof. apply (fold_push_det_perm l []). Qed.

Lemma flat_map_sub {A : Type} (F : list A -> list A) :
  (forall g, exists d, Permutation (F g ++ d) g) ->
  forall gs, exists d, Permutation (flat_map F gs ++ d) (concat gs).
Proof.
  intros HF gs. induction gs as [|g gs [ds IH]]; simpl.
  - exists []. constructor.
  - destruct (HF g) as [dg Hg]. exists (dg ++ ds).
    eapply perm_trans; [|apply Permutation_app; [apply Hg | apply IH]].
    rewrite <- !app_assoc. apply Permutation_app_head.
    rewrite !app_assoc. apply Permutation_app_tail, Permutation_app_comm.
Qed.

Lemma StronglySorted_app {A : Type} (R : A -> A -> Prop) (l1 l2 : list A) :
  StronglySorted R l1 -> StronglySorted R l2 ->
  (forall a b, In a l1 -> In b l2 -> R a b) ->
  StronglySorted R (l1 ++ l2).
Proof.
  induction l1 as [|x l1 IH]; simpl; intros H1 H2 H; [exact H2|].
  apply StronglySorted_inv in H1 as [Hs Hf]. constructor.
  - apply IH; auto.
  - apply Forall_app. split; [exact Hf|].
    apply Forall_forall. intros b Hb. apply H; auto.
Qed.

Lemma StronglySorted_flat_map {A B : Type} (R : B -> B -> Prop)
    (H : A -> list B) (ks : list A) :
  (forall k, In k ks -> StronglySorted R (H k)) ->
  StronglySorted (fun k k' => forall a b, In a (H k) -> In b (H k') -> R a b)
                 ks ->
  StronglySorted R (flat_map H ks).
Proof.
  induction ks as [|k ks IH]; simpl; intros Hk Hs; [constructor|].
  apply StronglySorted_inv in Hs as [Hs Hf].
  apply StronglySorted_app.
  - apply Hk. left. reflexivity.
  - apply IH; [intros k' Hk'; apply Hk; right; exact Hk' | exact Hs].
  - intros a b Ha Hb. apply in_flat_map in Hb as (k' & Hk' & Hb).
    rewrite Forall_forall in Hf. apply (Hf k' Hk' a b Ha Hb).
Qed.

Lemma StronglySorted_impl {A : Type} (R R' : A -> A -> Prop) (l : list A) :
  (forall a b, R a b -> R' a b) -> StronglySorted R l -> StronglySorted R' l.
Proof.
  intros HR. induction 1 as [|x l Hs IH Hf]; constructor; [exact IH|].
  eapply Forall_impl; [|exact Hf]. intros b. apply HR.
Qed.

Lemma StronglySorted_conj {A : Type} (R1 R2 : A -> A -> Prop) (l : list A) :
  StronglySorted R1 l -> StronglySorted R2 l ->
  StronglySorted (fun a b => R1 a b /\ R2 a b) l.
Proof.
  induction l as [|x l IH]; intros H1 H2; constructor;
    apply StronglySorted_inv in H1 as [H1 F1];
    apply StronglySorted_inv in H2 as [H2 F2].
  - apply IH; assumption.
  - rewrite Forall_forall in *. intros b Hb. split; auto.
Qed.

Lemma StronglySorted_members {A : Type} (P : A -> Prop) (R : A -> A -> Prop)
    (l : list A) :
  Forall P l -> StronglySorted R l ->
  StronglySorted (fun a b => P a /\ P b /\ R a b) l.
Proof.
  induction l as [|x l IH]; intros HP HR; constructor;
    apply StronglySorted_inv in HR as [HR FR];
    apply Forall_cons_iff in HP as [Px HP].
  - apply IH; assumption.
  - rewrite Forall_forall in *. intros b Hb. repeat split; auto.
Qed.

Lemma greedy_unsuppressed (t : float) :
  forall l, StronglySorted (fun a b => suppressed_by t a b = false)
                           (greedy t l).
Proof.
  apply (length_induction
           (fun l => StronglySorted (fun a b => suppressed_by t a b = false)
                                    (greedy t l))).
  intros [|x r] IH.
  - rewrite greedy_nil. constructor.
  - rewrite greedy_cons. constructor.
    + apply IH, filter_shorter.
    + apply Forall_forall. intros b Hb.
      apply greedy_In, filter_In in Hb as [_ Hb].
      destruct (suppressed_by t x b); [discriminate | reflexivity].
Qed.

Lemma same_class_not_below (k : float) (a b : Detection) :
  F32.is_nan k = false -> F32.is_nan (class_id a) = false ->
  in_class k a = true -> in_class k b = true ->
  F32.ltb (class_id b) (class_id a) = false.
Proof.
  unfold in_class. intros Nk Na Ha Hb.
  rewrite <- (same_key_ltb_r k (class_id a) (class_id b) Nk Na Ha).
  unfold same_key in Hb.
  destruct (F32.ltb (class_id b) k); [|reflexivity].
  rewrite andb_false_r in Hb. discriminate.
Qed.

Lemma lower_class_below (k k' : float) (a b : Detection) :
  F32.ltb k k' = true ->
  F32.is_nan (class_id a) = false -> F32.is_nan (class_id b) = false ->
  in_class k a = true -> in_class k' b = true ->
  F32.ltb (class_id a) (class_id b) = true.
Proof.
  unfold in_class. intros Hlt Na Nb Ha Hb.
  pose proof (ltb_is_nan_l _ _ Hlt) as Nk.
  pose proof (ltb_is_nan_r _ _ Hlt) as Nk'.
  rewrite <- (same_key_ltb_r k' (class_id b) (class_id a) Nk' Nb Hb).
  rewrite <- (same_key_ltb_l k (class_id a) k' Nk Na Ha).
  exact Hlt.
Qed.

Lemma greedy_dominates (t : float) :
  forall l, descending l -> forall x, In x l ->
    In x (greedy t l)
    \/ exists y, In y (greedy t l)
                 /\ suppressed_by t y x = true /\ cmp x y = false.
Proof.
  apply (length_induction
           (fun l => descending l -> forall x, In x l ->
              In x (greedy t l)
              \/ exists y, In y (greedy t l)
                           /\ suppressed_by t y x = true /\ cmp x y = false)).
  intros [|h r] IH Hd x Hx; [destruct Hx|].
  rewrite greedy_cons. apply StronglySorted_inv in Hd as [Hr Hh].
  destruct Hx as [<- | Hx]; [left; left; reflexivity|].
  destruct (suppressed_by t h x) eqn:E.
  - right. exists h. split; [left; reflexivity|]. split; [exact E|].
    rewrite Forall_forall in Hh. apply Hh, Hx.
  - destruct (IH (filter (fun d => negb (suppressed_by t h d)) r)
                 (filter_shorter _ h r)
                 (StronglySorted_filter _ _ _ Hr) x) as [H | (y & Hy & H)].
    + apply filter_In. split; [exact Hx | rewrite E; reflexivity].
    + left. right. exact H.
    + right. exists y. split; [right; exact Hy | exact H].
Qed.

Lemma filter_perm {A : Type} (f : A -> bool) (l l' : list A) :
  Permutation l l' -> Permutation (filter f l) (filter f l').
Proof.
  induction 1 as [|x l l' _ IH|x y l|l l' l'' _ IH1 _ IH2]; simpl.
  - constructor.
  - destruct (f x); [constructor|]; exact IH.
  - destruct (f x), (f y); try apply Permutation_refl. constructor.
  - eapply perm_trans; eassumption.
Qed.

(** A list sorted by [R] is the only sorted rearrangement of itself when
    [R] is antisymmetric on its elements. *)
Lemma sorted_perm_unique {A : Type} (R : A -> A -> Prop) :
  forall l l',
    Permutation l l' -> StronglySorted R l -> StronglySorted R l' ->
    (forall x y, In x l -> In y l -> R x y -> R y x -> x = y) ->
    l = l'.
Proof.
  induction l as [|a t IH]; intros l' HP Hs Hs' Hanti.
  - apply Permutation_nil in HP. symmetry. exact HP.
  - destruct l' as [|a' t'].
    + apply Permutation_sym, Permutation_nil in HP. discriminate.
    + apply StronglySorted_inv in Hs as [Hs Hf].
      apply StronglySorted_inv in Hs' as [Hs' Hf'].
      rewrite Forall_forall in Hf, Hf'.
      assert (Ha' : In a' (a :: t)).
      { apply (Permutation_in _ (Permutation_sym HP)). left. reflexivity. }
      assert (Ha : In a (a' :: t')).
      { apply (Permutation_in _ HP). left. reflexivity. }
      assert (E : a = a').
      { destruct Ha' as [E | Ha']; [exact E|].
        destruct Ha as [E | Ha]; [symmetry; exact E|].
        apply Hanti; [left; reflexivity | right; exact Ha' | |]; auto. }
      subst a'. f_equal. apply Permutation_cons_inv in HP.
      apply IH; auto. intros x y Hx Hy. apply Hanti; right; assumption.
Qed.

Lemma in_class_ext (k k' : float) :
  F32.is_nan k = false -> F32.is_nan k' = false -> same_key k k' = true ->
  forall l : list Detection, filter (in_class k) l = filter (in_class k') l.
Proof.
  intros Nk Nk' E l. apply filter_ext. intros x. unfold in_class.
  apply same_key_trans; assumption.
Qed.

Lemma greedy_nan_thresh (nt : float) :
  F32.is_nan nt = true -> forall l, greedy nt l = l.
Proof.
  intros H. induction l as [|x l IH]; [apply greedy_nil|].
  rewrite greedy_cons. rewrite filter_all; [rewrite IH; reflexivity|].
  intros y _. unfold suppressed_by. destruct nt; try discriminate.
  reflexivity.
Qed.

(** ** Groups that [cmp] orders in one way only *)

Lemma cmp_nan (x y : Detection) :
  F32.is_nan (conf x) = true -> cmp x y = false /\ cmp y x = false.
Proof.
  unfold cmp, F32.gtb, F32.ltb, SFltb. intros H.
  destruct (conf x); try discriminate.
  split; [|reflexivity]. now destruct (conf y).
Qed.

Lemma cmp_irrefl (x : Detection) : cmp x x = false.
Proof. unfold cmp, F32.gtb. apply ltb_irrefl. Qed.

(** A tie-free group has no NaN confidence, or consists of copies of one
    detection. *)
Lemma tie_free_cases (g : list Detection) :
  tie_free g ->
  Forall (fun x => F32.is_nan (conf x) = false) g \/ exists y, Forall (eq y) g.
Proof.
  intros H.
  destruct (Forall_Exists_dec (fun x => F32.is_nan (conf x) = false)
              (fun x => bool_dec (F32.is_nan (conf x)) false) g) as [F | E].
  - left. exact F.
  - right. apply Exists_exists in E as (y & Hy & Ny).
    apply not_false_is_true in Ny. exists y.
    apply Forall_forall. intros z Hz.
    destruct (cmp_nan y z Ny) as [A B]. now apply H.
Qed.

Lemma tie_free_sub (g l : list Detection) :
  tie_free g -> (forall x, In x l -> In x g) -> tie_free l.
Proof. intros H S x y Hx Hy. apply H; now apply S. Qed.

Lemma uniform_perm {A : Type} (y : A) (l l' : list A) :
  Forall (eq y) l -> Permutation l l' -> l' = l.
Proof.
  intros H HP.
  assert (H' : Forall (eq y) l')
    by (apply (Forall_perm _ _ _ (Permutation_sym HP) H)).
  rewrite (Forall_eq_repeat H), (Forall_eq_repeat H').
  now rewrite (Permutation_length HP).
Qed.

Lemma uniform_sorted {A : Type} (R : A -> A -> Prop) (y : A) (l : list A) :
  R y y -> Forall (eq y) l -> StronglySorted R l.
Proof.
  intros Hy H. induction H as [|a l E H IH]; constructor; [exact IH|].
  subst a. revert H. apply Forall_impl. intros z <-. exact Hy.
Qed.

(** The groups of one class of a list in which the confidences of a class
    differ. *)
Lemma class_group_tie_free (s : list Detection) (k : float) :
  Forall (fun x => F32.is_nan (class_id x) = false) s ->
  distinct_confidences s -> F32.is_nan k = false ->
  tie_free (filter (in_class k) s).
Proof.
  intros HN HD Nk x y Hx Hy Hxy Hyx. rewrite Forall_forall in HN.
  apply filter_In in Hx as [Sx Hx]. apply filter_In in Hy as [Sy Hy].
  apply HD; auto. unfold in_class in *.
  rewrite <- (same_key_trans k (class_id x) (class_id y) Nk (HN x Sx) Hx).
  exact Hy.
Qed.

(** What is not suppressed by what the walk emits is emitted. *)
Lemma greedy_covers (t : float) :
  forall l x, In x l ->
    In x (greedy t l)
    \/ exists y, In y (greedy t l) /\ suppressed_by t y x = true.
Proof.
  apply (length_induction
           (fun l => forall x, In x l ->
              In x (greedy t l)
              \/ exists y, In y (greedy t l) /\ suppressed_by t y x = true)).
  intros [|h r] IH x Hx; [destruct Hx|].
  rewrite greedy_cons.
  destruct Hx as [<- | Hx]; [left; left; reflexivity|].
  destruct (suppressed_by t h x) eqn:E.
  - right. exists h. split; [left; reflexivity | exact E].
  - destruct (IH (filter (fun d => negb (suppressed_by t h d)) r)
                 (filter_shorter _ h r) x) as [H | (y & Hy & H)].
    + apply filter_In. split; [exact Hx | rewrite E; reflexivity].
    + left. right. exact H.
    + right. exists y. split; [right; exact Hy | exact H].
Qed.

(* ================================================================== *)
(** * The suppression engine, for the sort it is given *)

Section SuppressionEngine.

(** [std::sort], as the program is linked with it. *)
Variable std_sort : sort_t.

Lemma nms_group_spec (t : float) (res : list Detection)
    (entry : float * list Detection) :
  nms_group std_sort t res entry = res ++ greedy t (std_sort (snd entry)).
Proof.
  unfold nms_group.
  apply (nms_outer_spec (length (std_sort (snd entry))) t []
                        (std_sort (snd entry)) res).
  apply Nat.le_refl.
Qed.

Lemma fold_nms_group (t : float) (m : det_map) :
  forall res,
    fold_left (nms_group std_sort t) m res
    = res ++ flat_map (fun g => greedy t (std_sort g)) (map snd m).
Proof.
  induction m as [|e m IH]; intros res; simpl.
  - now rewrite app_nil_r.
  - rewrite IH, nms_group_spec, <- app_assoc. reflexivity.
Qed.

(** [nms] on any buffer, whatever the class ids: the groups are those of the
    map. *)
Lemma nms_groups (cap : nat) (res : list Detection) (output : list float)
    (ct nt : float) :
  nms std_sort cap res output ct nt
  = res ++ flat_map (fun g => greedy nt (std_sort g))
                    (map snd (group_all (survivors cap output ct))).
Proof.
  unfold nms. rewrite nms_collect_spec, fold_nms_group. reflexivity.
Qed.

Lemma nms_refines (cap : nat) (res : list Detection) (output : list float)
    (ct nt : float) :
  Forall (fun x => F32.is_nan (class_id x) = false) (survivors cap output ct) ->
  nms std_sort cap res output ct nt = res ++ nms_spec std_sort cap output ct nt.
Proof.
  intros H. rewrite nms_groups, (group_all_spec _ H).
  rewrite map_map. simpl. rewrite flat_map_map. reflexivity.
Qed.

Lemma fold_left_snoc_map {A B : Type} (f : A -> B) (l : list A) :
  forall acc, fold_left (fun ol r => ol ++ [f r]) l acc = acc ++ map f l.
Proof.
  induction l as [|a l IH]; intros acc; simpl; [now rewrite app_nil_r|].
  rewrite IH, <- app_assoc. reflexivity.
Qed.

Lemma NvDsInferParseYoloV5_appends
    (outputLayersInfo : list NvDsInferLayerInfo)
    (networkInfo : NvDsInferNetworkInfo) (numClassesConfigured : Z)
    (objectList : list NvDsInferParseObjectInfo) :
  NvDsInferParseYoloV5 std_sort outputLayersInfo networkInfo
                       numClassesConfigured objectList
  = Returned true
      (objectList
       ++ map oinfo_of
            (nms std_sort MAX_OUTPUT_BBOX_COUNT []
                 (as_floats (buffer (nth 0 outputLayersInfo layer0)))
                 CONF_THRESH NMS_THRESH)).
Proof. unfold NvDsInferParseYoloV5. now rewrite fold_left_snoc_map. Qed.

(** X4. When the count in [output[0]] is not above zero (zero, negative or
    NaN), [nms] reads no candidate and leaves [res] as it was, whatever
    [std::sort] does. *)
Theorem nms_without_candidates (cap : nat) (res : list Detection)
    (output : list float) (ct nt : float) :
  F32.ltb F32.zero (buf_get output 0) = false ->
  nms std_sort cap res output ct nt = res.
Proof.
  intros H. rewrite nms_groups. unfold survivors, candidates.
  rewrite (n_visited_no_count cap output H). simpl. apply app_nil_r.
Qed.

(** From here on [std::sort] does what the standard promises. *)
Hypothesis std_sort_conforming : conforming std_sort.

Lemma std_sort_perm (l : list Detection) : Permutation (std_sort l) l.
Proof. apply std_sort_conforming. Qed.

Lemma std_sort_descending (l : list Detection) :
  Forall (fun x => F32.is_nan (conf x) = false) l -> descending (std_sort l).
Proof. apply std_sort_conforming. Qed.

Lemma std_sort_nil : std_sort [] = [].
Proof. apply Permutation_nil, Permutation_sym, std_sort_perm. Qed.

Lemma std_sort_In (l : list Detection) (x : Detection) :
  In x (std_sort l) -> In x l.
Proof. apply Permutation_in, std_sort_perm. Qed.

Lemma In_std_sort (l : list Detection) (x : Detection) :
  In x l -> In x (std_sort l).
Proof. apply Permutation_in, Permutation_sym, std_sort_perm. Qed.

(** ** Groups that have one descending order only *)

Lemma sort_uniform (y : Detection) (g : list Detection) :
  Forall (eq y) g -> std_sort g = g.
Proof.
  intros H. apply (uniform_perm y g); [exact H|].
  apply Permutation_sym, std_sort_perm.
Qed.

Lemma sort_tie_free_descending (g : list Detection) :
  tie_free g -> descending (std_sort g).
Proof.
  intros H. destruct (tie_free_cases g H) as [F | [y U]].
  - now apply std_sort_descending.
  - rewrite (sort_uniform y g U).
    apply (uniform_sorted _ y); [apply cmp_irrefl | exact U].
Qed.

(** The sort of a tie-free group is its one descending rearrangement. *)
Lemma sort_is (g l : list Detection) :
  tie_free g -> Permutation l g -> descending l -> std_sort g = l.
Proof.
  intros H HP Hd.
  apply (sorted_perm_unique (fun a b => cmp b a = false)).
  - eapply perm_trans; [apply std_sort_perm | apply Permutation_sym, HP].
  - now apply sort_tie_free_descending.
  - exact Hd.
  - intros x y Hx Hy Hyx Hxy. apply std_sort_In in Hx. apply std_sort_In in Hy.
    apply H; assumption.
Qed.

Lemma sort_perm_eq (g g' : list Detection) :
  tie_free g -> Permutation g g' -> std_sort g = std_sort g'.
Proof.
  intros H HP. apply sort_is; [exact H| |].
  - eapply perm_trans; [apply std_sort_perm | apply Permutation_sym, HP].
  - apply sort_tie_free_descending. apply (tie_free_sub g); [exact H|].
    intros x. apply Permutation_in, Permutation_sym, HP.
Qed.


(** Sorting and filtering commute on a tie-free group. *)
Lemma sort_filter (f : Detection -> bool) (g : list Detection) :
  tie_free g -> filter f (std_sort g) = std_sort (filter f g).
Proof.
  intros H. symmetry. apply sort_is.
  - apply (tie_free_sub g); [exact H|]. intros x Hx. now apply filter_In in Hx.
  - apply filter_perm, std_sort_perm.
  - apply StronglySorted_filter. now apply sort_tie_free_descending.
Qed.

(** ** Sizes and members *)

(** [nms] emits at most as many detections as survive the threshold, hence
    at most [cap]. *)
Lemma nms_length (cap : nat) (output : list float) (ct nt : float) :
  length (nms std_sort cap [] output ct nt)
  <= length (survivors cap output ct).
Proof.
  rewrite nms_groups. simpl.
  rewrite <- (group_all_size (survivors cap output ct)).
  apply flat_map_length_le. intros g.
  rewrite <- (Permutation_length (std_sort_perm g)).
  apply greedy_length.
Qed.

(** The detections of the block that [nms] emits for the key [k]. *)
Lemma block_members (nt k : float) (s : list Detection) (x : Detection) :
  In x (greedy nt (std_sort (filter (in_class k) s))) ->
  In x s /\ in_class k x = true.
Proof.
  intros Hx. apply greedy_In in Hx. apply std_sort_In in Hx.
  apply filter_In in Hx. exact Hx.
Qed.



(** Whatever [nms] emits passed the confidence threshold. *)
Lemma nms_In_survivors (cap : nat) (output : list float) (ct nt : float)
    (x : Detection) :
  In x (nms std_sort cap [] output ct nt) -> In x (survivors cap output ct).
Proof.
  rewrite nms_groups. simpl. intros H. apply in_flat_map in H.
  destruct H as (g & Hg & H). apply greedy_In in H. apply std_sort_In in H.
  apply group_all_In. apply in_concat. eauto.
Qed.

Lemma nms_sub (cap : nat) (output : list float) (ct nt : float) :
  exists dropped,
    Permutation (flat_map (fun g => greedy nt (std_sort g))
                          (map snd (group_all (survivors cap output ct)))
                 ++ dropped)
                (survivors cap output ct).
Proof.
  destruct (flat_map_sub (fun g => greedy nt (std_sort g))) with
    (gs := map snd (group_all (survivors cap output ct))) as [d Hd].
  - intros g. destruct (greedy_sub nt (std_sort g)) as [d Hd].
    exists d. eapply perm_trans; [apply Hd | apply std_sort_perm].
  - exists d. eapply perm_trans; [apply Hd | apply group_all_perm].
Qed.

(** ** The order of the output *)

Lemma nms_spec_pairs (Rg : Detection -> Detection -> Prop)
    (cap : nat) (output : list float) (ct nt : float) :
  Forall (fun x => F32.is_nan (class_id x) = false) (survivors cap output ct) ->
  (forall k, In k (class_keys (survivors cap output ct)) ->
     StronglySorted Rg
       (greedy nt (std_sort (filter (in_class k) (survivors cap output ct))))) ->
  StronglySorted
    (fun a b => F32.ltb (class_id b) (class_id a) = false
                /\ (in_class (class_id a) b = true -> Rg a b))
    (nms_spec std_sort cap output ct nt).
Proof.
  intros HN HR. unfold nms_spec.
  set (s := survivors cap output ct) in *.
  pose proof (class_keys_no_nan s HN) as HK.
  unfold no_nan in HK. rewrite Forall_forall in HK, HN.
  apply StronglySorted_flat_map.
  - intros k Hk.
    eapply StronglySorted_impl;
      [|apply (StronglySorted_members
                 (fun x => In x s /\ in_class k x = true));
        [apply Forall_forall; intros x Hx; apply (block_members nt k s x Hx)
        |apply (HR k Hk)]].
    cbv beta. intros a b ((Sa & Ha) & (Sb & Hb) & Hc).
    split.
    + apply (same_class_not_below k a b); auto.
    + intros _. exact Hc.
  - eapply StronglySorted_impl; [|apply class_keys_ascending].
    cbv beta. intros k k' Hlt a b Ha Hb.
    apply block_members in Ha as [Sa Ha]. apply block_members in Hb as [Sb Hb].
    pose proof (lower_class_below k k' a b Hlt (HN a Sa) (HN b Sb) Ha Hb) as L.
    split.
    + apply ltb_asym. exact L.
    + intros E. unfold in_class in E.
      rewrite (ltb_not_same_key _ _ L) in E. discriminate.
Qed.

(** ** Raising the confidence threshold *)

(** The walk of one sorted group, filtered by a higher threshold. *)
Lemma group_raise_conf (t nt : float) (g : list Detection) :
  tie_free g ->
  greedy nt (std_sort (filter (above t) g))
  = filter (above t) (greedy nt (std_sort g)).
Proof.
  intros Hg. rewrite <- sort_filter by exact Hg.
  apply greedy_filter.
  destruct (tie_free_cases g Hg) as [F | [y U]].
  - apply descending_prefix_closed.
    + apply Forall_perm with g; [apply std_sort_perm | exact F].
    + now apply std_sort_descending.
  - rewrite (sort_uniform y g U).
    apply (uniform_sorted _ y); [tauto | exact U].
Qed.

Lemma nms_spec_raise_conf (cap : nat) (output : list float) (t1 t2 nt : float) :
  F32.leb t1 t2 = true ->
  Forall (fun x => F32.is_nan (class_id x) = false) (survivors cap output t1) ->
  distinct_confidences (survivors cap output t1) ->
  nms_spec std_sort cap output t2 nt
  = filter (above t2) (nms_spec std_sort cap output t1 nt).
Proof.
  intros Ht Hc1 HD. unfold nms_spec, survivors in *.
  set (C := candidates cap output) in *.
  set (S1 := filter (above t1) C) in *.
  assert (HS2 : filter (above t2) C = filter (above t2) S1).
  { unfold S1. symmetry. apply filter_filter_impl.
    intros x. now apply above_mono. }
  rewrite HS2.
  rewrite (groups_keys_irrelevant
             (fun g => greedy nt (std_sort g)) (filter (above t2) S1)
             (f_equal (greedy nt) std_sort_nil) (Forall_filter _ _ _ Hc1) _
             (class_keys (filter (above t2) S1)) (class_keys S1)
             (Nat.le_refl _)).
  - rewrite filter_flat_map. apply flat_map_ext_in. intros k Hk.
    rewrite filter_comm. apply group_raise_conf.
    apply class_group_tie_free; [exact Hc1 | exact HD |].
    pose proof (class_keys_no_nan S1 Hc1) as HK.
    unfold no_nan in HK. rewrite Forall_forall in HK. now apply HK.
  - apply class_keys_ascending.
  - apply class_keys_no_nan. now apply Forall_filter.
  - apply class_keys_ascending.
  - now apply class_keys_no_nan.
  - intros x Hx. split; intros _.
    + apply covers_class_keys. now apply filter_In in Hx.
    + now apply covers_class_keys.
Qed.

(** ** Running [nms] on its own output *)



Lemma nms_spec_of_perm (s s' : list Detection) (nt : float) :
  Permutation s s' ->
  Forall (fun x => F32.is_nan (class_id x) = false) s ->
  distinct_confidences s ->
  flat_map (fun k => greedy nt (std_sort (filter (in_class k) s)))
           (class_keys s)
  = flat_map (fun k => greedy nt (std_sort (filter (in_class k) s')))
             (class_keys s').
Proof.
  intros HP HN HD.
  assert (HN' : Forall (fun x => F32.is_nan (class_id x) = false) s').
  { apply (Forall_perm _ _ _ (Permutation_sym HP) HN). }
  pose proof (class_keys_no_nan s HN) as HK.
  transitivity
    (flat_map (fun k => greedy nt (std_sort (filter (in_class k) s')))
              (class_keys s)).
  - apply flat_map_ext_in. intros k Hk. f_equal.
    unfold no_nan in HK. rewrite Forall_forall in HK.
    apply sort_perm_eq; [|apply filter_perm, HP].
    apply class_group_tie_free; auto.
  - apply (groups_keys_irrelevant
             (fun g => greedy nt (std_sort g)) s'
             (f_equal (greedy nt) std_sort_nil) HN'
             (length (class_keys s) + length (class_keys s'))
             (class_keys s) (class_keys s') (Nat.le_refl _)
             (class_keys_ascending s) HK
             (class_keys_ascending s') (class_keys_no_nan s' HN')).
    intros x Hx. split; intros _.
    + apply covers_class_keys, Hx.
    + apply covers_class_keys.
      apply (Permutation_in _ (Permutation_sym HP)), Hx.
Qed.

(* ------------------------------------------------------------------ *)
(** ** The suppression engine: the claims *)

(** C1, amended.  For every buffer in which no candidate that passes the
    confidence threshold has a NaN class id, and for every [std::sort] that
    does what the standard promises, [nms] appends to [res] what the five
    steps of the specification give: it keeps the candidates it reads whose
    confidence is not at or below the confidence threshold, groups them by
    class id (the groups in ascending order of class id, every survivor in
    the group of its class, the members of a group being the survivors whose
    class id compares equal to the key), rearranges each group with
    [std::sort] (in descending confidence order when no confidence of the
    group is a NaN, candidates of equal confidence in the order the sort
    gives them), walks each sorted group greedily (emit the head, drop from
    the rest what has an IoU with it strictly above the IoU threshold,
    repeat), and concatenates the results of the groups. *)
Theorem nms_follows_specification
    (cap : nat) (res : list Detection) (output : list float) (ct nt : float) :
  Forall (fun x => F32.is_nan (class_id x) = false) (survivors cap output ct) ->
  nms std_sort cap res output ct nt
  = res ++ flat_map (fun k => greedy nt (std_sort
                                (filter (in_class k) (survivors cap output ct))))
                    (class_keys (survivors cap output ct))
  /\ (forall x, In x (survivors cap output ct)
                <-> In x (candidates cap output) /\ F32.leb (conf x) ct = false)
  /\ ascending (class_keys (survivors cap output ct))
  /\ (forall x, In x (survivors cap output ct) ->
        exists k, In k (class_keys (survivors cap output ct))
                  /\ in_class k x = true)
  /\ (forall k x, In k (class_keys (survivors cap output ct)) ->
        In x (survivors cap output ct) ->
        (in_class k x = true <-> SFcompare k (class_id x) = Some Eq))
  /\ (forall g, Permutation (std_sort g) g)
  /\ (forall g, Forall (fun x => F32.is_nan (conf x) = false) g ->
                descending (std_sort g))
  /\ greedy nt [] = []
  /\ (forall item rest,
        greedy nt (item :: rest)
        = item :: greedy nt
            (filter (fun x => negb (F32.gtb (iou (bbox item) (bbox x)) nt)) rest)).
Proof.
  intros H. split; [now apply nms_refines|].
  split.
  { intros x. unfold survivors. rewrite filter_In. unfold above.
    now rewrite negb_true_iff. }
  split; [apply class_keys_ascending|].
  split; [apply class_keys_complete|].
  split.
  { intros k x Hk Hx. unfold in_class. apply same_key_compare.
    - pose proof (class_keys_no_nan _ H) as HK.
      unfold no_nan in HK. rewrite Forall_forall in HK. now apply HK.
    - rewrite Forall_forall in H. now apply H. }
  split; [apply std_sort_perm|].
  split; [apply std_sort_descending|].
  split; [reflexivity|].
  intros item rest. apply greedy_cons.
Qed.

(** C7, amended.  On a buffer whose candidates above the lower threshold
    have no NaN class id and, within a class, no two different candidates
    that [cmp] leaves unordered (the same confidence, or a NaN confidence),
    raising the confidence threshold never increases the number of
    detections, whatever conforming [std::sort] is used: the detections
    emitted at the higher threshold are those emitted at the lower threshold
    whose confidence is above the higher one.  At every IoU threshold the
    number of detections is at most the number of candidates that pass the
    confidence threshold. *)
Theorem nms_conf_threshold_monotone
    (cap : nat) (output : list float) (t1 t2 nt : float) :
  F32.leb t1 t2 = true ->
  Forall (fun x => F32.is_nan (class_id x) = false) (survivors cap output t1) ->
  distinct_confidences (survivors cap output t1) ->
  nms std_sort cap [] output t2 nt
  = filter (above t2) (nms std_sort cap [] output t1 nt)
  /\ length (nms std_sort cap [] output t2 nt)
     <= length (nms std_sort cap [] output t1 nt)
  /\ length (nms std_sort cap [] output t1 nt)
     <= length (survivors cap output t1).
Proof.
  intros Ht Hc HD.
  assert (E : nms std_sort cap [] output t2 nt
              = filter (above t2) (nms std_sort cap [] output t1 nt)).
  { rewrite !nms_refines.
    - simpl. now apply nms_spec_raise_conf.
    - exact Hc.
    - apply Forall_forall. intros x Hx. rewrite Forall_forall in Hc.
      apply Hc. unfold survivors in *. apply filter_In in Hx as [Hx Ha].
      apply filter_In. split; [exact Hx | now apply (above_mono t1 t2)]. }
  split; [exact E|]. split; [|apply nms_length].
  rewrite E. apply filter_length_le.
Qed.


(* ------------------------------------------------------------------ *)
(** ** The suppression engine: further properties *)

(** X2. [nms] invents and duplicates nothing, whatever rearrangement
    [std::sort] makes of a group.  It leaves [res] in place and appends to
    it what it appends to an empty list; what it appends, together with what
    it drops, is a rearrangement of the candidates it read whose confidence
    is not at or below the threshold, and every detection it appends is one
    of them. *)
Theorem nms_emits_sub_multiset (cap : nat) (res : list Detection)
    (output : list float) (ct nt : float) :
  nms std_sort cap res output ct nt = res ++ nms std_sort cap [] output ct nt
  /\ (exists dropped,
        Permutation (nms std_sort cap [] output ct nt ++ dropped)
                    (survivors cap output ct))
  /\ Forall (fun x => In x (candidates cap output)
                      /\ F32.leb (conf x) ct = false)
            (nms std_sort cap [] output ct nt).
Proof.
  destruct (nms_sub cap output ct nt) as [dropped Hd].
  rewrite (nms_groups cap res), (nms_groups cap []), app_nil_l.
  split; [reflexivity|]. split; [exists dropped; exact Hd|].
  apply Forall_forall. intros x Hx.
  assert (Hs : In x (survivors cap output ct)).
  { eapply Permutation_in; [exact Hd|]. apply in_or_app. left. exact Hx. }
  split; [apply survivors_In with (ct := ct); exact Hs|].
  apply above_survivors in Hs. unfold above in Hs.
  destruct (F32.leb (conf x) ct); [discriminate | reflexivity].
Qed.

(** X3. [nms] appends at most [cap] detections to [res], whatever count the
    buffer announces, and so [NvDsInferParseYoloV5] appends at most 1000
    objects a call. *)
Theorem nms_output_bounded (cap : nat) (res : list Detection)
    (output : list float) (ct nt : float)
    (outputLayersInfo : list NvDsInferLayerInfo)
    (networkInfo : NvDsInferNetworkInfo) (numClassesConfigured : Z)
    (objectList : list NvDsInferParseObjectInfo) :
  length (nms std_sort cap res output ct nt) <= length res + cap
  /\ exists new,
       NvDsInferParseYoloV5 std_sort outputLayersInfo networkInfo
                            numClassesConfigured objectList
       = Returned true (objectList ++ new)
       /\ length new <= MAX_OUTPUT_BBOX_COUNT.
Proof.
  split.
  - rewrite nms_groups, length_app. apply Nat.add_le_mono_l.
    pose proof (nms_length cap output ct nt) as H.
    rewrite nms_groups in H. simpl in H.
    eapply Nat.le_trans; [exact H | apply survivors_length].
  - eexists. split; [apply NvDsInferParseYoloV5_appends|].
    rewrite length_map.
    eapply Nat.le_trans; [apply nms_length | apply survivors_length].
Qed.

(** X5. The detections [nms] emits come out class by class in ascending
    class id: a detection is never followed by one of a lower class.  When
    no candidate that passes the threshold has a NaN confidence, they come
    out in descending confidence within a class: a detection is never
    followed by one of its own class with a higher confidence. *)
Theorem nms_output_order (cap : nat) (output : list float) (ct nt : float) :
  Forall (fun x => F32.is_nan (class_id x) = false) (survivors cap output ct) ->
  StronglySorted (fun a b => F32.ltb (class_id b) (class_id a) = false)
                 (nms std_sort cap [] output ct nt)
  /\ (Forall (fun x => F32.is_nan (conf x) = false) (survivors cap output ct) ->
      StronglySorted class_then_confidence (nms std_sort cap [] output ct nt)).
Proof.
  intros HN. rewrite (nms_refines cap [] output ct nt HN), app_nil_l. split.
  - eapply StronglySorted_impl;
      [|apply (nms_spec_pairs (fun _ _ => True) cap output ct nt HN)].
    + cbv beta. intros a b [H _]. exact H.
    + intros k _. apply (StronglySorted_impl (fun a b => suppressed_by nt a b = false));
        [auto | apply greedy_unsuppressed].
  - intros HC.
    eapply StronglySorted_impl;
      [|apply (nms_spec_pairs (fun a b => cmp b a = false) cap output ct nt HN)].
    + cbv beta. intros a b H. exact H.
    + intros k _. apply greedy_sorted. apply std_sort_descending.
      now apply Forall_filter.
Qed.

(** X6. No detection [nms] emits is suppressed by one it emitted earlier
    for the same class: their IoU is not above the threshold. *)
Theorem nms_output_unsuppressed (cap : nat) (output : list float)
    (ct nt : float) :
  Forall (fun x => F32.is_nan (class_id x) = false) (survivors cap output ct) ->
  StronglySorted (unsuppressed nt) (nms std_sort cap [] output ct nt).
Proof.
  intros HN. rewrite (nms_refines cap [] output ct nt HN), app_nil_l.
  eapply StronglySorted_impl;
    [|apply (nms_spec_pairs (fun a b => suppressed_by nt a b = false)
               cap output ct nt HN)].
  - cbv beta. intros a b [_ H]. exact H.
  - intros k _. apply greedy_unsuppressed.
Qed.

(** X7. [nms] drops a candidate that passed the confidence threshold only
    when it has emitted a detection whose IoU with it is above the IoU
    threshold; when no candidate that passed has a NaN confidence, the
    confidence of that detection is not lower. *)
Theorem nms_emitted_or_suppressed (cap : nat) (res : list Detection)
    (output : list float) (ct nt : float) (x : Detection) :
  In x (survivors cap output ct) ->
  (In x (nms std_sort cap res output ct nt)
   \/ exists y, In y (nms std_sort cap res output ct nt)
                /\ suppressed_by nt y x = true)
  /\ (Forall (fun z => F32.is_nan (conf z) = false) (survivors cap output ct) ->
      In x (nms std_sort cap res output ct nt)
      \/ exists y, In y (nms std_sort cap res output ct nt)
                   /\ suppressed_by nt y x = true /\ cmp x y = false).
Proof.
  intros Hx. rewrite nms_groups.
  pose proof Hx as Hx'.
  apply (Permutation_in _ (Permutation_sym (group_all_perm _))) in Hx.
  apply in_concat in Hx as (g & Hg & Hx).
  assert (Hsub : forall z, In z g -> In z (survivors cap output ct)).
  { intros z Hz. apply group_all_In. apply in_concat. eauto. }
  apply In_std_sort in Hx.
  split.
  - destruct (greedy_covers nt (std_sort g) x Hx) as [H | (y & Hy & H)].
    + left. apply in_or_app. right. apply in_flat_map. exists g. auto.
    + right. exists y. split; [|exact H].
      apply in_or_app. right. apply in_flat_map. exists g. auto.
  - intros HC.
    assert (Hd : descending (std_sort g)).
    { apply std_sort_descending. apply Forall_forall. intros z Hz.
      rewrite Forall_forall in HC. now apply HC, Hsub. }
    destruct (greedy_dominates nt (std_sort g) Hd x Hx) as [H | (y & Hy & H)].
    + left. apply in_or_app. right. apply in_flat_map. exists g. auto.
    + right. exists y. split; [|exact H].
      apply in_or_app. right. apply in_flat_map. exists g. auto.
Qed.

(** X8. A candidate above the confidence threshold whose confidence is
    above that of every other such candidate of its class is always
    emitted. *)
Theorem nms_keeps_class_maximum (cap : nat) (res : list Detection)
    (output : list float) (ct nt : float) (x : Detection) :
  Forall (fun y => F32.is_nan (class_id y) = false) (survivors cap output ct) ->
  In x (survivors cap output ct) ->
  (forall y, In y (survivors cap output ct) ->
             in_class (class_id x) y = true -> y = x \/ cmp x y = true) ->
  In x (nms std_sort cap res output ct nt).
Proof.
  intros HN Hx Hmax. rewrite (nms_refines cap res output ct nt HN).
  apply in_or_app. right. unfold nms_spec.
  set (s := survivors cap output ct) in *.
  destruct (class_keys_complete s x Hx) as (k & Hk & Hkx).
  pose proof (class_keys_no_nan s HN) as HK.
  unfold no_nan in HK. rewrite Forall_forall in HK, HN.
  apply in_flat_map. exists k. split; [exact Hk|].
  assert (Hin : In x (std_sort (filter (in_class k) s))).
  { apply In_std_sort. apply filter_In. auto. }
  assert (Hgrp : forall y, In y (filter (in_class k) s) ->
                           y = x \/ cmp x y = true).
  { intros y Hy. apply filter_In in Hy as [Sy Hy]. apply Hmax; [exact Sy|].
    unfold in_class in *.
    rewrite <- (same_key_trans k (class_id x) (class_id y)
                  (HK k Hk) (HN x Hx) Hkx).
    exact Hy. }
  pose proof (std_sort_descending (filter (in_class k) s)) as Hd.
  assert (Hsub : forall y, In y (std_sort (filter (in_class k) s)) ->
                           y = x \/ cmp x y = true).
  { intros y Hy. apply Hgrp. now apply std_sort_In in Hy. }
  destruct (std_sort (filter (in_class k) s)) as [|h t]; [destruct Hin|].
  rewrite greedy_cons. left.
  destruct (Hsub h (or_introl eq_refl)) as [E | E]; [exact E|].
  destruct Hin as [E' | Hin]; [exact E'|].
  assert (Nx : F32.is_nan (conf x) = false).
  { unfold cmp, F32.gtb in E. now apply ltb_is_nan_r in E. }
  assert (HF : Forall (fun y => F32.is_nan (conf y) = false)
                      (filter (in_class k) s)).
  { apply Forall_forall. intros y Hy.
    destruct (Hgrp y Hy) as [-> | Ey]; [exact Nx|].
    unfold cmp, F32.gtb in Ey. now apply ltb_is_nan_l in Ey. }
  apply Hd in HF. apply StronglySorted_inv in HF as [_ HF].
  rewrite Forall_forall in HF. rewrite (HF x Hin) in E. discriminate.
Qed.

(** X9. When no two candidates of one class that pass the confidence
    threshold share a confidence, the result of [nms] does not depend on
    the order of the candidates in the buffer: two buffers whose passing
    candidates are rearrangements of each other give the same list. *)
Theorem nms_order_independent (cap : nat) (res : list Detection)
    (output output' : list float) (ct nt : float) :
  Permutation (survivors cap output ct) (survivors cap output' ct) ->
  Forall (fun x => F32.is_nan (class_id x) = false) (survivors cap output ct) ->
  distinct_confidences (survivors cap output ct) ->
  nms std_sort cap res output ct nt = nms std_sort cap res output' ct nt.
Proof.
  intros HP HN HD.
  rewrite (nms_refines cap res output ct nt HN).
  rewrite (nms_refines cap res output' ct nt
             (Forall_perm _ _ _ (Permutation_sym HP) HN)).
  f_equal. apply nms_spec_of_perm; assumption.
Qed.

(** X10. The detections [nms] emits for one class depend on the candidates
    of that class only: restricted to a class [k], the output is the greedy
    suppression of what [std::sort] makes of the candidates of class [k]
    that pass the confidence threshold. *)
Theorem nms_classes_independent (cap : nat) (output : list float)
    (ct nt k : float) :
  Forall (fun x => F32.is_nan (class_id x) = false) (survivors cap output ct) ->
  F32.is_nan k = false ->
  filter (in_class k) (nms std_sort cap [] output ct nt)
  = greedy nt (std_sort (filter (in_class k) (survivors cap output ct))).
Proof.
  intros HN Nk. rewrite (nms_refines cap [] output ct nt HN), app_nil_l.
  unfold nms_spec. set (s := survivors cap output ct) in *.
  pose proof (class_keys_no_nan s HN) as HK.
  pose proof HK as HK'. unfold no_nan in HK'. rewrite Forall_forall in HK'.
  pose proof HN as HN'. rewrite Forall_forall in HN'.
  destruct (filter (in_class k) s) as [|x g] eqn:E.
  - rewrite std_sort_nil, greedy_nil.
    apply filter_none. intros y Hy.
    apply in_flat_map in Hy as (k' & _ & Hy).
    apply block_members in Hy as [Sy _].
    destruct (in_class k y) eqn:Ey; [|reflexivity].
    assert (Hin : In y (filter (in_class k) s)) by (apply filter_In; auto).
    rewrite E in Hin. destruct Hin.
  - assert (Hx : In x (filter (in_class k) s)) by (rewrite E; left; reflexivity).
    apply filter_In in Hx as [Sx Hx].
    destruct (class_keys_complete s x Sx) as (k' & Hk' & Hk'x).
    pose proof (in_class_same_key k' k x (HK' k' Hk') (HN' x Sx) Hk'x Hx) as Ek.
    assert (Ek' : same_key k k' = true) by (rewrite same_key_sym; exact Ek).
    rewrite <- E.
    rewrite (in_class_ext k k' Nk (HK' k' Hk') Ek' s),
            (in_class_ext k k' Nk (HK' k' Hk') Ek').
    apply (filter_block
             (fun k => greedy nt (std_sort (filter (in_class k) s)))
             (class_keys s) (class_keys_ascending s) HK); [|exact Hk'].
    intros k0 y _ Hy. apply block_members in Hy as [Sy Hy]. auto.
Qed.

(** X21. A NaN threshold switches its test off, every comparison with a NaN
    being false: with a NaN confidence threshold every candidate read
    passes the filter, and with a NaN IoU threshold nothing is suppressed,
    so that [nms] emits every candidate that passed the filter. *)
Theorem nms_nan_thresholds (cap : nat) (output : list float) (ct nt : float) :
  (F32.is_nan ct = true -> survivors cap output ct = candidates cap output)
  /\ (F32.is_nan nt = true ->
      Permutation (nms std_sort cap [] output ct nt) (survivors cap output ct)).
Proof.
  split.
  - intros H. unfold survivors. apply filter_all. intros x _.
    unfold above. destruct ct; try discriminate.
    destruct (conf x) as [| | |[|] ? ?]; reflexivity.
  - intros H. rewrite nms_groups, app_nil_l.
    eapply perm_trans; [|apply group_all_perm].
    induction (map snd (group_all (survivors cap output ct))) as [|g gs IH];
      simpl; [constructor|].
    apply Permutation_app; [|exact IH].
    rewrite (greedy_nan_thresh nt H). apply std_sort_perm.
Qed.

End SuppressionEngine.

(* ================================================================== *)
(** * Sorts that conform, and the engine on the sample buffers *)

Lemma insertion_sort_conforming : conforming insertion_sort.
Proof.
  split; [apply insertion_sort_perm|].
  intros l _. apply insertion_sort_descending.
Qed.

Lemma cautious_sort_conforming : conforming cautious_sort.
Proof.
  split; intros l; unfold cautious_sort.
  - destruct (forallb _ l); [apply insertion_sort_perm | apply Permutation_refl].
  - intros H.
    replace (forallb (fun x => negb (F32.is_nan (conf x))) l) with true.
    + apply insertion_sort_descending.
    + symmetry. apply forallb_forall. intros x Hx.
      rewrite Forall_forall in H. now rewrite (H x Hx).
Qed.

Lemma parity_sort_conforming : conforming parity_sort.
Proof.
  split; intros l; unfold parity_sort.
  - destruct (Nat.even (length l)); [|apply insertion_sort_perm].
    eapply perm_trans; [apply insertion_sort_perm|].
    apply Permutation_sym, Permutation_rev.
  - intros _. destruct (Nat.even (length l)); apply insertion_sort_descending.
Qed.

Lemma strict_tie_free (l : list Detection) : strictb l = true -> tie_free l.
Proof.
  induction l as [|a r IH]; intros H x y Hx Hy Hxy Hyx; [destruct Hx|].
  cbn [strictb] in H. apply andb_true_iff in H as [Ha Hr].
  rewrite forallb_forall in Ha.
  destruct Hx as [<-|Hx], Hy as [<-|Hy].
  - reflexivity.
  - rewrite (Ha y Hy) in Hxy. discriminate.
  - rewrite (Ha x Hx) in Hyx. discriminate.
  - now apply (IH Hr).
Qed.

Lemma determined_tie_free (g : list Detection) :
  determined g = true -> tie_free g.
Proof.
  intros H. apply (tie_free_sub (insertion_sort g)).
  - now apply strict_tie_free.
  - intros x. apply Permutation_in, Permutation_sym, insertion_sort_perm.
Qed.

(** Every conforming sort orders a determined group as the insertion sort
    does. *)
Lemma determined_sort (std_sort : sort_t) (g : list Detection) :
  conforming std_sort -> determined g = true -> std_sort g = insertion_sort g.
Proof.
  intros Hs H. apply (sort_is std_sort Hs).
  - now apply determined_tie_free.
  - apply insertion_sort_perm.
  - apply insertion_sort_descending.
Qed.

(** On a buffer whose groups are determined, [nms] gives with every
    conforming sort what it gives with the insertion sort. *)
Lemma nms_determined (std_sort : sort_t) (cap : nat) (res : list Detection)
    (output : list float) (ct nt : float) :
  conforming std_sort -> sort_determined cap output ct = true ->
  nms std_sort cap res output ct nt = nms insertion_sort cap res output ct nt.
Proof.
  intros Hs H. rewrite !nms_groups. f_equal.
  apply flat_map_ext_in. intros g Hg. f_equal.
  apply determined_sort; [exact Hs|].
  unfold sort_determined in H. rewrite forallb_forall in H. now apply H.
Qed.

(** Candidates that the insertion sort puts in strictly descending order
    have different confidences, whatever their classes. *)
Lemma strict_distinct (l : list Detection) :
  determined l = true -> distinct_confidences l.
Proof.
  intros H x y Hx Hy _. now apply (determined_tie_free l H).
Qed.

(** The sample buffer holds binary32 values and its four candidates are
    read back in the order they were laid out. *)
Lemma sample_buffer_wellformed :
  forallb F32.representable sample_buffer = true
  /\ candidates MAX_OUTPUT_BBOX_COUNT sample_buffer = [nms_C; nms_A; nms_D; nms_B]
  /\ ordered_input (candidates MAX_OUTPUT_BBOX_COUNT sample_buffer).
Proof.
  split; [vm_compute; reflexivity|].
  assert (E : candidates MAX_OUTPUT_BBOX_COUNT sample_buffer
              = [nms_C; nms_A; nms_D; nms_B]).
  { unfold sample_buffer. apply candidates_encode.
    unfold MAX_OUTPUT_BBOX_COUNT. simpl. lia. }
  split; [exact E|]. rewrite E.
  repeat constructor.
Qed.

(* ------------------------------------------------------------------ *)
(** ** The claims on the sample buffers *)

(** C1, as stated, fails on a NaN class id.  In the buffer that holds
    [hi_B] and [nan_B], two candidates of the same box whose class ids do not
    compare equal (0 and a NaN), both candidates pass the confidence
    threshold; [std::map] puts the NaN key into the group of class 0, and
    [nms] emits [hi_B] alone, [nan_B] being suppressed by a candidate of
    another class id.  Nor is a group with a NaN confidence put in
    descending order by every sort that does what the standard promises:
    with [cautious_sort], [nms_D] (0.5) is emitted before [nms_A] (0.875). *)
Lemma nms_merges_nan_class_id :
  survivors MAX_OUTPUT_BBOX_COUNT nan_class_buffer CONF_THRESH = [hi_B; nan_B]
  /\ SFeqb (class_id hi_B) (class_id nan_B) = false
  /\ (forall std_sort, conforming std_sort ->
        nms std_sort MAX_OUTPUT_BBOX_COUNT [] nan_class_buffer
            CONF_THRESH NMS_THRESH = [hi_B])
  /\ conforming cautious_sort
  /\ nms cautious_sort MAX_OUTPUT_BBOX_COUNT [] nan_conf_buffer
         t_quarter F32.half = [nms_D; nan_conf_C; nms_A]
  /\ cmp nms_A nms_D = true.
Proof.
  split; [vm_compute; reflexivity|]. split; [reflexivity|].
  split.
  { intros std_sort Hs. rewrite (nms_determined std_sort) by
      (try exact Hs; vm_compute; reflexivity).
    vm_compute. reflexivity. }
  split; [apply cautious_sort_conforming|].
  split; vm_compute; reflexivity.
Qed.

Lemma nms_follows_specification_witness :
  nms insertion_sort MAX_OUTPUT_BBOX_COUNT [] sample_buffer t_quarter t_16th
  = [nms_A; nms_C; nms_D].
Proof.
  rewrite (proj1 (nms_follows_specification insertion_sort
                    insertion_sort_conforming MAX_OUTPUT_BBOX_COUNT []
                    sample_buffer t_quarter t_16th
                    ltac:(vm_compute; repeat constructor))).
  vm_compute. reflexivity.
Defined.

(** C7, as stated, fails in both halves.  On [sample_buffer], with the
    confidence threshold 1/4 and whatever conforming sort, raising the IoU
    threshold from 1/16 to 1/8 lowers the number of detections from 3 to 2
    (at 1/8 [nms_B] is no longer suppressed by [nms_A], and suppresses
    [nms_C] and [nms_D]).  On [tie_buffer], whose candidates [tie_r],
    [tie_p] and [tie_q] have the same confidence, a sort that conforms can
    order them differently at two confidence thresholds: with [parity_sort]
    and the IoU threshold 1/8, raising the confidence threshold from 1/4 to
    3/4 raises the number of detections from 1 to 2. *)
Lemma nms_thresholds_not_monotone :
  F32.leb t_16th t_8th = true
  /\ (forall std_sort, conforming std_sort ->
        nms std_sort MAX_OUTPUT_BBOX_COUNT [] sample_buffer t_quarter t_16th
        = [nms_A; nms_C; nms_D]
        /\ nms std_sort MAX_OUTPUT_BBOX_COUNT [] sample_buffer t_quarter t_8th
           = [nms_A; nms_B])
  /\ F32.leb t_quarter t_3quarters = true
  /\ conforming parity_sort
  /\ nms parity_sort MAX_OUTPUT_BBOX_COUNT [] tie_buffer t_quarter t_8th
     = [tie_q]
  /\ nms parity_sort MAX_OUTPUT_BBOX_COUNT [] tie_buffer t_3quarters t_8th
     = [tie_r; tie_p].
Proof.
  split; [vm_compute; reflexivity|].
  split.
  { intros std_sort Hs.
    rewrite !(nms_determined std_sort) by
      (try exact Hs; vm_compute; reflexivity).
    vm_compute. split; reflexivity. }
  split; [vm_compute; reflexivity|].
  split; [apply parity_sort_conforming|].
  split; vm_compute; reflexivity.
Qed.

Lemma nms_conf_threshold_monotone_witness :
  length (nms insertion_sort MAX_OUTPUT_BBOX_COUNT [] sample_buffer
              t_3quarters F32.half)
  <= length (nms insertion_sort MAX_OUTPUT_BBOX_COUNT [] sample_buffer
                 t_quarter F32.half).
Proof.
  apply (nms_conf_threshold_monotone insertion_sort insertion_sort_conforming
           MAX_OUTPUT_BBOX_COUNT sample_buffer t_quarter t_3quarters F32.half).
  - vm_compute. reflexivity.
  - vm_compute. repeat constructor.
  - apply strict_distinct. vm_compute. reflexivity.
Defined.



(* ------------------------------------------------------------------ *)
(** ** The further properties on the sample buffers *)

Lemma nms_emits_sub_multiset_witness :
  exists dropped,
    Permutation (nms insertion_sort MAX_OUTPUT_BBOX_COUNT [] sample_buffer
                     t_quarter t_16th ++ dropped)
                (survivors MAX_OUTPUT_BBOX_COUNT sample_buffer t_quarter).
Proof.
  apply (nms_emits_sub_multiset insertion_sort insertion_sort_conforming
           MAX_OUTPUT_BBOX_COUNT [] sample_buffer t_quarter t_16th).
Defined.

Lemma nms_output_bounded_witness :
  length (nms insertion_sort MAX_OUTPUT_BBOX_COUNT [nms_A] sample_buffer
              t_quarter t_16th)
  <= length [nms_A] + MAX_OUTPUT_BBOX_COUNT.
Proof.
  apply (nms_output_bounded insertion_sort insertion_sort_conforming
           MAX_OUTPUT_BBOX_COUNT [nms_A] sample_buffer t_quarter t_16th
           [] net_32x32 80 []).
Defined.

Lemma nms_without_candidates_witness :
  nms insertion_sort MAX_OUTPUT_BBOX_COUNT [nms_A]
      (F32.of_Z (-3) :: encode_det nms_B) CONF_THRESH NMS_THRESH
  = [nms_A].
Proof. apply nms_without_candidates. vm_compute. reflexivity. Defined.

Lemma nms_output_order_witness :
  StronglySorted class_then_confidence
    (nms insertion_sort MAX_OUTPUT_BBOX_COUNT [] sample_buffer
         t_quarter F32.half).
Proof.
  apply (nms_output_order insertion_sort insertion_sort_conforming).
  - vm_compute. repeat constructor.
  - vm_compute. repeat constructor.
Defined.

Lemma nms_output_unsuppressed_witness :
  StronglySorted (unsuppressed t_16th)
    (nms insertion_sort MAX_OUTPUT_BBOX_COUNT [] sample_buffer
         t_quarter t_16th).
Proof.
  apply (nms_output_unsuppressed insertion_sort insertion_sort_conforming).
  vm_compute. repeat constructor.
Defined.

Lemma nms_emitted_or_suppressed_witness :
  In nms_C (nms insertion_sort MAX_OUTPUT_BBOX_COUNT [] sample_buffer
                t_quarter t_8th)
  \/ exists y, In y (nms insertion_sort MAX_OUTPUT_BBOX_COUNT [] sample_buffer
                         t_quarter t_8th)
               /\ suppressed_by t_8th y nms_C = true /\ cmp nms_C y = false.
Proof.
  apply (nms_emitted_or_suppressed insertion_sort insertion_sort_conforming).
  - vm_compute. left. reflexivity.
  - vm_compute. repeat constructor.
Defined.

Lemma nms_keeps_class_maximum_witness :
  In nms_A (nms insertion_sort MAX_OUTPUT_BBOX_COUNT [] sample_buffer
                t_quarter t_16th).
Proof.
  apply (nms_keeps_class_maximum insertion_sort insertion_sort_conforming).
  - vm_compute. repeat constructor.
  - vm_compute. right. left. reflexivity.
  - intros y Hy _.
    replace (survivors MAX_OUTPUT_BBOX_COUNT sample_buffer t_quarter)
      with [nms_C; nms_A; nms_D; nms_B] in Hy by (vm_compute; reflexivity).
    destruct Hy as [<- | [<- | [<- | [<- | []]]]];
      [right | left | right | right]; reflexivity.
Defined.

Lemma nms_order_independent_witness :
  nms insertion_sort MAX_OUTPUT_BBOX_COUNT [] sample_buffer t_quarter t_16th
  = nms insertion_sort MAX_OUTPUT_BBOX_COUNT [] sample_buffer' t_quarter t_16th.
Proof.
  apply (nms_order_independent insertion_sort insertion_sort_conforming).
  - replace (survivors MAX_OUTPUT_BBOX_COUNT sample_buffer t_quarter)
      with [nms_C; nms_A; nms_D; nms_B] by (vm_compute; reflexivity).
    replace (survivors MAX_OUTPUT_BBOX_COUNT sample_buffer' t_quarter)
      with [nms_A; nms_B; nms_C; nms_D] by (vm_compute; reflexivity).
    apply (Permutation_cons_app [nms_A; nms_B] [nms_D]).
    simpl. apply perm_skip. apply perm_swap.
  - vm_compute. repeat constructor.
  - apply strict_distinct. vm_compute. reflexivity.
Defined.

Lemma nms_classes_independent_witness :
  filter (in_class F32.zero)
         (nms insertion_sort MAX_OUTPUT_BBOX_COUNT [] sample_buffer
              t_quarter t_16th)
  = greedy t_16th
      (insertion_sort (filter (in_class F32.zero)
                              (survivors MAX_OUTPUT_BBOX_COUNT sample_buffer
                                         t_quarter))).
Proof.
  apply (nms_classes_independent insertion_sort insertion_sort_conforming).
  - vm_compute. repeat constructor.
  - reflexivity.
Defined.

Lemma nms_nan_thresholds_witness :
  survivors MAX_OUTPUT_BBOX_COUNT sample_buffer S754_nan
  = candidates MAX_OUTPUT_BBOX_COUNT sample_buffer
  /\ Permutation (nms insertion_sort MAX_OUTPUT_BBOX_COUNT [] sample_buffer
                      t_quarter S754_nan)
                 (survivors MAX_OUTPUT_BBOX_COUNT sample_buffer t_quarter).
Proof.
  split.
  - apply (proj1 (nms_nan_thresholds insertion_sort insertion_sort_conforming
                    MAX_OUTPUT_BBOX_COUNT sample_buffer S754_nan t_quarter)).
    reflexivity.
  - apply (proj2 (nms_nan_thresholds insertion_sort insertion_sort_conforming
                    MAX_OUTPUT_BBOX_COUNT sample_buffer t_quarter S754_nan)).
    reflexivity.
Defined.

(* ================================================================== *)
(** * [iou] *)

Lemma Qgtb_true (x y : Q) : Qgtb x y = true -> (y < x)%Q.
Proof.
  unfold Qgtb. intros H. apply negb_true_iff in H.
  apply Qnot_le_lt. intros C. apply Qle_bool_iff in C. congruence.
Qed.

Lemma Qgtb_false (x y : Q) : Qgtb x y = false -> (x <= y)%Q.
Proof.
  unfold Qgtb. intros H. apply negb_false_iff in H. now apply Qle_bool_iff.
Qed.

Lemma Qstd_max_spec (a b : Q) :
  (a <= Qstd_max a b /\ b <= Qstd_max a b)%Q.
Proof.
  unfold Qstd_max. destruct (Qgtb b a) eqn:E.
  - apply Qgtb_true in E. split; [now apply Qlt_le_weak | apply Qle_refl].
  - apply Qgtb_false in E. split; [apply Qle_refl | exact E].
Qed.

Lemma Qstd_min_spec (a b : Q) :
  (Qstd_min a b <= a /\ Qstd_min a b <= b)%Q.
Proof.
  unfold Qstd_min. destruct (Qgtb a b) eqn:E.
  - apply Qgtb_true in E. split; [now apply Qlt_le_weak | apply Qle_refl].
  - apply Qgtb_false in E. split; [apply Qle_refl | exact E].
Qed.

(** The overlap of two spans [c1 -+ w1/2] and [c2 -+ w2/2], when they are
    not inverted, is between 0 and either width. *)
Lemma span_overlap (c1 w1 c2 w2 : Q) :
  Qgtb (Qstd_max (c1 - w1 / 2) (c2 - w2 / 2))
       (Qstd_min (c1 + w1 / 2) (c2 + w2 / 2)) = false ->
  let x := (Qstd_min (c1 + w1 / 2) (c2 + w2 / 2)
            - Qstd_max (c1 - w1 / 2) (c2 - w2 / 2))%Q in
  (0 <= x /\ x <= w1 /\ x <= w2)%Q.
Proof.
  intros H x. apply Qgtb_false in H. subst x.
  destruct (Qstd_max_spec (c1 - w1 / 2) (c2 - w2 / 2)) as [M1 M2].
  destruct (Qstd_min_spec (c1 + w1 / 2) (c2 + w2 / 2)) as [N1 N2].
  assert (E1 : (w1 == 2 * (w1 / 2))%Q) by (field).
  assert (E2 : (w2 == 2 * (w2 / 2))%Q) by (field).
  revert H M1 M2 N1 N2 E1 E2.
  generalize (w1 / 2)%Q (w2 / 2)%Q. intros u1 u2.
  generalize (Qstd_max (c1 - u1) (c2 - u2)) (Qstd_min (c1 + u1) (c2 + u2)).
  intros L R H M1 M2 N1 N2 E1 E2.
  repeat split; lra.
Qed.

Lemma product_bound (x y w h : Q) :
  (0 <= x -> x <= w -> 0 <= y -> y <= h -> 0 <= x * y /\ x * y <= w * h)%Q.
Proof. intros. split; nra. Qed.

Lemma iouQ_bounds (a b : bbox4 Q) :
  (0 < b2 a -> 0 < b3 a -> 0 < b2 b -> 0 < b3 b ->
   0 <= iouQ a b /\ iouQ a b <= 1
   /\ (inverted Qgtb (interBox Qplus Qminus Qdiv Qstd_max Qstd_min 2 a b) = false ->
       0 < unionS Qplus Qminus Qmult Qdiv Qstd_max Qstd_min 2 a b))%Q.
Proof.
  intros Wa Ha Wb Hb. unfold iouQ, iou_gen.
  destruct (inverted Qgtb
              (interBox Qplus Qminus Qdiv Qstd_max Qstd_min 2%Q a b)) eqn:E.
  - split; [apply Qle_refl|]. split; [discriminate | discriminate].
  - unfold inverted in E. apply orb_false_iff in E. destruct E as [Ev Eh].
    cbn [ib_top ib_bottom ib_left ib_right interBox] in Ev, Eh.
    pose proof (span_overlap _ _ _ _ Eh) as (X0 & X1 & X2).
    pose proof (span_overlap _ _ _ _ Ev) as (Y0 & Y1 & Y2).
    unfold unionS, interBoxS.
    cbn [ib_top ib_bottom ib_left ib_right interBox].
    revert X0 X1 X2 Y0 Y1 Y2.
    generalize (Qstd_min (b0 a + b2 a / 2) (b0 b + b2 b / 2)
                - Qstd_max (b0 a - b2 a / 2) (b0 b - b2 b / 2))%Q.
    generalize (Qstd_min (b1 a + b3 a / 2) (b1 b + b3 b / 2)
                - Qstd_max (b1 a - b3 a / 2) (b1 b - b3 b / 2))%Q.
    intros y x X0 X1 X2 Y0 Y1 Y2.
    destruct (product_bound x y (b2 a) (b3 a) X0 X1 Y0 Y1) as [P0 P1].
    destruct (product_bound x y (b2 b) (b3 b) X0 X2 Y0 Y2) as [_ P2].
    assert (A1 : (0 < b2 a * b3 a)%Q) by nra.
    assert (U : (0 < b2 a * b3 a + b2 b * b3 b - x * y)%Q) by lra.
    split; [|split; [|intros _; exact U]].
    + apply Qle_shift_div_l; [exact U | lra].
    + apply Qle_shift_div_r; [exact U | lra].
Qed.

Lemma iouQ_self (a : bbox4 Q) :
  (0 < b2 a -> 0 < b3 a -> iouQ a a == 1)%Q.
Proof.
  intros Wa Ha. unfold iouQ, iou_gen, inverted, unionS, interBoxS.
  cbn [ib_top ib_bottom ib_left ib_right interBox].
  unfold Qstd_max, Qstd_min.
  assert (A1 : (0 < b2 a * b3 a)%Q) by nra.
  assert (F : forall c w : Q, (0 < w)%Q ->
                Qgtb (if Qgtb (c - w / 2) (c - w / 2)
                      then c - w / 2 else c - w / 2)%Q
                     (if Qgtb (c + w / 2) (c + w / 2)
                      then c + w / 2 else c + w / 2)%Q = false).
  { intros c w Hw. destruct (Qgtb (c - w / 2) (c - w / 2)),
      (Qgtb (c + w / 2) (c + w / 2));
      unfold Qgtb; apply negb_false_iff; apply Qle_bool_iff;
      assert (E : (w == 2 * (w / 2))%Q) by field;
      revert E; generalize (w / 2)%Q; intros u E; lra. }
  rewrite (F (b1 a) (b3 a) Ha), (F (b0 a) (b2 a) Wa). simpl orb. cbv iota.
  destruct (Qgtb (b0 a - b2 a / 2) (b0 a - b2 a / 2)),
    (Qgtb (b0 a + b2 a / 2) (b0 a + b2 a / 2)),
    (Qgtb (b1 a - b3 a / 2) (b1 a - b3 a / 2)),
    (Qgtb (b1 a + b3 a / 2) (b1 a + b3 a / 2));
    field; intros C; nra.
Qed.

(* ================================================================== *)
(** * Conversions and [clamp] *)

Lemma shr_1_nonneg (mrs : shr_record) :
  (0 <= shr_m mrs)%Z -> (0 <= shr_m (shr_1 mrs))%Z.
Proof.
  destruct mrs as [m r s]. destruct m as [|p|p]; simpl; intros H;
    try lia; destruct p; simpl; lia.
Qed.

Lemma iter_shr_1_nonneg (p : positive) :
  forall mrs, (0 <= shr_m mrs)%Z -> (0 <= shr_m (iter_pos shr_1 p mrs))%Z.
Proof.
  induction p as [p IH|p IH|]; simpl; intros mrs H.
  - apply IH, IH. now apply shr_1_nonneg.
  - now apply IH, IH.
  - now apply shr_1_nonneg.
Qed.

Lemma shr_nonneg (mrs : shr_record) (e n : Z) :
  (0 <= shr_m mrs)%Z -> (0 <= shr_m (fst (shr mrs e n)))%Z.
Proof.
  destruct n; simpl; auto. apply iter_shr_1_nonneg.
Qed.

Lemma shr_fexp_nonneg (m e : Z) (l : location) :
  (0 <= m)%Z -> (0 <= shr_m (fst (shr_fexp F32.prec F32.emax m e l)))%Z.
Proof.
  intros H. unfold shr_fexp. apply shr_nonneg.
  destruct l as [|[]]; simpl; exact H.
Qed.

Lemma round_nearest_even_nonneg (m : Z) (l : location) :
  (0 <= m)%Z -> (0 <= round_nearest_even m l)%Z.
Proof.
  intros H. destruct l as [|[]]; simpl; try lia. destruct (Z.even m); lia.
Qed.

(** A rounded value keeps the sign it was given and is never a NaN. *)
Lemma binary_round_aux_sign (sx : bool) (mx ex : Z) (lx : location) :
  (0 <= mx)%Z ->
  let r := binary_round_aux F32.prec F32.emax sx mx ex lx in
  r = S754_zero sx \/ (exists m e, r = S754_finite sx m e)
  \/ r = S754_infinity sx.
Proof.
  intros H. unfold binary_round_aux.
  pose proof (shr_fexp_nonneg mx ex lx H) as H1.
  destruct (shr_fexp F32.prec F32.emax mx ex lx) as [mrs' e'].
  simpl in H1.
  pose proof (shr_fexp_nonneg _ e' loc_Exact
                (round_nearest_even_nonneg _ (loc_of_shr_record mrs') H1))
    as H2.
  destruct (shr_fexp F32.prec F32.emax
              (round_nearest_even (shr_m mrs') (loc_of_shr_record mrs'))
              e' loc_Exact) as [mrs'' e''].
  simpl in H2. cbv zeta.
  destruct (shr_m mrs'') as [|m|m].
  - now left.
  - destruct (e'' <=? F32.emax - F32.prec)%Z; [right; left; eauto | now right; right].
  - lia.
Qed.

Lemma of_Z_nonneg (z : Z) : (0 <= z)%Z -> F32.leb F32.zero (F32.of_Z z) = true.
Proof.
  intros H. unfold F32.of_Z, binary_normalize.
  destruct z as [|m|m]; [reflexivity| |lia].
  unfold binary_round.
  destruct (shl_align m 0 (fexp F32.prec F32.emax (Z.pos (digits2_pos m) + 0)))
    as [mz ez].
  destruct (binary_round_aux_sign false (Z.pos mz) ez loc_Exact
              ltac:(lia)) as [E|[(m' & e' & E)|E]];
    rewrite E; reflexivity.
Qed.

Lemma to_uint_nonneg (x : float) : (0 <= F32.to_uint x)%Z.
Proof.
  unfold F32.to_uint. destruct (F32.trunc x) as [z|]; [|lia].
  destruct ((0 <=? z) && (z <? 2 ^ 32))%Z eqn:E; [|lia].
  apply andb_true_iff in E. destruct E as [E _]. now apply Z.leb_le.
Qed.

Lemma leb_zero_zero : F32.leb F32.zero F32.zero = true.
Proof. reflexivity. Qed.

(** [clamp(val, 0, maxVal)] lies between 0 and [maxVal], whatever [val],
    a NaN included. *)
Lemma clamp_range (v M : float) :
  F32.leb F32.zero M = true ->
  F32.leb F32.zero (clamp v F32.zero M) = true
  /\ F32.leb (clamp v F32.zero M) M = true.
Proof.
  intros HM. unfold clamp, F32.std_min, F32.std_max.
  assert (Hm : F32.leb F32.zero (if F32.ltb F32.zero v then v else F32.zero)
               = true).
  { destruct (F32.ltb F32.zero v) eqn:E; [now apply ltb_leb | reflexivity]. }
  destruct (F32.ltb (if F32.ltb F32.zero v then v else F32.zero) M) eqn:E.
  - split; [exact Hm | now apply ltb_leb].
  - split; [exact HM|]. apply leb_refl. eapply leb_is_nan_r; eauto.
Qed.

Lemma not_ltb_leb (x y : float) :
  F32.is_nan x = false -> F32.is_nan y = false ->
  F32.ltb x y = false -> F32.leb y x = true.
Proof. intros Hx Hy H. apply not_gtb_leb; auto. Qed.

(* ================================================================== *)
(** * The grid-anchor decoders *)

Lemma is_nan_one : F32.is_nan one = false.
Proof. reflexivity. Qed.

Lemma addBBoxProposal_cases (bx by_ bw bh : float) (stride netW netH : Z)
    (maxIndex : Z) (maxProb : float) (binfo : list NvDsInferParseObjectInfo) :
  (0 <= netW)%Z -> (0 <= netH)%Z ->
  let bbi := convertBBox bx by_ bw bh (i32 stride) netW netH in
  (F32.ltb (width bbi) one || F32.ltb (height bbi) one = true
   /\ addBBoxProposal bx by_ bw bh stride netW netH maxIndex maxProb binfo
      = binfo)
  \/ (F32.ltb (width bbi) one || F32.ltb (height bbi) one = false
      /\ exists o,
           addBBoxProposal bx by_ bw bh stride netW netH maxIndex maxProb binfo
           = binfo ++ [o]
           /\ box_ok netW netH o /\ detectionConfidence o = maxProb
           /\ classId o = u32 maxIndex).
Proof.
  intros HW HH bbi. unfold addBBoxProposal. fold bbi.
  destruct (F32.ltb (width bbi) one || F32.ltb (height bbi) one) eqn:E.
  - left. split; reflexivity.
  - right. split; [reflexivity|]. eexists. split; [reflexivity|].
    apply orb_false_iff in E. destruct E as [Ew Eh].
    pose proof (of_Z_nonneg netW HW) as PW.
    pose proof (of_Z_nonneg netH HH) as PH.
    unfold box_ok. cbn [left top width height detectionConfidence classId].
    unfold bbi, convertBBox in *.
    cbn [left top width height] in *.
    repeat match goal with
    | |- context [clamp ?v F32.zero (F32.of_Z netW)] =>
        let R := fresh "R" in
        destruct (clamp_range v (F32.of_Z netW) PW) as [? R];
        revert R; generalize dependent (clamp v F32.zero (F32.of_Z netW));
        intros
    | |- context [clamp ?v F32.zero (F32.of_Z netH)] =>
        let R := fresh "R" in
        destruct (clamp_range v (F32.of_Z netH) PH) as [? R];
        revert R; generalize dependent (clamp v F32.zero (F32.of_Z netH));
        intros
    end.
    repeat split; auto;
      apply not_ltb_leb; auto using is_nan_one; eapply leb_is_nan_r; eauto.
Qed.

Lemma addBBoxProposal_Forall (P : NvDsInferParseObjectInfo -> Prop)
    (netW netH : Z) :
  (0 <= netW)%Z -> (0 <= netH)%Z ->
  (forall o, box_ok netW netH o -> P o) ->
  forall bx by_ bw bh stride maxIndex maxProb binfo,
    Forall P binfo ->
    Forall P (addBBoxProposal bx by_ bw bh stride netW netH maxIndex maxProb
                              binfo).
Proof.
  intros HW HH HP bx by_ bw bh stride maxIndex maxProb binfo Hb.
  destruct (addBBoxProposal_cases bx by_ bw bh stride netW netH maxIndex
              maxProb binfo HW HH) as [[_ ->]|[_ (o & -> & Ho & _)]].
  - exact Hb.
  - apply Forall_app. split; [exact Hb|]. constructor; [auto | constructor].
Qed.

Lemma fold_left_invariant {A B : Type} (P : A -> Prop) (f : A -> B -> A)
    (l : list B) :
  (forall a b, P a -> P (f a b)) -> forall a, P a -> P (fold_left f l a).
Proof.
  intros H. induction l as [|b l IH]; simpl; intros a Ha; [exact Ha|].
  apply IH. now apply H.
Qed.

Lemma decode_grid_Forall (P : NvDsInferParseObjectInfo -> Prop)
    (gridSizeW gridSizeH numBBoxes : Z)
    (round : Z -> Z -> Z -> list NvDsInferParseObjectInfo ->
             list NvDsInferParseObjectInfo) :
  (forall y x b binfo, Forall P binfo -> Forall P (round y x b binfo)) ->
  Forall P (decode_grid gridSizeW gridSizeH numBBoxes round).
Proof.
  intros H. unfold decode_grid.
  apply fold_left_invariant; [|constructor]. intros a y Ha.
  apply fold_left_invariant; [|exact Ha]. intros a' x Ha'.
  apply fold_left_invariant; [|exact Ha']. intros a'' b Ha''.
  now apply H.
Qed.

Lemma decode_cell_Forall (P : NvDsInferParseObjectInfo -> Prop)
    (detections : list float) (gw gh stride nc netW netH : Z)
    (size_of : float -> float -> float) (pw ph : float) (y x b : Z)
    (binfo : list NvDsInferParseObjectInfo) :
  (0 <= netW)%Z -> (0 <= netH)%Z ->
  (forall o, box_ok netW netH o -> P o) ->
  Forall P binfo ->
  Forall P (decode_cell detections gw gh stride nc netW netH size_of pw ph
                        y x b binfo).
Proof.
  intros HW HH HP Hb. unfold decode_cell.
  destruct (best_class detections gw gh nc y x b) as [maxProb maxIndex].
  now apply addBBoxProposal_Forall.
Qed.

Lemma decodeYoloV3Tensor_ok (detections : list float)
    (gw gh stride nb nc netW netH : Z) (mask : list Z) (anchors : list float) :
  (0 <= netW)%Z -> (0 <= netH)%Z ->
  Forall (box_ok netW netH)
         (decodeYoloV3Tensor detections gw gh stride nb nc netW netH
                             mask anchors).
Proof.
  intros HW HH. unfold decodeYoloV3Tensor. apply decode_grid_Forall.
  intros y x b binfo Hb. now apply decode_cell_Forall.
Qed.

Lemma decodeYoloV2Tensor_ok (detections : list float)
    (gw gh stride nb nc netW netH : Z) (scale_exp : float -> float -> float)
    (anchors : list float) :
  (0 <= netW)%Z -> (0 <= netH)%Z ->
  Forall (box_ok netW netH)
         (decodeYoloV2Tensor detections gw gh stride nb nc netW netH
                             scale_exp anchors).
Proof.
  intros HW HH. unfold decodeYoloV2Tensor. apply decode_grid_Forall.
  intros y x b binfo Hb. now apply decode_cell_Forall.
Qed.

(** ** [SortLayers] *)

Lemma layer_insert_perm (x : NvDsInferLayerInfo) (l : list NvDsInferLayerInfo) :
  Permutation (layer_insert x l) (x :: l).
Proof.
  induction l as [|y l IH]; simpl; [reflexivity|].
  destruct (dim x 1 <? dim y 1)%Z; [reflexivity|].
  rewrite IH. apply perm_swap.
Qed.

Lemma insertion_sort_layers_perm (l : list NvDsInferLayerInfo) :
  Permutation (insertion_sort_layers l) l.
Proof.
  unfold insertion_sort_layers.
  induction l as [|x l IH] using rev_ind; [reflexivity|].
  rewrite fold_left_app. simpl. rewrite layer_insert_perm, IH.
  apply Permutation_cons_append.
Qed.

Lemma layer_insert_sorted (x : NvDsInferLayerInfo)
    (l : list NvDsInferLayerInfo) :
  layers_sorted l -> layers_sorted (layer_insert x l).
Proof.
  unfold layers_sorted.
  induction l as [|y l IH]; intros Hs; cbn [layer_insert].
  - repeat constructor.
  - apply StronglySorted_inv in Hs as [Hs Hf].
    destruct (dim x 1 <? dim y 1)%Z eqn:E.
    + apply Z.ltb_lt in E. constructor; [constructor; assumption|].
      constructor; [lia|].
      eapply Forall_impl; [|exact Hf]. cbv beta. intros b Hb. lia.
    + apply Z.ltb_ge in E. constructor; [apply IH, Hs|].
      apply (Forall_perm _ _ _ (layer_insert_perm x l)).
      constructor; [exact E | exact Hf].
Qed.

Lemma insertion_sort_layers_sorted (l : list NvDsInferLayerInfo) :
  layers_sorted (insertion_sort_layers l).
Proof.
  unfold insertion_sort_layers. apply fold_left_invariant; [|constructor].
  intros a b Ha. apply layer_insert_sorted, Ha.
Qed.

Lemma insertion_sort_layers_conforming : conforming_layers insertion_sort_layers.
Proof.
  intros l. split;
    [apply insertion_sort_layers_perm | apply insertion_sort_layers_sorted].
Qed.

Section LayerSort.

(** [std::sort], as [SortLayers] is linked with it. *)
Variable std_sort : layer_sort_t.
Hypothesis std_sort_conforming : conforming_layers std_sort.

Lemma SortLayers_perm (l : list NvDsInferLayerInfo) :
  Permutation (SortLayers std_sort l) l.
Proof. apply std_sort_conforming. Qed.

Lemma SortLayers_length (l : list NvDsInferLayerInfo) :
  length (SortLayers std_sort l) = length l.
Proof. apply Permutation_length, SortLayers_perm. Qed.

Lemma SortLayers_layers_sorted (l : list NvDsInferLayerInfo) :
  layers_sorted (SortLayers std_sort l).
Proof. apply std_sort_conforming. Qed.

(** Layers of different heights have one ascending order only. *)
Lemma SortLayers_is (l l' : list NvDsInferLayerInfo) :
  distinct_heights l -> Permutation l' l -> layers_sorted l' ->
  SortLayers std_sort l = l'.
Proof.
  intros HD HP Hs.
  apply (sorted_perm_unique (fun a b => (dim a 1 <= dim b 1)%Z)).
  - eapply perm_trans; [apply SortLayers_perm | apply Permutation_sym, HP].
  - apply SortLayers_layers_sorted.
  - exact Hs.
  - intros x y Hx Hy H1 H2.
    apply HD; [apply (Permutation_in _ (SortLayers_perm l)), Hx
              |apply (Permutation_in _ (SortLayers_perm l)), Hy | lia].
Qed.

Lemma SortLayers_unique (l l' : list NvDsInferLayerInfo) :
  Permutation l l' -> distinct_heights l ->
  SortLayers std_sort l = SortLayers std_sort l'.
Proof.
  intros HP HD. apply SortLayers_is; [exact HD| |].
  - eapply perm_trans; [apply SortLayers_perm | apply Permutation_sym, HP].
  - apply SortLayers_layers_sorted.
Qed.

End LayerSort.

Lemma strict_heights_distinct (l : list NvDsInferLayerInfo) :
  strict_heights l = true -> distinct_heights l.
Proof.
  induction l as [|a r IH]; intros H x y Hx Hy E; [destruct Hx|].
  cbn [strict_heights] in H. apply andb_true_iff in H as [Ha Hr].
  rewrite forallb_forall in Ha.
  destruct Hx as [<-|Hx], Hy as [<-|Hy].
  - reflexivity.
  - specialize (Ha y Hy). apply Z.ltb_lt in Ha. lia.
  - specialize (Ha x Hx). apply Z.ltb_lt in Ha. lia.
  - now apply (IH Hr).
Qed.

(** Every conforming sort orders determined layers as the insertion sort
    does. *)
Lemma layers_determined_sort (std_sort : layer_sort_t)
    (l : list NvDsInferLayerInfo) :
  conforming_layers std_sort -> layers_determined l = true ->
  SortLayers std_sort l = insertion_sort_layers l.
Proof.
  intros Hs H. apply (SortLayers_is std_sort Hs).
  - intros x y Hx Hy. apply (strict_heights_distinct _ H);
      apply (Permutation_in _ (Permutation_sym (insertion_sort_layers_perm l)));
      assumption.
  - apply insertion_sort_layers_perm.
  - apply insertion_sort_layers_sorted.
Qed.

(** ** [NvDsInferParseYoloV3] *)

Lemma DIVUP_width (networkInfo : NvDsInferNetworkInfo)
    (layer : NvDsInferLayerInfo) :
  u32 (dim layer 2) <> 0%Z ->
  DIVUP (net_width networkInfo) (dim layer 2)
  = Some (width_stride networkInfo layer).
Proof.
  intros H. unfold DIVUP, width_stride. apply Z.eqb_neq in H. now rewrite H.
Qed.

Lemma DIVUP_height (networkInfo : NvDsInferNetworkInfo)
    (layer : NvDsInferLayerInfo) :
  u32 (dim layer 1) <> 0%Z ->
  DIVUP (net_height networkInfo) (dim layer 1)
  = Some (height_stride networkInfo layer).
Proof.
  intros H. unfold DIVUP, height_stride. apply Z.eqb_neq in H. now rewrite H.
Qed.

Lemma DIVUP_zero (n d : Z) : u32 d = 0%Z -> DIVUP n d = None.
Proof. intros H. unfold DIVUP. now rewrite H. Qed.

(** The two checks on an accepted layer let the loop go on. *)
Lemma layer_accepted_checks (NDEBUG : bool) (networkInfo : NvDsInferNetworkInfo)
    (layer : NvDsInferLayerInfo) :
  layer_accepted NDEBUG networkInfo layer ->
  negb NDEBUG && negb (numDims (inferDims layer) =? 3)%Z = false
  /\ DIVUP (net_width networkInfo) (dim layer 2)
     = Some (width_stride networkInfo layer)
  /\ stride_assert NDEBUG (width_stride networkInfo layer)
                   (net_height networkInfo) (dim layer 1) = None.
Proof.
  intros [HW HD]. split; [|split].
  - destruct NDEBUG; [reflexivity|].
    destruct (HD eq_refl) as (H3 & _). apply Z.eqb_eq in H3. now rewrite H3.
  - now apply DIVUP_width.
  - unfold stride_assert. destruct NDEBUG; [reflexivity|].
    destruct (HD eq_refl) as (_ & HH & E).
    rewrite (DIVUP_height networkInfo layer HH), E, Z.eqb_refl. reflexivity.
Qed.

(** On accepted layers the loop of [NvDsInferParseYoloV3] decodes each
    layer with its stride by the width. *)
Lemma v3_layers_decodes (NDEBUG : bool) (networkInfo : NvDsInferNetworkInfo)
    (anchors : list float) :
  forall layers masks objects,
    Forall (layer_accepted NDEBUG networkInfo) layers ->
    v3_layers NDEBUG networkInfo anchors layers masks objects
    = Returned true (objects ++ v3_objects networkInfo anchors layers masks).
Proof.
  induction layers as [|layer layers IH]; intros masks objects HA.
  - simpl. now rewrite app_nil_r.
  - destruct masks as [|mask masks]; [simpl; now rewrite app_nil_r|].
    inversion HA as [|? ? Hl HA']; subst.
    destruct (layer_accepted_checks NDEBUG networkInfo layer Hl)
      as (C1 & C2 & C3).
    cbn [v3_layers]. rewrite C1, C2, C3. rewrite (IH masks _ HA').
    unfold v3_objects. cbn [combine flat_map fst snd].
    now rewrite app_assoc.
Qed.

(** Whenever the loop returns, it has decoded each layer with its stride by
    the width. *)
Lemma v3_layers_returned (NDEBUG : bool) (networkInfo : NvDsInferNetworkInfo)
    (anchors : list float) :
  forall layers masks objects ok objs,
    v3_layers NDEBUG networkInfo anchors layers masks objects
    = Returned ok objs ->
    ok = true
    /\ objs = objects ++ v3_objects networkInfo anchors layers masks.
Proof.
  induction layers as [|layer layers IH]; intros masks objects ok objs E.
  - simpl in E. injection E as <- <-. now rewrite app_nil_r.
  - destruct masks as [|mask masks];
      [simpl in E; injection E as <- <-; now rewrite app_nil_r|].
    cbn [v3_layers] in E.
    destruct (negb NDEBUG && negb (numDims (inferDims layer) =? 3)%Z);
      [discriminate|].
    unfold DIVUP in E at 1.
    destruct (u32 (dim layer 2) =? 0)%Z; [discriminate|].
    fold (width_stride networkInfo layer) in E.
    destruct (stride_assert NDEBUG (width_stride networkInfo layer)
                (net_height networkInfo) (dim layer 1)) as [stopped|] eqn:S.
    + unfold stride_assert in S. destruct NDEBUG; [discriminate|].
      destruct (DIVUP (net_height networkInfo) (dim layer 1)) as [s|];
        [|injection S as <-; discriminate].
      destruct (width_stride networkInfo layer =? s)%Z; [discriminate|].
      injection S as <-. discriminate.
    + apply IH in E as [-> ->]. split; [reflexivity|].
      unfold v3_objects. cbn [combine flat_map fst snd].
      now rewrite app_assoc.
Qed.

(** With the assertions compiled in, a layer whose strides disagree stops
    the program. *)
Lemma v3_layers_assert (networkInfo : NvDsInferNetworkInfo)
    (anchors : list float) :
  forall layers masks objects,
    length layers = length masks ->
    Forall grid_nonzero layers ->
    (exists layer, In layer layers /\ stride_disagrees networkInfo layer) ->
    v3_layers false networkInfo anchors layers masks objects = AssertionFailed.
Proof.
  induction layers as [|layer layers IH]; intros masks objects Hl HG Hb.
  - destruct Hb as (? & [] & _).
  - destruct masks as [|mask masks]; [discriminate|].
    inversion HG as [|? ? [G1 G2] HG']; subst.
    cbn [v3_layers negb andb].
    destruct (numDims (inferDims layer) =? 3)%Z; [|reflexivity].
    cbn [negb]. rewrite (DIVUP_width networkInfo layer G2).
    unfold stride_assert. rewrite (DIVUP_height networkInfo layer G1).
    destruct (width_stride networkInfo layer
              =? height_stride networkInfo layer)%Z eqn:E; [|reflexivity].
    apply IH; [simpl in Hl; lia | exact HG' |].
    destruct Hb as (bad & [<-|Hin] & Hbad); [|eauto].
    apply Z.eqb_eq in E. now elim Hbad.
Qed.

(** With the assertions compiled out, a layer whose grid is zero wide makes
    the program divide by zero. *)
Lemma v3_layers_zero_width (networkInfo : NvDsInferNetworkInfo)
    (anchors : list float) :
  forall layers masks objects,
    length layers = length masks ->
    (exists layer, In layer layers /\ u32 (dim layer 2) = 0%Z) ->
    v3_layers true networkInfo anchors layers masks objects = DivisionByZero.
Proof.
  induction layers as [|layer layers IH]; intros masks objects Hl Hb.
  - destruct Hb as (? & [] & _).
  - destruct masks as [|mask masks]; [discriminate|].
    cbn [v3_layers negb andb stride_assert].
    destruct (Z.eq_dec (u32 (dim layer 2)) 0) as [Z0 | NZ].
    + now rewrite (DIVUP_zero _ _ Z0).
    + rewrite (DIVUP_width networkInfo layer NZ).
      apply IH; [simpl in Hl; lia|].
      destruct Hb as (bad & [<-|Hin] & Hbad); [contradiction | eauto].
Qed.

Lemma v3_objects_ok (networkInfo : NvDsInferNetworkInfo)
    (anchors : list float) (layers : list NvDsInferLayerInfo)
    (masks : list (list Z)) :
  (0 <= net_width networkInfo)%Z -> (0 <= net_height networkInfo)%Z ->
  Forall (box_ok (net_width networkInfo) (net_height networkInfo))
         (v3_objects networkInfo anchors layers masks).
Proof.
  intros HW HH. unfold v3_objects. apply Forall_forall. intros o Ho.
  apply in_flat_map in Ho as (lm & _ & Ho). revert o Ho.
  apply Forall_forall. now apply decodeYoloV3Tensor_ok.
Qed.

(* ================================================================== *)
(** * [NvDsInferParseCustomYoloTLT] *)

Section TLTLoop.

Variable networkInfo : NvDsInferNetworkInfo.
Variable keepCount0 : Z.
Variables boxes scores clss : list float.

Local Abbreviation loop fuel i ol :=
(tlt_loop fuel networkInfo keepCount0 boxes scores clss i ol).
Local Abbreviation emitted i n :=
(tlt_emitted networkInfo boxes scores clss i n).

Lemma tlt_emitted_step (i n : nat) :
  emitted i (S n)
  = (if tlt_rejected networkInfo (tlt_read boxes scores clss i) then []
     else [curObj (tlt_read boxes scores clss i)])
    ++ emitted (S i) n.
Proof.
  unfold tlt_emitted. cbn [seq map filter].
  now destruct (tlt_rejected networkInfo (tlt_read boxes scores clss i)).
Qed.

Lemma tlt_step_app (i : nat) (ol : list NvDsInferParseObjectInfo) :
  (if tlt_rejected networkInfo (tlt_read boxes scores clss i) then ol
   else ol ++ [curObj (tlt_read boxes scores clss i)])
  = ol ++ (if tlt_rejected networkInfo (tlt_read boxes scores clss i) then []
           else [curObj (tlt_read boxes scores clss i)]).
Proof.
  destruct (tlt_rejected networkInfo (tlt_read boxes scores clss i));
    [now rewrite app_nil_r | reflexivity].
Qed.

(** The loop appends the accepted entries among those it visits, which
    are the entries [i .. i + n - 1] for some [n]. *)
Lemma tlt_loop_spec :
  forall fuel i ol,
    exists n, n <= fuel
              /\ (Z.of_nat (i + n) <= Z.max keepCount0 (Z.of_nat i))%Z
              /\ loop fuel i ol = ol ++ emitted i n.
Proof.
  induction fuel as [|fuel IH]; intros i ol.
  - exists 0. repeat split; [lia | lia | simpl; now rewrite app_nil_r].
  - cbn [tlt_loop].
    destruct ((Z.of_nat i <? keepCount0)%Z && (length ol <=? topK)) eqn:E.
    + destruct (IH (S i)
                  (if tlt_rejected networkInfo (tlt_read boxes scores clss i)
                   then ol
                   else ol ++ [curObj (tlt_read boxes scores clss i)]))
        as (n & Hn & Hk & ->).
      exists (S n). apply andb_true_iff in E. destruct E as [E _].
      apply Z.ltb_lt in E.
      repeat split; [lia | lia |].
      rewrite tlt_emitted_step, tlt_step_app, <- app_assoc. reflexivity.
    + exists 0. repeat split; [lia | lia | simpl; now rewrite app_nil_r].
Qed.


(** A list already over the cap is returned as it is. *)
Lemma tlt_loop_full (fuel i : nat) (ol : list NvDsInferParseObjectInfo) :
  topK < length ol -> loop fuel i ol = ol.
Proof.
  intros H. destruct fuel; [reflexivity|]. cbn [tlt_loop].
  replace (length ol <=? topK) with false
    by (symmetry; apply Nat.leb_gt; lia).
  now rewrite andb_false_r.
Qed.

(** Fuel beyond [keepCount[0] - i] changes nothing. *)
Lemma tlt_loop_fuel (extra : nat) :
  forall fuel i ol,
    (keepCount0 - Z.of_nat i <= Z.of_nat fuel)%Z ->
    loop (fuel + extra) i ol = loop fuel i ol.
Proof.
  induction fuel as [|fuel IH]; intros i ol H.
  - simpl. destruct extra; [reflexivity|]. cbn [tlt_loop].
    replace ((Z.of_nat i <? keepCount0)%Z) with false
      by (symmetry; apply Z.ltb_ge; lia).
    reflexivity.
  - cbn [tlt_loop plus].
    destruct ((Z.of_nat i <? keepCount0)%Z && (length ol <=? topK));
      [|reflexivity].
    apply IH. lia.
Qed.


Lemma tlt_emitted_ok (i n : nat) :
  Forall (tlt_ok networkInfo) (emitted i n).
Proof.
  unfold tlt_emitted. apply Forall_forall. intros o Ho.
  apply in_map_iff in Ho. destruct Ho as (e & <- & He).
  apply filter_In in He. destruct He as [_ He].
  apply negb_true_iff in He. unfold tlt_rejected in He.
  repeat (apply orb_false_iff in He; destruct He as [He ?]).
  repeat match goal with
         | H : _ || _ = false |- _ =>
             apply orb_false_iff in H; destruct H
         end.
  unfold tlt_ok. cbn [curObj detectionConfidence left top width height].
  repeat split; assumption.
Qed.



End TLTLoop.

(** * [NvDsInferParseYoloV5] *)

Lemma oinfo_of_ok (std_sort : sort_t) (cap : nat) (output : list float)
    (nt : float) :
  conforming std_sort ->
  Forall v5_ok (map oinfo_of (nms std_sort cap [] output CONF_THRESH nt)).
Proof.
  intros Hs. apply Forall_forall. intros o Ho. apply in_map_iff in Ho.
  destruct Ho as (r & <- & Hr). apply (nms_In_survivors std_sort Hs) in Hr.
  apply above_survivors in Hr. unfold above in Hr.
  apply negb_true_iff in Hr.
  unfold v5_ok, oinfo_of.
  cbn [detectionConfidence left top width height].
  repeat split; try exact Hr; apply of_Z_nonneg, to_uint_nonneg.
Qed.

(* ================================================================== *)
(** * [iou]: the claim *)

(** C9, as stated, fails in binary32: the unit box centred at x = 2^24 has
    a positive width and height, yet both of its horizontal edges round to
    2^24, the intersection is empty and [iou] of the box with itself is 0
    instead of 1. *)
Lemma iou_self_not_one :
  forallb F32.representable
          [b0 far_box; b1 far_box; b2 far_box; b3 far_box] = true
  /\ F32.ltb F32.zero (b2 far_box) = true
  /\ F32.ltb F32.zero (b3 far_box) = true
  /\ iou far_box far_box = F32.zero.
Proof. vm_compute. repeat split. Qed.

(** On larger boxes the products overflow and [iou] is a NaN. *)
Lemma iou_self_overflow :
  iou (mkBox F32.zero F32.zero (F32.of_scaled 1 70) (F32.of_scaled 1 70))
      (mkBox F32.zero F32.zero (F32.of_scaled 1 70) (F32.of_scaled 1 70))
  = S754_nan.
Proof. vm_compute. reflexivity. Qed.

(** Rounding alone takes [iou] of a box with itself above 1 at ordinary
    pixel coordinates. *)
Lemma iou_self_above_one :
  forallb F32.representable
          [b0 pixel_box; b1 pixel_box; b2 pixel_box; b3 pixel_box] = true
  /\ F32.gtb (iou pixel_box pixel_box) one = true.
Proof. vm_compute. split; reflexivity. Qed.

(** C9, amended.  In exact arithmetic, for boxes of positive width and
    height, [iou] lies between 0 and 1, [iou] of a box with itself is 1,
    and the denominator is positive whenever the division is reached.  In
    binary32 [iou] returns exactly zero whenever the horizontal or the
    vertical span of the intersection is inverted. *)
Theorem iou_bounds_in_exact_arithmetic (a b : bbox4 Q) (l r : bbox4 float) :
  (0 < b2 a)%Q -> (0 < b3 a)%Q -> (0 < b2 b)%Q -> (0 < b3 b)%Q ->
  ((0 <= iouQ a b)%Q /\ (iouQ a b <= 1)%Q /\ (iouQ a a == 1)%Q
   /\ (inverted Qgtb (interBox Qplus Qminus Qdiv Qstd_max Qstd_min 2%Q a b)
       = false ->
       (0 < unionS Qplus Qminus Qmult Qdiv Qstd_max Qstd_min 2%Q a b)%Q))
  /\ (inverted F32.gtb
               (interBox F32.add F32.sub F32.div F32.std_max F32.std_min
                         F32.two l r) = true ->
      iou l r = F32.zero).
Proof.
  intros Wa Ha Wb Hb. split.
  - destruct (iouQ_bounds a b Wa Ha Wb Hb) as (B0 & B1 & U).
    repeat split; auto. now apply iouQ_self.
  - intros H. unfold iou, iou_gen. now rewrite H.
Qed.

Lemma iou_bounds_in_exact_arithmetic_witness :
  ((0 <= iouQ qbox_A qbox_B) /\ iouQ qbox_A qbox_B <= 1)%Q
  /\ iou (bbox nms_C) (bbox nms_D) = F32.zero.
Proof.
  destruct (iou_bounds_in_exact_arithmetic
              qbox_A qbox_B (bbox nms_C) (bbox nms_D))
    as [(B0 & B1 & _) Z]; try reflexivity.
  split; [split; assumption|]. apply Z. vm_compute. reflexivity.
Defined.

(* ================================================================== *)
(** * The grid-anchor decoders: the claims *)

(** C2: the code departs from the claim.  [addBBoxProposal] makes no test
    on the confidence: in either build, on three layers whose first has a
    1 x 1 grid, the objectness -1 and the class score 0.5,
    [NvDsInferParseCustomYoloV3] emits one detection, whose confidence is
    -0.5, where the claim has a candidate of raw confidence below zero
    rejected. *)
Theorem grid_decoder_emits_negative_confidence
    (std_sort : layer_sort_t) (NDEBUG : bool) :
  conforming_layers std_sort ->
  exists o,
    NvDsInferParseCustomYoloV3 std_sort NDEBUG v3_negative net_32x32 80 []
    = Returned true [o]
    /\ detectionConfidence o = F32.mul (F32.of_Z (-1)) F32.half
    /\ F32.ltb (detectionConfidence o) F32.zero = true.
Proof.
  intros Hs. unfold NvDsInferParseCustomYoloV3, NvDsInferParseYoloV3.
  rewrite (layers_determined_sort std_sort v3_negative Hs)
    by (vm_compute; reflexivity).
  destruct NDEBUG; eexists; vm_compute; repeat split.
Qed.

Lemma grid_decoder_emits_negative_confidence_witness :
  exists o,
    NvDsInferParseCustomYoloV3 insertion_sort_layers false v3_negative
                               net_32x32 80 []
    = Returned true [o]
    /\ detectionConfidence o = F32.mul (F32.of_Z (-1)) F32.half
    /\ F32.ltb (detectionConfidence o) F32.zero = true.
Proof.
  apply grid_decoder_emits_negative_confidence.
  apply insertion_sort_layers_conforming.
Defined.

(** C3, as stated, fails for the strides: on [v3_skewed] the number of
    layers equals the number of masks and the strides of the second layer
    disagree; with the assertions compiled in the program is stopped, with
    [NDEBUG] the call returns success with a detection.  In neither build
    does it return a decode failure. *)
Lemma stride_disagreement_is_no_decode_failure :
  stride_disagrees net_32x32 (empty_layer 2 4)
  /\ forall std_sort, conforming_layers std_sort ->
       NvDsInferParseCustomYoloV3 std_sort false v3_skewed net_32x32 80 []
       = AssertionFailed
       /\ exists o,
            NvDsInferParseCustomYoloV3 std_sort true v3_skewed net_32x32 80 []
            = Returned true [o].
Proof.
  split; [vm_compute; discriminate|].
  intros std_sort Hs. unfold NvDsInferParseCustomYoloV3, NvDsInferParseYoloV3.
  rewrite (layers_determined_sort std_sort v3_skewed Hs)
    by (vm_compute; reflexivity).
  split; [vm_compute; reflexivity|].
  eexists. vm_compute. reflexivity.
Qed.

(** C3, amended.  A number of output layers different from the number of
    anchor-mask groups makes [NvDsInferParseYoloV3] return a decode failure
    and leave the output list as it was.  A disagreement between the stride
    by the width and the stride by the height is checked by an [assert]
    only.  With the assertions compiled in, on layers whose grids are not
    zero wide or high, the program is stopped.  With [NDEBUG], on layers
    whose grids are not zero wide, the call returns success and leaves the
    detections of every layer decoded with its stride by the width; a grid
    zero wide makes it divide by zero.  In either build, whenever the call
    returns with as many layers as masks, it returns success with the
    detections decoded with the stride by the width. *)
Theorem yolov3_shape_checks
    (std_sort : layer_sort_t)
    (NDEBUG : bool) (outputLayersInfo : list NvDsInferLayerInfo)
    (networkInfo : NvDsInferNetworkInfo) (numClassesConfigured : Z)
    (objectList : list NvDsInferParseObjectInfo)
    (anchors : list float) (masks : list (list Z)) :
  conforming_layers std_sort ->
  (length outputLayersInfo <> length masks ->
   NvDsInferParseYoloV3 std_sort NDEBUG outputLayersInfo networkInfo
     numClassesConfigured objectList anchors masks
   = Returned false objectList)
  /\ (length outputLayersInfo = length masks ->
      Forall grid_nonzero outputLayersInfo ->
      (exists layer, In layer outputLayersInfo
                     /\ stride_disagrees networkInfo layer) ->
      NvDsInferParseYoloV3 std_sort false outputLayersInfo networkInfo
        numClassesConfigured objectList anchors masks
      = AssertionFailed)
  /\ (length outputLayersInfo = length masks ->
      Forall (fun layer => u32 (dim layer 2) <> 0%Z) outputLayersInfo ->
      NvDsInferParseYoloV3 std_sort true outputLayersInfo networkInfo
        numClassesConfigured objectList anchors masks
      = Returned true
          (v3_objects networkInfo anchors
             (SortLayers std_sort outputLayersInfo) masks))
  /\ (length outputLayersInfo = length masks ->
      (exists layer, In layer outputLayersInfo /\ u32 (dim layer 2) = 0%Z) ->
      NvDsInferParseYoloV3 std_sort true outputLayersInfo networkInfo
        numClassesConfigured objectList anchors masks
      = DivisionByZero)
  /\ (length outputLayersInfo = length masks ->
      forall ok objs,
        NvDsInferParseYoloV3 std_sort NDEBUG outputLayersInfo networkInfo
          numClassesConfigured objectList anchors masks
        = Returned ok objs ->
        ok = true
        /\ objs = v3_objects networkInfo anchors
                             (SortLayers std_sort outputLayersInfo) masks).
Proof.
  intros Hs. unfold NvDsInferParseYoloV3.
  rewrite (SortLayers_length std_sort Hs).
  assert (HS : forall x, In x outputLayersInfo ->
                         In x (SortLayers std_sort outputLayersInfo)).
  { intros x. apply Permutation_in, Permutation_sym, SortLayers_perm, Hs. }
  split; [|split; [|split; [|split]]].
  - intros H. apply Nat.eqb_neq in H. now rewrite H.
  - intros H HG (layer & Hin & Hbad). rewrite H, Nat.eqb_refl. cbn [negb].
    apply v3_layers_assert.
    + now rewrite (SortLayers_length std_sort Hs).
    + apply (Forall_perm _ _ _ (SortLayers_perm std_sort Hs _) HG).
    + exists layer. split; [now apply HS | exact Hbad].
  - intros H HW. rewrite H, Nat.eqb_refl. cbn [negb].
    rewrite v3_layers_decodes; [reflexivity|].
    apply (Forall_perm _ _ _ (SortLayers_perm std_sort Hs _)).
    eapply Forall_impl; [|exact HW]. cbv beta. intros layer Hl.
    split; [exact Hl | discriminate].
  - intros H (layer & Hin & Hz). rewrite H, Nat.eqb_refl. cbn [negb].
    apply v3_layers_zero_width.
    + now rewrite (SortLayers_length std_sort Hs).
    + exists layer. split; [now apply HS | exact Hz].
  - intros H ok objs. rewrite H, Nat.eqb_refl. cbn [negb]. intros E.
    apply v3_layers_returned in E. exact E.
Qed.

Lemma yolov3_shape_checks_witness :
  NvDsInferParseCustomYoloV3 insertion_sort_layers false
    [empty_layer 1 1; empty_layer 2 2] net_32x32 80 []
  = Returned false []
  /\ NvDsInferParseCustomYoloV3 insertion_sort_layers false v3_skewed
                                net_32x32 80 []
     = AssertionFailed
  /\ NvDsInferParseCustomYoloV3 insertion_sort_layers true v3_skewed
                                net_32x32 80 []
     = Returned true
         (v3_objects net_32x32 kANCHORS_V3
                     (SortLayers insertion_sort_layers v3_skewed) kMASKS_V3)
  /\ length (v3_objects net_32x32 kANCHORS_V3
                        (SortLayers insertion_sort_layers v3_skewed) kMASKS_V3)
     = 1.
Proof.
  split; [|split; [|split]].
  - apply (yolov3_shape_checks insertion_sort_layers false
             [empty_layer 1 1; empty_layer 2 2]
             net_32x32 80 [] kANCHORS_V3 kMASKS_V3
             insertion_sort_layers_conforming).
    simpl. lia.
  - apply (yolov3_shape_checks insertion_sort_layers false v3_skewed
             net_32x32 80 [] kANCHORS_V3 kMASKS_V3
             insertion_sort_layers_conforming).
    + reflexivity.
    + repeat constructor; vm_compute; discriminate.
    + exists (empty_layer 2 4). split; [simpl; tauto|].
      vm_compute. discriminate.
  - apply (yolov3_shape_checks insertion_sort_layers true v3_skewed
             net_32x32 80 [] kANCHORS_V3 kMASKS_V3
             insertion_sort_layers_conforming).
    + reflexivity.
    + repeat constructor; vm_compute; discriminate.
  - vm_compute. reflexivity.
Defined.

(* ================================================================== *)
(** * [NvDsInferParseCustomYoloTLT]: the claims *)

(** C4: the code departs from the claim.  The bottom edge [loc[3]] is
    compared with [networkInfo.width], not with [networkInfo.height]: on a
    network of width 100 and height 50 the entry with the box
    (10, 20, 30, 60) has its bottom edge beyond the height and is emitted
    all the same. *)
Theorem tlt_bottom_edge_compared_with_width :
  F32.gtb (loc3 tlt_tall_entry) (F32.of_Z (net_height net_100x50)) = true
  /\ tlt_rejected net_100x50 tlt_tall_entry = false
  /\ NvDsInferParseCustomYoloTLT tlt_tall net_100x50 80 []
     = Returned true [curObj tlt_tall_entry].
Proof. vm_compute. repeat split. Qed.

(** Scenario D of the specification: only the entry of confidence 0.7 is
    emitted. *)
Lemma tlt_scenario_D_emits_one :
  class_ids (NvDsInferParseCustomYoloTLT tlt_scenario_D net_100x50 80 [])
  = [4%Z].
Proof. vm_compute. reflexivity. Qed.


(* ================================================================== *)
(** * All decoders: the claims *)

(** C5, as stated, fails for the size and the place of the box.
    [NvDsInferParseYoloV5] truncates the sides to whole pixels and does not
    compare the box with the network: whatever conforming sort it is linked
    with, it emits the box half a pixel wide and high as a detection of
    width 0 and height 0, and on a network of 32 x 32 it emits the box
    centred at (1000, 1000), whose left and top edges are beyond the network.
    [NvDsInferParseCustomYoloTLT] emits the entry whose right and bottom
    edges are its left and top edges as a detection of width 0 and
    height 0. *)
Lemma decoders_emit_empty_or_outside_boxes :
  (forall std_sort, conforming std_sort ->
     exists o,
       NvDsInferParseYoloV5 std_sort v5_thin net_32x32 80 []
       = Returned true [o]
       /\ width o = F32.zero /\ height o = F32.zero)
  /\ (forall std_sort, conforming std_sort ->
        exists o,
          NvDsInferParseYoloV5 std_sort v5_far net_32x32 80 []
          = Returned true [o]
          /\ F32.gtb (left o) (F32.of_Z (net_width net_32x32)) = true
          /\ F32.gtb (top o) (F32.of_Z (net_height net_32x32)) = true)
  /\ exists o,
       NvDsInferParseCustomYoloTLT tlt_flat net_100x50 80 []
       = Returned true [o]
       /\ width o = F32.zero /\ height o = F32.zero.
Proof.
  split; [|split].
  - intros std_sort Hs. eexists.
    rewrite NvDsInferParseYoloV5_appends.
    rewrite (nms_determined std_sort) by
      (try exact Hs; vm_compute; reflexivity).
    vm_compute. repeat split.
  - intros std_sort Hs. eexists.
    rewrite NvDsInferParseYoloV5_appends.
    rewrite (nms_determined std_sort) by
      (try exact Hs; vm_compute; reflexivity).
    vm_compute. repeat split.
  - eexists. vm_compute. repeat split.
Qed.

(** C5, amended.  What each decoder guarantees of the box of a detection it
    emits, and the tests it makes on the confidence: the grid-anchor
    decoders, a box with left edge and width within [0, networkWidth], top
    edge and height within [0, networkHeight], and width and height of at
    least 1; [NvDsInferParseYoloV5] (and V4), linked with a conforming
    sort, non-negative box fields and a confidence that is not at or below
    0.4; [NvDsInferParseCustomYoloTLT], left and top edges that are not
    negative and not beyond the network width and height, a width and
    height not beyond them, and a confidence that is not above 1.001. *)
Theorem emitted_detections_guarantees
    (std_sort : sort_t) (std_sort_layers : layer_sort_t)
    (NDEBUG : bool) (scale_exp : float -> float -> float)
    (outputLayersInfo : list NvDsInferLayerInfo)
    (networkInfo : NvDsInferNetworkInfo) (numClassesConfigured : Z)
    (objectList : list NvDsInferParseObjectInfo)
    (anchors : list float) (masks : list (list Z)) :
  conforming std_sort ->
  (0 <= net_width networkInfo)%Z -> (0 <= net_height networkInfo)%Z ->
  (forall objs,
     NvDsInferParseYoloV3 std_sort_layers NDEBUG outputLayersInfo networkInfo
       numClassesConfigured objectList anchors masks = Returned true objs ->
     Forall (box_ok (net_width networkInfo) (net_height networkInfo)) objs)
  /\ (forall objs,
        NvDsInferParseYoloV2 scale_exp NDEBUG outputLayersInfo networkInfo
          numClassesConfigured objectList = Returned true objs ->
        Forall (box_ok (net_width networkInfo) (net_height networkInfo)) objs)
  /\ NvDsInferParseYoloV5 std_sort outputLayersInfo networkInfo
       numClassesConfigured objectList
     = Returned true
         (objectList
          ++ map oinfo_of
               (nms std_sort MAX_OUTPUT_BBOX_COUNT []
                    (as_floats (buffer (nth 0 outputLayersInfo layer0)))
                    CONF_THRESH NMS_THRESH))
  /\ Forall v5_ok
       (map oinfo_of
            (nms std_sort MAX_OUTPUT_BBOX_COUNT []
                 (as_floats (buffer (nth 0 outputLayersInfo layer0)))
                 CONF_THRESH NMS_THRESH))
  /\ (exists ok new,
        NvDsInferParseCustomYoloTLT outputLayersInfo networkInfo
          numClassesConfigured objectList = Returned ok (objectList ++ new)
        /\ Forall (tlt_ok networkInfo) new).
Proof.
  intros Hs HW HH. split; [|split; [|split; [|split]]].
  - intros objs. unfold NvDsInferParseYoloV3.
    destruct (negb (length (SortLayers std_sort_layers outputLayersInfo)
                        =? length masks));
      [discriminate|].
    intros E. apply v3_layers_returned in E as [_ ->].
    now apply v3_objects_ok.
  - intros objs. unfold NvDsInferParseYoloV2.
    destruct outputLayersInfo as [|layer rest]; [discriminate|].
    destruct (negb NDEBUG && negb (numDims (inferDims layer) =? 3)%Z);
      [discriminate|].
    destruct (DIVUP (net_width networkInfo) (dim layer 2)) as [stride|];
      [|discriminate].
    destruct (stride_assert NDEBUG stride (net_height networkInfo)
                (dim layer 1)) as [stopped|] eqn:S.
    + unfold stride_assert in S. destruct NDEBUG; [discriminate|].
      destruct (DIVUP (net_height networkInfo) (dim layer 1)) as [s|];
        [|injection S as <-; discriminate].
      destruct (stride =? s)%Z; [discriminate|].
      injection S as <-. discriminate.
    + intros H. injection H as <-. apply decodeYoloV2Tensor_ok; assumption.
  - apply NvDsInferParseYoloV5_appends.
  - now apply oinfo_of_ok.
  - unfold NvDsInferParseCustomYoloTLT.
    destruct (negb (length outputLayersInfo =? 4)).
    + exists false, []. split; [now rewrite app_nil_r | constructor].
    + match goal with
      | |- context [tlt_loop ?f ?n ?k ?b ?s ?c ?i ?ol] =>
          destruct (tlt_loop_spec n k b s c f i ol) as (m & _ & _ & ->)
      end.
      exists true. eexists. split; [reflexivity | apply tlt_emitted_ok].
Qed.

Lemma emitted_detections_guarantees_witness :
  Forall (box_ok 32 32)
         (v3_objects net_32x32 kANCHORS_V3
                     (SortLayers insertion_sort_layers v3_single) kMASKS_V3)
  /\ length (v3_objects net_32x32 kANCHORS_V3
                        (SortLayers insertion_sort_layers v3_single) kMASKS_V3)
     = 1
  /\ Forall v5_ok
       (map oinfo_of
            (nms insertion_sort MAX_OUTPUT_BBOX_COUNT []
                 (as_floats (buffer (nth 0 v5_thin layer0)))
                 CONF_THRESH NMS_THRESH))
  /\ length (nms insertion_sort MAX_OUTPUT_BBOX_COUNT []
                 (as_floats (buffer (nth 0 v5_thin layer0)))
                 CONF_THRESH NMS_THRESH) = 1.
Proof.
  split; [|split; [|split]].
  - apply (proj1 (emitted_detections_guarantees insertion_sort
                    insertion_sort_layers true F32.mul
                    v3_single net_32x32 80 [] kANCHORS_V3 kMASKS_V3
                    insertion_sort_conforming
                    ltac:(simpl; lia) ltac:(simpl; lia))).
    vm_compute. reflexivity.
  - vm_compute. reflexivity.
  - apply (emitted_detections_guarantees insertion_sort
             insertion_sort_layers true F32.mul
             v5_thin net_32x32 80 [] kANCHORS_V3 kMASKS_V3
             insertion_sort_conforming); simpl; lia.
  - vm_compute. reflexivity.
Defined.



(* ================================================================== *)
(** * Further properties of the grid-anchor decoders *)

(** X27. [addBBoxProposal] tests the size of the box only: with the box
    that [convertBBox] returns, it leaves [binfo] as it was when the width
    or the height of the box is below 1, and otherwise appends one
    detection, which has that box, inside the network, the class
    [maxIndex] and the confidence [maxProb] as they were passed. *)
Theorem addBBoxProposal_emission
    (bx by_ bw bh : float) (stride netW netH : Z)
    (maxIndex : Z) (maxProb : float) (binfo : list NvDsInferParseObjectInfo) :
  (0 <= netW)%Z -> (0 <= netH)%Z ->
  let bbi := convertBBox bx by_ bw bh (i32 stride) netW netH in
  (F32.ltb (width bbi) one || F32.ltb (height bbi) one = true
   /\ addBBoxProposal bx by_ bw bh stride netW netH maxIndex maxProb binfo
      = binfo)
  \/ (F32.ltb (width bbi) one || F32.ltb (height bbi) one = false
      /\ addBBoxProposal bx by_ bw bh stride netW netH maxIndex maxProb binfo
         = binfo ++ [ {| classId := u32 maxIndex;
                         left := left bbi; top := top bbi;
                         width := width bbi; height := height bbi;
                         detectionConfidence := maxProb |} ]
      /\ box_ok netW netH bbi).
Proof.
  intros HW HH bbi.
  destruct (addBBoxProposal_cases bx by_ bw bh stride netW netH maxIndex
              maxProb binfo HW HH) as [[E H]|[E (o & H & Hok & _)]].
  - left. split; assumption.
  - right. fold bbi in E. split; [exact E|].
    unfold addBBoxProposal in H |- *. fold bbi in H |- *.
    rewrite E in H |- *. split; [reflexivity|].
    apply app_inv_head in H. injection H as <-. exact Hok.
Qed.

Lemma addBBoxProposal_emission_witness :
  let bbi := convertBBox F32.half F32.half (F32.of_Z 8) (F32.of_Z 8)
                         (i32 32) 32 32 in
  addBBoxProposal F32.half F32.half (F32.of_Z 8) (F32.of_Z 8) 32 32 32
                  0 F32.half []
  = [] ++ [ {| classId := u32 0;
               left := left bbi; top := top bbi;
               width := width bbi; height := height bbi;
               detectionConfidence := F32.half |} ]
  /\ box_ok 32 32 bbi.
Proof.
  intros bbi.
  destruct (addBBoxProposal_emission F32.half F32.half (F32.of_Z 8)
              (F32.of_Z 8) 32 32 32 0 F32.half [] ltac:(lia) ltac:(lia))
    as [[E _] | [_ H]].
  - vm_compute in E. discriminate.
  - exact H.
Defined.

(* ================================================================== *)
(** * Further properties of [iou] *)

Lemma F32_add_comm (x y : float) : F32.add x y = F32.add y x.
Proof.
  unfold F32.add, SFadd.
  destruct x as [sx|sx| |sx mx ex], y as [sy|sy| |sy my ey]; try reflexivity;
    try (destruct sx, sy; reflexivity).
  rewrite (Z.min_comm ey ex), Z.add_comm. reflexivity.
Qed.

Lemma std_max_agree (x y : float) :
  agree x y -> F32.std_max x y = F32.std_max y x.
Proof.
  unfold F32.std_max. intros [H | [H | H]].
  - rewrite H, (ltb_asym _ _ H). reflexivity.
  - rewrite H, (ltb_asym _ _ H). reflexivity.
  - subst. reflexivity.
Qed.

Lemma std_min_agree (x y : float) :
  agree x y -> F32.std_min x y = F32.std_min y x.
Proof.
  unfold F32.std_min. intros [H | [H | H]].
  - rewrite H, (ltb_asym _ _ H). reflexivity.
  - rewrite H, (ltb_asym _ _ H). reflexivity.
  - subst. reflexivity.
Qed.

Lemma interBox_agree (l r : bbox4 float) :
  edges_agree l r ->
  interBox F32.add F32.sub F32.div F32.std_max F32.std_min F32.two l r
  = interBox F32.add F32.sub F32.div F32.std_max F32.std_min F32.two r l.
Proof.
  intros (H0 & H1 & H2 & H3). unfold interBox.
  f_equal; [exact (std_max_agree _ _ H0) | exact (std_min_agree _ _ H1)
           | exact (std_max_agree _ _ H2) | exact (std_min_agree _ _ H3)].
Qed.

(** X1. [iou] is symmetric, bit for bit, whenever each pair of edges it
    compares is ordered or identical: [iou(l, r) = iou(r, l)].  (With a NaN
    edge beside a number, or the two zeros, [std::max] and [std::min] return
    their first argument and the symmetry can fail.) *)
Theorem iou_symmetric (l r : bbox4 float) :
  edges_agree l r -> iou l r = iou r l.
Proof.
  intros H. unfold iou, iou_gen, unionS. cbv zeta.
  rewrite (interBox_agree l r H).
  match goal with
  | |- context [F32.add ?a ?b] => rewrite (F32_add_comm a b)
  end.
  reflexivity.
Qed.

Lemma iou_symmetric_witness :
  iou (bbox nms_A) (bbox nms_B) = iou (bbox nms_B) (bbox nms_A).
Proof.
  apply iou_symmetric. unfold edges_agree, agree.
  repeat split; vm_compute; auto.
Defined.

Lemma ltb_below (x y z : float) :
  F32.ltb x y = true -> F32.ltb z y = false -> F32.is_nan z = false ->
  F32.ltb x z = true.
Proof.
  intros Hxy Hzy Nz. destruct (F32.ltb x z) eqn:E; [reflexivity|].
  pose proof (ltb_is_nan_l _ _ Hxy) as Nx.
  pose proof (ltb_is_nan_r _ _ Hxy) as Ny.
  pose proof (not_ltb_leb x z Nx Nz E) as L1.
  pose proof (not_ltb_leb z y Nz Ny Hzy) as L2.
  pose proof (leb_not_gtb _ _ (leb_trans _ _ _ L2 L1)) as F.
  unfold F32.gtb, F32.ltb in *. congruence.
Qed.

Lemma ltb_above (x y z : float) :
  F32.ltb y z = true -> F32.ltb y x = false -> F32.is_nan x = false ->
  F32.ltb x z = true.
Proof.
  intros Hyz Hyx Nx. destruct (F32.ltb x z) eqn:E; [reflexivity|].
  pose proof (ltb_is_nan_l _ _ Hyz) as Ny.
  pose proof (ltb_is_nan_r _ _ Hyz) as Nz.
  pose proof (not_ltb_leb x z Nx Nz E) as L1.
  pose proof (not_ltb_leb y x Ny Nx Hyx) as L2.
  pose proof (leb_not_gtb _ _ (leb_trans _ _ _ L1 L2)) as F.
  unfold F32.gtb, F32.ltb in *. congruence.
Qed.

(** With the spans [A .. C] and [B .. D], one ending before the other
    begins, the larger beginning is above the smaller end. *)
Lemma spans_apart (A B C D : float) :
  F32.is_nan A = false -> F32.is_nan C = false ->
  F32.ltb C B = true \/ F32.ltb D A = true ->
  F32.gtb (F32.std_max A B) (F32.std_min C D) = true.
Proof.
  intros NA NC H. unfold F32.gtb, F32.std_max, F32.std_min.
  change SFltb with F32.ltb. destruct H as [H | H].
  - assert (M : F32.ltb (if F32.ltb D C then D else C) B = true).
    { destruct (F32.ltb D C) eqn:E; [apply (ltb_trans _ _ _ E H) | exact H]. }
    destruct (F32.ltb A B) eqn:E; [exact M|].
    apply (ltb_below _ B _ M E NA).
  - assert (M : F32.ltb (if F32.ltb D C then D else C) A = true).
    { destruct (F32.ltb D C) eqn:E; [exact H|].
      apply (ltb_above C D A H E NC). }
    destruct (F32.ltb A B) eqn:E; [apply (ltb_trans _ _ _ M E) | exact M].
Qed.

(** X24. Boxes that are apart have an IoU of exactly zero, whatever their
    sizes: when no edge is a NaN and one box ends before the other begins,
    along x or along y, [iou] returns 0, and with a threshold that is not
    negative neither box suppresses the other. *)
Theorem iou_apart_zero (l r : bbox4 float) (nt : float) :
  edges_not_nan l = true -> edges_not_nan r = true -> apart l r ->
  iou l r = F32.zero
  /\ (F32.ltb nt F32.zero = false -> F32.gtb (iou l r) nt = false).
Proof.
  intros Nl Nr H.
  unfold edges_not_nan in Nl, Nr.
  repeat (apply andb_true_iff in Nl as [Nl ?]).
  repeat (apply andb_true_iff in Nr as [Nr ?]).
  repeat match goal with
         | H : negb (F32.is_nan ?e) = true |- _ =>
             apply negb_true_iff in H
         end.
  assert (I : inverted F32.gtb
                (interBox F32.add F32.sub F32.div F32.std_max F32.std_min
                          F32.two l r) = true).
  { unfold inverted, interBox. cbn [ib_left ib_right ib_top ib_bottom].
    apply orb_true_iff.
    destruct H as [H | [H | [H | H]]].
    - right. apply (spans_apart (edge_left l) (edge_left r)
                                (edge_right l) (edge_right r)); auto.
    - right. apply (spans_apart (edge_left l) (edge_left r)
                                (edge_right l) (edge_right r)); auto.
    - left. apply (spans_apart (edge_top l) (edge_top r)
                               (edge_bottom l) (edge_bottom r)); auto.
    - left. apply (spans_apart (edge_top l) (edge_top r)
                               (edge_bottom l) (edge_bottom r)); auto. }
  assert (E : iou l r = F32.zero).
  { unfold iou, iou_gen. now rewrite I. }
  split; [exact E|]. intros Hn. rewrite E. exact Hn.
Qed.

Lemma iou_apart_zero_witness :
  iou (bbox nms_C) (bbox nms_D) = F32.zero
  /\ (F32.ltb F32.half F32.zero = false ->
      F32.gtb (iou (bbox nms_C) (bbox nms_D)) F32.half = false).
Proof.
  apply iou_apart_zero; [reflexivity | reflexivity |].
  left. reflexivity.
Defined.

(* ================================================================== *)
(** * The buffer layout *)

(** X11. The buffer layout round trip: a buffer that holds the count of at
    most 1000 detections and then six floats a detection is read back by
    the first loop of [nms] as those detections, in order. *)
Theorem buffer_layout_round_trip (R : list Detection) :
  length R <= MAX_OUTPUT_BBOX_COUNT ->
  length (encode R) = 1 + det_size * length R
  /\ candidates MAX_OUTPUT_BBOX_COUNT (encode R) = R.
Proof.
  intros H. split; [apply encode_length | apply candidates_encode, H].
Qed.

Lemma buffer_layout_round_trip_witness :
  length (encode [nms_A; nms_B]) = 1 + det_size * length [nms_A; nms_B]
  /\ candidates MAX_OUTPUT_BBOX_COUNT (encode [nms_A; nms_B]) = [nms_A; nms_B].
Proof.
  apply (buffer_layout_round_trip [nms_A; nms_B]).
  unfold MAX_OUTPUT_BBOX_COUNT. simpl. lia.
Defined.

(* ================================================================== *)
(** * The grid-anchor decoders: the class loop *)

Section ClassLoop.

Variable c : Z -> float.

Local Abbreviation step :=
  (fun (acc : float * Z) (i : Z) =>
     if F32.gtb (c i) (fst acc) then (c i, i) else acc).

Lemma class_loop_spec (l : list Z) :
  let r := fold_left step l (F32.zero, (-1)%Z) in
  (forall i, In i l -> F32.gtb (c i) (fst r) = false)
  /\ (r = (F32.zero, (-1)%Z)
      \/ (In (snd r) l /\ fst r = c (snd r)
          /\ F32.gtb (fst r) F32.zero = true)).
Proof.
  induction l as [|i l IH] using rev_ind; cbv zeta.
  - split; [intros i []|]. left. reflexivity.
  - rewrite fold_left_app. cbn [fold_left].
    cbv zeta in IH. destruct IH as [Hb Hr].
    set (r := fold_left step l (F32.zero, (-1)%Z)) in *.
    destruct (F32.gtb (c i) (fst r)) eqn:E.
    + cbn [fst snd]. split.
      * intros j Hj. apply in_app_or in Hj as [Hj | [<- | []]].
        -- destruct (F32.gtb (c j) (c i)) eqn:E'; [|reflexivity].
           pose proof (ltb_trans _ _ _ E E') as T.
           pose proof (Hb j Hj) as F.
           unfold F32.gtb, F32.ltb in *. congruence.
        -- apply ltb_irrefl.
      * right. split; [apply in_or_app; right; left; reflexivity|].
        split; [reflexivity|].
        destruct Hr as [Hr | (_ & _ & Hr)]; [rewrite Hr in E; exact E|].
        apply (ltb_trans _ _ _ Hr E).
    + split.
      * intros j Hj. apply in_app_or in Hj as [Hj | [<- | []]]; auto.
      * destruct Hr as [Hr | (Hi & Hr)]; [left; exact Hr|].
        right. split; [apply in_or_app; left; exact Hi | exact Hr].
Qed.

Lemma class_loop_none (l : list Z) :
  forallb (fun i => negb (F32.gtb (c i) F32.zero)) l = true ->
  fold_left step l (F32.zero, (-1)%Z) = (F32.zero, (-1)%Z).
Proof.
  induction l as [|i l IH]; cbn [forallb fold_left fst]; intros H;
    [reflexivity|].
  apply andb_true_iff in H as [H1 H2].
  destruct (F32.gtb (c i) F32.zero); [discriminate | apply IH, H2].
Qed.

End ClassLoop.

(** X12. The loop over the classes of a grid cell returns a score that no
    class score of the cell exceeds; it returns the index -1 with the score
    0 when it never updates, and otherwise an index below the number of
    classes whose score is the returned one and is above 0. *)
Theorem best_class_running_maximum (detections : list float)
    (gw gh nc y x b : Z) :
  let r := best_class detections gw gh nc y x b in
  (forall i, In i (upto nc) ->
             F32.gtb (cell detections gw gh nc y x b (5 + i)) (fst r) = false)
  /\ (r = (F32.zero, (-1)%Z)
      \/ ((0 <= snd r < nc)%Z
          /\ fst r = cell detections gw gh nc y x b (5 + snd r)
          /\ F32.gtb (fst r) F32.zero = true)).
Proof.
  intros r.
  assert (HS : (forall i, In i (upto nc) ->
                  F32.gtb (cell detections gw gh nc y x b (5 + i)) (fst r)
                  = false)
               /\ (r = (F32.zero, (-1)%Z)
                   \/ (In (snd r) (upto nc)
                       /\ fst r = cell detections gw gh nc y x b (5 + snd r)
                       /\ F32.gtb (fst r) F32.zero = true))).
  { exact (class_loop_spec
             (fun i => cell detections gw gh nc y x b (5 + i)) (upto nc)). }
  clearbody r. destruct HS as [H1 H2].
  split; [exact H1|].
  destruct H2 as [H2 | (Hi & H2)]; [left; exact H2 | right].
  split; [|exact H2].
  unfold upto in Hi. apply in_map_iff in Hi as (n & En & Hn).
  apply in_seq in Hn. lia.
Qed.

(** X13. A cell none of whose class scores is above zero is still proposed:
    with the class index -1, which the unsigned [classId] holds as
    4294967295, and the confidence objectness times 0; only the test on the
    size of the box can drop it. *)
Theorem unclassified_cell_class_id (detections : list float)
    (gw gh stride nc netW netH : Z) (size_of : float -> float -> float)
    (pw ph : float) (y x b : Z) (binfo : list NvDsInferParseObjectInfo) :
  no_class_score detections gw gh nc y x b = true ->
  best_class detections gw gh nc y x b = (F32.zero, (-1)%Z)
  /\ decode_cell detections gw gh stride nc netW netH size_of pw ph y x b
                 binfo
     = addBBoxProposal
         (F32.add (F32.of_Z x) (cell detections gw gh nc y x b 0))
         (F32.add (F32.of_Z y) (cell detections gw gh nc y x b 1))
         (size_of pw (cell detections gw gh nc y x b 2))
         (size_of ph (cell detections gw gh nc y x b 3))
         stride netW netH (-1)
         (F32.mul (cell detections gw gh nc y x b 4) F32.zero) binfo
  /\ (decode_cell detections gw gh stride nc netW netH size_of pw ph y x b
                  binfo = binfo
      \/ exists o,
           decode_cell detections gw gh stride nc netW netH size_of pw ph
                       y x b binfo = binfo ++ [o]
           /\ classId o = 4294967295%Z
           /\ detectionConfidence o
              = F32.mul (cell detections gw gh nc y x b 4) F32.zero).
Proof.
  intros H.
  assert (E : best_class detections gw gh nc y x b = (F32.zero, (-1)%Z)).
  { apply (class_loop_none
             (fun i => cell detections gw gh nc y x b (5 + i))). exact H. }
  split; [exact E|]. unfold decode_cell. rewrite E.
  split; [reflexivity|].
  unfold addBBoxProposal.
  match goal with
  | |- context [if ?t then _ else _] => destruct t
  end.
  - left. reflexivity.
  - right. eexists. split; [reflexivity|]. split; reflexivity.
Qed.

Lemma unclassified_cell_class_id_witness :
  let detections := as_floats (buffer (one_cell_layer one F32.zero)) in
  best_class detections 1 1 80 0 0 0 = (F32.zero, (-1)%Z)
  /\ decode_cell detections 1 1 32 80 32 32 F32.mul (F32.of_Z 10)
                 (F32.of_Z 13) 0 0 0 []
     = addBBoxProposal
         (F32.add (F32.of_Z 0) (cell detections 1 1 80 0 0 0 0))
         (F32.add (F32.of_Z 0) (cell detections 1 1 80 0 0 0 1))
         (F32.mul (F32.of_Z 10) (cell detections 1 1 80 0 0 0 2))
         (F32.mul (F32.of_Z 13) (cell detections 1 1 80 0 0 0 3))
         32 32 32 (-1)
         (F32.mul (cell detections 1 1 80 0 0 0 4) F32.zero) []
  /\ (decode_cell detections 1 1 32 80 32 32 F32.mul (F32.of_Z 10)
                  (F32.of_Z 13) 0 0 0 [] = []
      \/ exists o,
           decode_cell detections 1 1 32 80 32 32 F32.mul (F32.of_Z 10)
                       (F32.of_Z 13) 0 0 0 [] = [] ++ [o]
           /\ classId o = 4294967295%Z
           /\ detectionConfidence o
              = F32.mul (cell detections 1 1 80 0 0 0 4) F32.zero).
Proof.
  cbv zeta. apply unclassified_cell_class_id. vm_compute. reflexivity.
Defined.

(** The sample cell, of objectness 1 and a box of 10 x 13 pixels, is
    emitted so: one detection of class id 4294967295 and confidence 0. *)
Lemma unclassified_cell_sample :
  map (fun o => (classId o, detectionConfidence o))
      (decode_cell (as_floats (buffer (one_cell_layer one F32.zero)))
                   1 1 32 80 32 32 F32.mul (F32.of_Z 10) (F32.of_Z 13)
                   0 0 0 [])
  = [(4294967295%Z, F32.zero)].
Proof. vm_compute. reflexivity. Qed.

(* ================================================================== *)
(** * The grid-anchor decoders: NaN geometry *)

Lemma zero_of_clamp_nan (M : float) :
  F32.leb F32.zero M = true ->
  exists s, clamp S754_nan F32.zero M = S754_zero s.
Proof.
  intros H. unfold clamp, F32.std_max.
  change (F32.ltb F32.zero S754_nan) with false. cbv iota.
  unfold F32.std_min. destruct (F32.ltb F32.zero M) eqn:E.
  - exists false. reflexivity.
  - destruct M as [s|[|]| |[|] m e]; try discriminate.
    exists s. reflexivity.
Qed.

Lemma clamp_zero_span (M : float) (s : bool) :
  F32.leb F32.zero M = true ->
  F32.ltb (clamp (F32.sub (S754_zero s) (S754_zero s)) F32.zero M) one = true.
Proof.
  intros H.
  replace (F32.sub (S754_zero s) (S754_zero s)) with F32.zero
    by (destruct s; reflexivity).
  unfold clamp, F32.std_max. change (F32.ltb F32.zero F32.zero) with false.
  cbv iota. unfold F32.std_min. destruct (F32.ltb F32.zero M) eqn:E.
  - reflexivity.
  - destruct M as [s'|[|]| |[|] m e]; try discriminate.
    destruct s'; reflexivity.
Qed.

(** The clamped span of a box whose centre or size is a NaN is below 1. *)
Lemma nan_span (bx bw st M : float) :
  F32.leb F32.zero M = true ->
  F32.is_nan bx || F32.is_nan bw = true ->
  let x0 := F32.sub (F32.mul bx st) (F32.div bw F32.two) in
  let x1 := F32.add x0 bw in
  F32.ltb (clamp (F32.sub (clamp x1 F32.zero M) (clamp x0 F32.zero M))
                 F32.zero M) one = true.
Proof.
  intros HM H x0 x1.
  assert (E0 : x0 = S754_nan).
  { unfold x0. apply orb_true_iff in H as [H | H].
    - destruct bx; try discriminate. reflexivity.
    - destruct bw; try discriminate.
      destruct (F32.mul bx st); reflexivity. }
  assert (E1 : x1 = S754_nan) by (unfold x1; rewrite E0; reflexivity).
  rewrite E0, E1. destruct (zero_of_clamp_nan M HM) as [s ->].
  apply clamp_zero_span, HM.
Qed.

(** X14. A cell whose box centre or size is a NaN is never proposed:
    [addBBoxProposal] leaves the list as it was. *)
Theorem nan_box_never_proposed (bx by_ bw bh : float) (stride netW netH : Z)
    (maxIndex : Z) (maxProb : float) (binfo : list NvDsInferParseObjectInfo) :
  (0 <= netW)%Z -> (0 <= netH)%Z ->
  F32.is_nan bx || F32.is_nan bw || (F32.is_nan by_ || F32.is_nan bh) = true ->
  addBBoxProposal bx by_ bw bh stride netW netH maxIndex maxProb binfo = binfo.
Proof.
  intros HW HH H. unfold addBBoxProposal, convertBBox.
  cbn [width height].
  apply orb_true_iff in H as [H | H].
  - rewrite (nan_span bx bw _ _ (of_Z_nonneg netW HW) H). reflexivity.
  - rewrite (nan_span by_ bh _ _ (of_Z_nonneg netH HH) H).
    rewrite orb_true_r. reflexivity.
Qed.

Lemma nan_box_never_proposed_witness :
  addBBoxProposal S754_nan F32.half (F32.of_Z 10) (F32.of_Z 13) 32 32 32 0
                  F32.half []
  = [].
Proof. apply nan_box_never_proposed; [lia | lia | reflexivity]. Defined.

(* ================================================================== *)
(** * The grid-anchor decoders: the number of proposals *)

Lemma fold_left_length_bound {A B : Type} (f : list A -> B -> list A)
    (c : nat) (l : list B) :
  (forall a b, length (f a b) <= length a + c) ->
  forall a, length (fold_left f l a) <= length a + length l * c.
Proof.
  intros H. induction l as [|b l IH]; intros a; simpl; [lia|].
  specialize (IH (f a b)). specialize (H a b). lia.
Qed.

Lemma upto_length (n : Z) : length (upto n) = Z.to_nat n.
Proof. unfold upto. rewrite length_map, length_seq. reflexivity. Qed.

Lemma decode_grid_length (gw gh nb : Z)
    (round : Z -> Z -> Z -> list NvDsInferParseObjectInfo ->
             list NvDsInferParseObjectInfo) :
  (forall y x b binfo, length (round y x b binfo) <= S (length binfo)) ->
  length (decode_grid gw gh nb round)
  <= Z.to_nat gh * (Z.to_nat gw * Z.to_nat nb).
Proof.
  intros H. unfold decode_grid.
  rewrite <- (upto_length gh), <- (upto_length gw), <- (upto_length nb).
  apply (fold_left_length_bound _ (length (upto gw) * length (upto nb))
           (upto gh) ) with (a := []).
  intros a y.
  apply (fold_left_length_bound _ (length (upto nb)) (upto gw)).
  intros a' x.
  eapply Nat.le_trans;
    [apply (fold_left_length_bound _ 1 (upto nb))|lia].
  intros a'' b. specialize (H y x b a''). lia.
Qed.

Lemma decode_cell_length (detections : list float)
    (gw gh stride nc netW netH : Z) (size_of : float -> float -> float)
    (pw ph : float) (y x b : Z) (binfo : list NvDsInferParseObjectInfo) :
  length (decode_cell detections gw gh stride nc netW netH size_of pw ph
                      y x b binfo)
  <= S (length binfo).
Proof.
  unfold decode_cell.
  destruct (best_class detections gw gh nc y x b) as [maxProb maxIndex].
  unfold addBBoxProposal.
  match goal with
  | |- context [if ?t then _ else _] => destruct t
  end; [lia|]. rewrite length_app. simpl. lia.
Qed.

(** X15. The grid-anchor decoders propose at most one detection for a cell
    and an anchor: at most [gridSizeH * gridSizeW * numBBoxes] in all. *)
Theorem grid_decoder_count_bound (detections : list float)
    (gw gh stride nb nc netW netH : Z) (mask : list Z) (anchors : list float)
    (scale_exp : float -> float -> float) :
  length (decodeYoloV3Tensor detections gw gh stride nb nc netW netH
                             mask anchors)
  <= Z.to_nat gh * (Z.to_nat gw * Z.to_nat nb)
  /\ length (decodeYoloV2Tensor detections gw gh stride nb nc netW netH
                                scale_exp anchors)
     <= Z.to_nat gh * (Z.to_nat gw * Z.to_nat nb).
Proof.
  split.
  - unfold decodeYoloV3Tensor. apply decode_grid_length.
    intros y x b binfo. apply decode_cell_length.
  - unfold decodeYoloV2Tensor. apply decode_grid_length.
    intros y x b binfo. apply decode_cell_length.
Qed.

(* ================================================================== *)
(** * [SortLayers] and the layers of the grid-anchor decoders *)



(** X17. [NvDsInferParseYoloV3] does not depend on the order in which the
    output layers are passed, provided they differ in [inferDims.d[1]]:
    any rearrangement of the layers gives the same outcome. *)
Theorem yolov3_layer_order_irrelevant
    (std_sort : layer_sort_t)
    (NDEBUG : bool) (l l' : list NvDsInferLayerInfo)
    (networkInfo : NvDsInferNetworkInfo) (numClassesConfigured : Z)
    (objectList : list NvDsInferParseObjectInfo)
    (anchors : list float) (masks : list (list Z)) :
  conforming_layers std_sort ->
  Permutation l l' -> distinct_heights l ->
  NvDsInferParseYoloV3 std_sort NDEBUG l networkInfo numClassesConfigured
                       objectList anchors masks
  = NvDsInferParseYoloV3 std_sort NDEBUG l' networkInfo numClassesConfigured
                         objectList anchors masks.
Proof.
  intros Hs HP HD. unfold NvDsInferParseYoloV3.
  rewrite (SortLayers_unique std_sort Hs l l' HP HD). reflexivity.
Qed.

Lemma yolov3_layer_order_irrelevant_witness :
  NvDsInferParseYoloV3 insertion_sort_layers true v3_pyramid net_32x32 80 []
                       kANCHORS_V3 kMASKS_V3
  = NvDsInferParseYoloV3 insertion_sort_layers true (rev v3_pyramid)
                         net_32x32 80 [] kANCHORS_V3 kMASKS_V3.
Proof.
  apply yolov3_layer_order_irrelevant.
  - apply insertion_sort_layers_conforming.
  - apply Permutation_rev.
  - intros a b Ha Hb.
    destruct Ha as [<- | [<- | [<- | []]]];
      destruct Hb as [<- | [<- | [<- | []]]];
      intros H; try reflexivity; vm_compute in H; discriminate.
Defined.

(** X18. [NvDsInferParseYoloV2] reads the first layer only and overwrites
    the output list.  Without a layer it returns failure and leaves the list
    as it was.  With the assertions compiled out it decodes the layer with
    the stride by the width and returns success when the grid is not zero
    wide, and divides by zero when it is.  With assertions it stops the
    program when the first layer has not three dimensions, or when its grid
    is not zero wide or high and its two strides disagree; it divides by
    zero when the layer has three dimensions and a grid zero wide or high;
    otherwise it returns what the build without assertions returns. *)
Theorem yolov2_shape_checks
    (scale_exp : float -> float -> float) (NDEBUG : bool)
    (layer : NvDsInferLayerInfo) (rest : list NvDsInferLayerInfo)
    (networkInfo : NvDsInferNetworkInfo) (numClassesConfigured : Z)
    (objectList : list NvDsInferParseObjectInfo) :
  NvDsInferParseYoloV2 scale_exp NDEBUG [] networkInfo numClassesConfigured
                       objectList = Returned false objectList
  /\ NvDsInferParseYoloV2 scale_exp NDEBUG (layer :: rest) networkInfo
                          numClassesConfigured objectList
     = NvDsInferParseYoloV2 scale_exp NDEBUG [layer] networkInfo
                            numClassesConfigured []
  /\ (u32 (dim layer 2) <> 0%Z ->
      NvDsInferParseYoloV2 scale_exp true (layer :: rest) networkInfo
                           numClassesConfigured objectList
      = Returned true (v2_objects scale_exp networkInfo layer))
  /\ (u32 (dim layer 2) = 0%Z ->
      NvDsInferParseYoloV2 scale_exp true (layer :: rest) networkInfo
                           numClassesConfigured objectList
      = DivisionByZero)
  /\ (numDims (inferDims layer) <> 3%Z ->
      NvDsInferParseYoloV2 scale_exp false (layer :: rest) networkInfo
                           numClassesConfigured objectList
      = AssertionFailed)
  /\ (numDims (inferDims layer) = 3%Z -> grid_nonzero layer ->
      stride_disagrees networkInfo layer ->
      NvDsInferParseYoloV2 scale_exp false (layer :: rest) networkInfo
                           numClassesConfigured objectList
      = AssertionFailed)
  /\ (numDims (inferDims layer) = 3%Z ->
      u32 (dim layer 1) = 0%Z \/ u32 (dim layer 2) = 0%Z ->
      NvDsInferParseYoloV2 scale_exp false (layer :: rest) networkInfo
                           numClassesConfigured objectList
      = DivisionByZero)
  /\ (numDims (inferDims layer) = 3%Z -> grid_nonzero layer ->
      ~ stride_disagrees networkInfo layer ->
      NvDsInferParseYoloV2 scale_exp false (layer :: rest) networkInfo
                           numClassesConfigured objectList
      = NvDsInferParseYoloV2 scale_exp true (layer :: rest) networkInfo
                             numClassesConfigured objectList).
Proof.
  unfold NvDsInferParseYoloV2, stride_disagrees, stride_assert.
  cbn [negb andb].
  split; [reflexivity|]. split; [reflexivity|].
  split; [intros H; now rewrite (DIVUP_width networkInfo layer H)|].
  split; [intros H; now rewrite (DIVUP_zero _ _ H)|].
  split; [intros H; apply Z.eqb_neq in H; now rewrite H|].
  split; [|split].
  - intros H3 [G1 G2] HD. apply Z.eqb_eq in H3. rewrite H3. cbn [negb].
    rewrite (DIVUP_width networkInfo layer G2),
            (DIVUP_height networkInfo layer G1).
    apply Z.eqb_neq in HD. now rewrite HD.
  - intros H3 HZ. apply Z.eqb_eq in H3. rewrite H3. cbn [negb].
    destruct (Z.eq_dec (u32 (dim layer 2)) 0) as [Z2 | N2].
    + now rewrite (DIVUP_zero _ _ Z2).
    + destruct HZ as [Z1 | Z2]; [|contradiction].
      rewrite (DIVUP_width networkInfo layer N2).
      now rewrite (DIVUP_zero _ _ Z1).
  - intros H3 [G1 G2] HD. apply Z.eqb_eq in H3. rewrite H3. cbn [negb].
    rewrite (DIVUP_width networkInfo layer G2),
            (DIVUP_height networkInfo layer G1).
    destruct (Z.eqb_spec (width_stride networkInfo layer)
                         (height_stride networkInfo layer))
      as [E | E]; [reflexivity | contradiction].
Qed.

Lemma yolov2_shape_checks_witness :
  NvDsInferParseYoloV2 F32.mul false [empty_layer 1 2] net_32x32 80 []
  = AssertionFailed
  /\ NvDsInferParseYoloV2 F32.mul false [empty_layer 1 1] net_32x32 80 []
     = NvDsInferParseYoloV2 F32.mul true [empty_layer 1 1] net_32x32 80 []
  /\ NvDsInferParseYoloV2 F32.mul true [empty_layer 1 2] net_32x32 80
                          earlier_objects
     = Returned true (v2_objects F32.mul net_32x32 (empty_layer 1 2))
  /\ NvDsInferParseYoloV2 F32.mul true [empty_layer 1 0] net_32x32 80 []
     = DivisionByZero.
Proof.
  split; [|split; [|split]].
  - destruct (yolov2_shape_checks F32.mul false (empty_layer 1 2) []
                net_32x32 80 []) as (_ & _ & _ & _ & _ & H & _).
    apply H.
    + reflexivity.
    + split; vm_compute; discriminate.
    + unfold stride_disagrees. vm_compute. discriminate.
  - destruct (yolov2_shape_checks F32.mul false (empty_layer 1 1) []
                net_32x32 80 []) as (_ & _ & _ & _ & _ & _ & _ & H).
    apply H.
    + reflexivity.
    + split; vm_compute; discriminate.
    + unfold stride_disagrees. vm_compute. intros H'. apply H'. reflexivity.
  - destruct (yolov2_shape_checks F32.mul true (empty_layer 1 2) []
                net_32x32 80 earlier_objects) as (_ & _ & H & _).
    apply H. vm_compute. discriminate.
  - destruct (yolov2_shape_checks F32.mul true (empty_layer 1 0) []
                net_32x32 80 []) as (_ & _ & _ & H & _).
    apply H. reflexivity.
Defined.

(* ================================================================== *)
(** * [NvDsInferParseCustomYoloTLT]: errors and the size of the list *)

(** X19. [NvDsInferParseCustomYoloTLT] returns failure and leaves the
    output list as it was unless it is given exactly four layers; with four
    layers and a [keepCount[0]] that is zero or negative it returns success
    and leaves the list as it was. *)
Theorem tlt_layer_count_and_empty
    (outputLayersInfo : list NvDsInferLayerInfo)
    (networkInfo : NvDsInferNetworkInfo) (numClassesConfigured : Z)
    (objectList : list NvDsInferParseObjectInfo) :
  (length outputLayersInfo <> 4 ->
   NvDsInferParseCustomYoloTLT outputLayersInfo networkInfo
     numClassesConfigured objectList = Returned false objectList)
  /\ (length outputLayersInfo = 4 ->
      (nth 0 (as_ints (buffer (nth 0 outputLayersInfo layer0))) 0 <= 0)%Z ->
      NvDsInferParseCustomYoloTLT outputLayersInfo networkInfo
        numClassesConfigured objectList = Returned true objectList).
Proof.
  unfold NvDsInferParseCustomYoloTLT. split.
  - intros H. apply Nat.eqb_neq in H. rewrite H. reflexivity.
  - intros H K. apply Nat.eqb_eq in H. rewrite H. cbn [negb].
    destruct (nth 0 (as_ints (buffer (nth 0 outputLayersInfo layer0))) 0%Z)
      as [|p|p]; [reflexivity | lia | reflexivity].
Qed.

Lemma tlt_layer_count_and_empty_witness :
  NvDsInferParseCustomYoloTLT [layer0; layer0; layer0] net_100x50 80 []
  = Returned false []
  /\ NvDsInferParseCustomYoloTLT
       (tlt_layers (-1) (map F32.of_Z [10; 20; 30; 40]%Z) [F32.half]
                   [F32.zero])
       net_100x50 80 []
     = Returned true [].
Proof.
  split.
  - apply tlt_layer_count_and_empty. simpl. lia.
  - apply tlt_layer_count_and_empty; [reflexivity | simpl; lia].
Defined.

Lemma tlt_loop_length (networkInfo : NvDsInferNetworkInfo) (keepCount0 : Z)
    (boxes scores clss : list float) :
  forall fuel i ol,
    length (tlt_loop fuel networkInfo keepCount0 boxes scores clss i ol)
    <= Nat.max (length ol) (S topK).
Proof.
  induction fuel as [|fuel IH]; intros i ol; cbn [tlt_loop]; [lia|].
  destruct ((Z.of_nat i <? keepCount0)%Z && (length ol <=? topK)) eqn:E;
    [|lia].
  apply andb_true_iff in E as [_ E]. apply Nat.leb_le in E.
  eapply Nat.le_trans; [apply IH|].
  destruct (tlt_rejected networkInfo (tlt_read boxes scores clss i)).
  - lia.
  - rewrite length_app. simpl. lia.
Qed.

(** X20. [NvDsInferParseCustomYoloTLT] never lets the output list grow
    beyond [topK + 1 = 201] entries: the list it leaves is no longer than
    the longer of the list it was given and 201. *)
Theorem tlt_list_size_bound
    (outputLayersInfo : list NvDsInferLayerInfo)
    (networkInfo : NvDsInferNetworkInfo) (numClassesConfigured : Z)
    (objectList : list NvDsInferParseObjectInfo) :
  exists ok new,
    NvDsInferParseCustomYoloTLT outputLayersInfo networkInfo
      numClassesConfigured objectList = Returned ok new
    /\ length new <= Nat.max (length objectList) (S topK).
Proof.
  unfold NvDsInferParseCustomYoloTLT.
  destruct (negb (length outputLayersInfo =? 4)).
  - exists false, objectList. split; [reflexivity | lia].
  - eexists. eexists. split; [reflexivity | apply tlt_loop_length].
Qed.


(* ================================================================== *)
(** * [cmp]: the ordering [std::sort] is given *)

(** X22. [cmp] is the strict weak ordering [std::sort] requires as long
    as no confidence is a NaN: it is irreflexive, asymmetric and
    transitive, and two detections that are each tied with a third whose
    confidence is not a NaN are tied with each other.  (A NaN confidence is
    tied with every other, which breaks the last property.) *)
Theorem cmp_strict_weak_order (a b c : Detection) :
  F32.is_nan (conf b) = false ->
  cmp a a = false
  /\ (cmp a b = true -> cmp b a = false)
  /\ (cmp a b = true -> cmp b c = true -> cmp a c = true)
  /\ (cmp a b = false -> cmp b a = false ->
      cmp b c = false -> cmp c b = false ->
      cmp a c = false /\ cmp c a = false).
Proof.
  intros Nb. split; [apply ltb_irrefl|]. split; [apply cmp_asym|].
  split; [apply cmp_trans|].
  unfold cmp, F32.gtb. intros H1 H2 H3 H4.
  destruct (F32.is_nan (conf a)) eqn:Na.
  { split.
    - destruct (SFltb (conf c) (conf a)) eqn:E; [|reflexivity].
      apply ltb_is_nan_r in E. congruence.
    - destruct (SFltb (conf a) (conf c)) eqn:E; [|reflexivity].
      apply ltb_is_nan_l in E. congruence. }
  assert (Eab : same_key (conf b) (conf a) = true).
  { unfold same_key, F32.ltb. rewrite H1, H2. reflexivity. }
  assert (Ebc : same_key (conf b) (conf c) = true).
  { unfold same_key, F32.ltb. rewrite H3, H4. reflexivity. }
  rewrite (same_key_trans (conf b) (conf a) (conf c) Nb Na Eab) in Ebc.
  unfold same_key, F32.ltb in Ebc.
  destruct (SFltb (conf a) (conf c)), (SFltb (conf c) (conf a));
    try discriminate.
  split; reflexivity.
Qed.

Lemma cmp_strict_weak_order_witness :
  cmp nms_A nms_A = false
  /\ (cmp nms_A nms_B = true -> cmp nms_B nms_A = false)
  /\ (cmp nms_A nms_B = true -> cmp nms_B nms_C = true ->
      cmp nms_A nms_C = true)
  /\ (cmp nms_A nms_B = false -> cmp nms_B nms_A = false ->
      cmp nms_B nms_C = false -> cmp nms_C nms_B = false ->
      cmp nms_A nms_C = false /\ cmp nms_C nms_A = false).
Proof. apply (cmp_strict_weak_order nms_A nms_B nms_C). reflexivity. Defined.

(* ================================================================== *)
(** * [NvDsInferParseCustomYoloTLT]: a larger [keepCount] *)

Lemma tlt_loop_prefix (networkInfo : NvDsInferNetworkInfo) (k1 k2 : Z)
    (boxes scores clss : list float) :
  (k1 <= k2)%Z ->
  forall fuel i ol, exists more,
    tlt_loop fuel networkInfo k2 boxes scores clss i ol
    = tlt_loop fuel networkInfo k1 boxes scores clss i ol ++ more.
Proof.
  intros Hk. induction fuel as [|fuel IH]; intros i ol.
  - exists []. simpl. rewrite app_nil_r. reflexivity.
  - destruct ((Z.of_nat i <? k1)%Z && (length ol <=? topK)) eqn:E.
    + cbn [tlt_loop]. rewrite E.
      apply andb_true_iff in E as [E1 E2]. apply Z.ltb_lt in E1.
      replace ((Z.of_nat i <? k2)%Z) with true
        by (symmetry; apply Z.ltb_lt; lia).
      rewrite E2. cbn [andb]. apply IH.
    + destruct (tlt_loop_spec networkInfo k2 boxes scores clss (S fuel) i ol)
        as (n & _ & _ & ->).
      cbn [tlt_loop]. rewrite E. eexists. reflexivity.
Qed.

(** X23. Raising [keepCount[0]] never removes or reorders what
    [NvDsInferParseCustomYoloTLT] emits: the list left for the larger count
    begins with the list left for the smaller one. *)
Theorem tlt_keepCount_monotone
    (l0 l0' l1 l2 l3 : NvDsInferLayerInfo)
    (networkInfo : NvDsInferNetworkInfo) (numClassesConfigured : Z)
    (objectList : list NvDsInferParseObjectInfo) :
  (nth 0 (as_ints (buffer l0)) 0 <= nth 0 (as_ints (buffer l0')) 0)%Z ->
  exists new more,
    NvDsInferParseCustomYoloTLT [l0; l1; l2; l3] networkInfo
      numClassesConfigured objectList = Returned true new
    /\ NvDsInferParseCustomYoloTLT [l0'; l1; l2; l3] networkInfo
         numClassesConfigured objectList = Returned true (new ++ more).
Proof.
  intros Hk. unfold NvDsInferParseCustomYoloTLT.
  cbn [length Nat.eqb negb nth].
  set (k1 := nth 0 (as_ints (buffer l0)) 0%Z) in *.
  set (k2 := nth 0 (as_ints (buffer l0')) 0%Z) in *.
  set (boxes := as_floats (buffer l1)).
  set (scores := as_floats (buffer l2)).
  set (clss := as_floats (buffer l3)).
  destruct (tlt_loop_prefix networkInfo k1 k2 boxes scores clss Hk
              (Z.to_nat k2) 0 objectList) as [more Hm].
  exists (tlt_loop (Z.to_nat k1) networkInfo k1 boxes scores clss 0 objectList),
         more.
  split; [reflexivity|]. rewrite Hm. do 2 f_equal.
  replace (Z.to_nat k2) with (Z.to_nat k1 + (Z.to_nat k2 - Z.to_nat k1)) by lia.
  apply tlt_loop_fuel. lia.
Qed.

Lemma tlt_keepCount_monotone_witness :
  exists new more,
    NvDsInferParseCustomYoloTLT
      [mkLayer (mkDims 1 [1%Z]) (IntBuffer [1%Z]);
       float_layer [] (map F32.of_Z [10; 20; 30; 40; 10; 20; 30; 40]%Z);
       float_layer [] [F32.half; F32.half];
       float_layer [] [F32.of_Z 3; F32.of_Z 4]]
      net_100x50 80 [] = Returned true new
    /\ NvDsInferParseCustomYoloTLT
         [mkLayer (mkDims 1 [1%Z]) (IntBuffer [2%Z]);
          float_layer [] (map F32.of_Z [10; 20; 30; 40; 10; 20; 30; 40]%Z);
          float_layer [] [F32.half; F32.half];
          float_layer [] [F32.of_Z 3; F32.of_Z 4]]
         net_100x50 80 [] = Returned true (new ++ more).
Proof. apply tlt_keepCount_monotone. simpl. lia. Defined.

(* ================================================================== *)
(** * The grid-anchor decoders: the reads stay inside the buffer *)

Lemma i32_small (z : Z) : (- 2 ^ 31 <= z < 2 ^ 31)%Z -> i32 z = z.
Proof. intros H. unfold i32. rewrite Z.mod_small; lia. Qed.

Lemma u32_small (z : Z) : (0 <= z < 2 ^ 32)%Z -> u32 z = z.
Proof. intros H. unfold u32. apply Z.mod_small. exact H. Qed.

Lemma cell_index_plain (gw gh nb nc y x b c : Z) :
  (0 <= y < gh)%Z -> (0 <= x < gw)%Z -> (0 <= b < nb)%Z ->
  (0 <= c < 5 + nc)%Z ->
  (gh * gw * (nb * (5 + nc)) < 2 ^ 31)%Z ->
  cell_index gw gh nc y x b c
  = (y * gw + x + gh * gw * (b * (5 + nc) + c))%Z
  /\ (0 <= cell_index gw gh nc y x b c < gh * gw * (nb * (5 + nc)))%Z.
Proof.
  intros Hy Hx Hb Hc Hs.
  assert (B1 : (0 <= y * gw + x < gh * gw)%Z) by nia.
  assert (K : (0 <= b * (5 + nc) + c < nb * (5 + nc))%Z) by nia.
  assert (B2 : (0 <= gh * gw * (b * (5 + nc) + c)
                <= gh * gw * (nb * (5 + nc)) - gh * gw)%Z) by nia.
  assert (B3 : (gh * gw <= gh * gw * (nb * (5 + nc)))%Z) by nia.
  unfold cell_index. cbv zeta.
  rewrite (i32_small (gh * gw)) by lia.
  rewrite (i32_small (y * gw + x)) by lia.
  rewrite u32_small by lia.
  split; [reflexivity | lia].
Qed.

(** X25. The grid-anchor decoders read inside the layer buffer.  For a cell
    [(y, x)] of the grid, an anchor [b < numBBoxes] and a value
    [c < 5 + numOutputClasses], with
    [gridSizeH * gridSizeW * numBBoxes * (5 + numOutputClasses)] below 2^31,
    the index is [y * gridSizeW + x + gridSizeH * gridSizeW *
    (b * (5 + numOutputClasses) + c)] without wrap-around, and it is below
    the length of a buffer of that many floats. *)
Theorem cell_reads_in_bounds (detections : list float)
    (gw gh nb nc y x b c : Z) :
  (0 <= y < gh)%Z -> (0 <= x < gw)%Z -> (0 <= b < nb)%Z ->
  (0 <= c < 5 + nc)%Z ->
  (gh * gw * (nb * (5 + nc)) < 2 ^ 31)%Z ->
  Z.of_nat (length detections) = (gh * gw * (nb * (5 + nc)))%Z ->
  cell detections gw gh nc y x b c
  = nth (Z.to_nat (cell_index gw gh nc y x b c)) detections F32.zero
  /\ cell_index gw gh nc y x b c
     = (y * gw + x + gh * gw * (b * (5 + nc) + c))%Z
  /\ Z.to_nat (cell_index gw gh nc y x b c) < length detections.
Proof.
  intros Hy Hx Hb Hc Hs Hl.
  destruct (cell_index_plain gw gh nb nc y x b c Hy Hx Hb Hc Hs) as [E R].
  split; [reflexivity|]. split; [exact E|]. lia.
Qed.

Lemma cell_reads_in_bounds_witness :
  let detections := as_floats (buffer (empty_layer 2 2)) in
  cell detections 2 2 80 1 1 2 84
  = nth (Z.to_nat (cell_index 2 2 80 1 1 2 84)) detections F32.zero
  /\ cell_index 2 2 80 1 1 2 84 = (1 * 2 + 1 + 2 * 2 * (2 * (5 + 80) + 84))%Z
  /\ Z.to_nat (cell_index 2 2 80 1 1 2 84) < length detections.
Proof.
  cbv zeta. apply (cell_reads_in_bounds _ 2 2 3 80 1 1 2 84); try lia.
  vm_compute. reflexivity.
Defined.

(* ================================================================== *)
(** * [read_files_in_dir] *)

Lemma read_entries_spec (entries : list String.string) :
  forall file_names,
    read_entries entries file_names = file_names ++ filter listed entries.
Proof.
  induction entries as [|n rest IH]; intros file_names; simpl.
  - rewrite app_nil_r. reflexivity.
  - destruct (listed n); rewrite IH; [|reflexivity].
    rewrite <- app_assoc. reflexivity.
Qed.

Lemma listed_spec (n : String.string) :
  listed n = true <-> n <> DirNames.dot /\ n <> DirNames.dotdot.
Proof.
  unfold listed. rewrite andb_true_iff, !negb_true_iff, !String.eqb_neq.
  reflexivity.
Qed.

(** X26. [read_files_in_dir] returns -1 and leaves [file_names] as it was
    when the directory cannot be opened.  Otherwise it returns 0 and
    appends to [file_names] the names of the entries other than "." and
    "..", each as often and in the order [readdir] returns them. *)
Theorem read_files_in_dir_lists (file_names : list String.string) :
  read_files_in_dir None file_names = ((-1)%Z, file_names)
  /\ forall entries, exists new,
       read_files_in_dir (Some entries) file_names
       = (0%Z, file_names ++ new)
       /\ new = filter listed entries
       /\ (forall n, In n new
                     <-> In n entries
                         /\ n <> DirNames.dot /\ n <> DirNames.dotdot)
       /\ (forall n, listed n = true -> count_occ String.string_dec new n
                                        = count_occ String.string_dec entries n).
Proof.
  split; [reflexivity|]. intros entries. exists (filter listed entries).
  split; [unfold read_files_in_dir; rewrite read_entries_spec; reflexivity|].
  split; [reflexivity|]. split.
  - intros n. rewrite filter_In, listed_spec. reflexivity.
  - intros n Hn. induction entries as [|e rest IH]; [reflexivity|].
    cbn [filter]. destruct (listed e) eqn:E.
    + cbn [count_occ]. destruct (String.string_dec e n); rewrite IH;
        reflexivity.
    + cbn [count_occ]. destruct (String.string_dec e n) as [->|_];
        [congruence | exact IH].
Qed.
